(** * Worker pool, jobs and handles of [ext/multiprocessing.py]

    A shallow embedding of the job data model, the worker entry point
    [evaluate_job], the blocking and awaitable handles and the pool
    orchestrator, followed by the properties checked against them.

    Conventions of the embedding:
    - Python objects that are mutated or replaced by reference (jobs,
      handles, futures, pool tasks) live in stores indexed by references;
      a [Job]'s [JobStats] is owned by its job and held by value, as every
      [JobStats] of the program is created in [_submit] for one job.
    - Statements run in a state-and-exception monad; an exception keeps the
      state changes made before it, as in Python.
    - [assert] statements execute (the interpreter's default mode).
    - [datetime.now()] reads an arbitrary wall clock: nothing makes two
      successive readings ordered.
    - A user callable is a total function from its arguments to either a
      returned value or a raised exception; it may lack the attribute
      [__name__], as a [functools.partial] object does.
    - The process pool and the event loop are taken at their interface: a
      task is completed by running the task function on a pickled copy of
      its argument in a worker; what it returned, or the [Exception] it
      raised, is sent back, unpickled by the pool's result thread and
      handed to the task's callback, after which the task is settled.
      Pickling user data is a faithful deep copy, but a job whose [error]
      is a [JobFailedError] cannot be unpickled: the class passes no
      argument to [Exception.__init__], so pickle rebuilds it with no
      argument and its constructor raises [TypeError]. An exception on the
      result thread (from unpickling or from a callback) ends the thread,
      and no result is delivered from then on. Closures handed to
      [call_soon_threadsafe] run later, in order, on the loop.

    The service container of [ext/di.py], [debounce] of [ext/functools.py]
    and [setup_logging] of [ext/logging.py] follow in modules of their
    own, each with the conventions of its embedding. *)

From Stdlib Require Import ZArith QArith List Sorted Lia.
From stdpp Require Import base option gmap strings list.

Close Scope Q_scope.
Open Scope Z_scope.

(* ===================================================================== *)
(** ** Values, exceptions, callables                                      *)
(* ===================================================================== *)

(** References to objects of one process. *)
Abbreviation ref := positive.

(** Picklable user data. *)
Inductive value : Type :=
| VNone
| VInt (n : Z)
| VStr (s : string).

(** What a Python expression of this program can evaluate to for a caller
    of [join]: user data, or a reference to a [Job] object. *)
Inductive pyobj : Type :=
| Data (v : value)
| JobObject (job : ref).

(** Exception classes met in the program; the last two derive from
    [BaseException] only. *)
Inductive exc_class : Type :=
| AssertionError | AttributeError | ValueError | TypeError
| InvalidStateError | MaybeEncodingError
| KeyboardInterrupt | SystemExit.

(** Exception values. [JobFailedError(job, inner_error)] keeps a reference
    to the job object and the wrapped error. *)
Inductive exn : Type :=
| PyExc (cls : exc_class) (msg : string)
| JobFailedError (job : ref) (inner_error : exn).

(** [isinstance(e, Exception)]. *)
Definition isinstance_Exception (e : exn) : bool :=
  match e with
  | PyExc KeyboardInterrupt _ | PyExc SystemExit _ => false
  | PyExc _ _ => true
  | JobFailedError _ _ => true
  end.

(** [isinstance(e, JobFailedError)]. *)
Definition isinstance_JobFailedError (e : exn) : bool :=
  match e with
  | JobFailedError _ _ => true
  | PyExc _ _ => false
  end.

Inductive outcome : Type :=
| Return (v : value)
| Raise (e : exn).

(** A callable: its attribute [__name__], when it has one, and what a call
    does. *)
Record callable : Type := mkCallable {
  __name__ : option string;
  call : list value -> outcome
}.

(* ===================================================================== *)
(** ** JobStats and Job                                                   *)
(* ===================================================================== *)

(** A naive [datetime] as a count of microseconds; a [timedelta] likewise. *)
Definition datetime := Z.
Definition timedelta := Z.

(** [timedelta.total_seconds()]: the microsecond count over 10^6 (the exact
    quotient; Python rounds it to the nearest float). *)
Definition total_seconds (d : timedelta) : Q := Qmake d 1000000.

Record JobStats : Type := mkJobStats {
  submitted_at : datetime;
  started_at : option datetime;
  finished_at : option datetime
}.

(** [JobStats.elapsed]. *)
Definition elapsed (self : JobStats) : Q :=
  match started_at self with
  | None => 0%Q
  | Some s =>
      match finished_at self with
      | None => 0%Q
      | Some f => total_seconds (f - s)
      end
  end.

Record Job : Type := mkJob {
  id : Z;
  func : callable;
  args : list value;
  stats : option JobStats;
  result : value;
  error : option exn
}.

(** [Job.__init__(jobid, func, *args)]. *)
Definition Job__init__ (jobid : Z) (f : callable) (a : list value) : Job :=
  {| id := jobid; func := f; args := a;
     stats := None; result := VNone; error := None |}.

(* ===================================================================== *)
(** ** Handles, futures, pool tasks, the process state                    *)
(* ===================================================================== *)

(** Attributes of a handle object. [_future] is [None] for a plain
    [JobHandle] and set for an [AsyncJobHandle]; [_pool_task] is [None]
    until [_submit] wires the pool task. *)
Record handle : Type := mkHandle {
  _job : ref;
  _pool_task : option ref;
  _future : option ref
}.

(** An [asyncio.Future]. *)
Inductive future : Type :=
| FPending
| FResult (v : value)
| FException (e : exn).

(** A pool task ([multiprocessing.pool.AsyncResult]). [t_handle] is the
    handle whose bound [_on_success] and [_on_error] are the task's
    callbacks; [t_arg] is the pickled job that [evaluate_job] will receive
    in the worker process. A task is pending until a worker takes it; it is
    lost when it was taken and will never be settled (the worker process
    ended, or the result thread did not finish with its result); otherwise
    it is settled with a value or with an error. *)
Inductive task_state : Type :=
| TPending
| TLost
| TSuccess (job : ref)
| TFailure (e : exn).

Record task : Type := mkTask {
  t_arg : Job;
  t_handle : ref;
  t_state : task_state
}.

(** Closures handed to [loop.call_soon_threadsafe]. *)
Inductive closure : Type :=
| _set_result (self : ref) (j : ref)
| _set_err (self : ref) (e : exn).

Inductive log_line : Type :=
| LogPoolCreated
| LogPoolTerminated
| LogSubmitting (jobid : Z) (fname : string)
| LogFinished (jobid : Z) (fname : string) (secs : Q)
| LogFailed (jobid : Z) (fname : string) (secs : Q).

(** Observable effects, in the order they happen. [Loop_exception] is an
    exception given to the loop's exception handler, [Thread_exception] one
    that ended the pool's result thread. *)
Inductive event : Type :=
| Set_started_at (job : ref) (t : datetime)
| Set_finished_at (job : ref) (t : datetime)
| Set_result (job : ref) (v : value)
| Set_error (job : ref) (e : exn)
| Log_debug (line : log_line)
| Loop_exception (e : exn)
| Thread_exception (e : exn).

Record world : Type := mkWorld {
  heap : gmap positive Job;
  handles : gmap positive handle;
  futures : gmap positive future;
  tasks : gmap positive task;
  ready : list closure;
  pool_job_id : Z;
  pool_running : bool;
  pool_result_thread : bool;
  clock : nat -> datetime;
  ticks : nat;
  trace : list event
}.

Definition with_heap (f : gmap positive Job -> gmap positive Job) (w : world) : world :=
  mkWorld (f (heap w)) (handles w) (futures w) (tasks w) (ready w)
          (pool_job_id w) (pool_running w) (pool_result_thread w)
          (clock w) (ticks w) (trace w).
Definition with_handles (f : gmap positive handle -> gmap positive handle) (w : world) : world :=
  mkWorld (heap w) (f (handles w)) (futures w) (tasks w) (ready w)
          (pool_job_id w) (pool_running w) (pool_result_thread w)
          (clock w) (ticks w) (trace w).
Definition with_futures (f : gmap positive future -> gmap positive future) (w : world) : world :=
  mkWorld (heap w) (handles w) (f (futures w)) (tasks w) (ready w)
          (pool_job_id w) (pool_running w) (pool_result_thread w)
          (clock w) (ticks w) (trace w).
Definition with_tasks (f : gmap positive task -> gmap positive task) (w : world) : world :=
  mkWorld (heap w) (handles w) (futures w) (f (tasks w)) (ready w)
          (pool_job_id w) (pool_running w) (pool_result_thread w)
          (clock w) (ticks w) (trace w).
Definition with_ready (f : list closure -> list closure) (w : world) : world :=
  mkWorld (heap w) (handles w) (futures w) (tasks w) (f (ready w))
          (pool_job_id w) (pool_running w) (pool_result_thread w)
          (clock w) (ticks w) (trace w).
Definition with_pool_job_id (n : Z) (w : world) : world :=
  mkWorld (heap w) (handles w) (futures w) (tasks w) (ready w)
          n (pool_running w) (pool_result_thread w)
          (clock w) (ticks w) (trace w).
Definition with_pool_running (b : bool) (w : world) : world :=
  mkWorld (heap w) (handles w) (futures w) (tasks w) (ready w)
          (pool_job_id w) b (pool_result_thread w)
          (clock w) (ticks w) (trace w).
Definition with_pool_result_thread (b : bool) (w : world) : world :=
  mkWorld (heap w) (handles w) (futures w) (tasks w) (ready w)
          (pool_job_id w) (pool_running w) b
          (clock w) (ticks w) (trace w).
Definition with_ticks (n : nat) (w : world) : world :=
  mkWorld (heap w) (handles w) (futures w) (tasks w) (ready w)
          (pool_job_id w) (pool_running w) (pool_result_thread w)
          (clock w) n (trace w).
Definition emit (e : event) (w : world) : world :=
  mkWorld (heap w) (handles w) (futures w) (tasks w) (ready w)
          (pool_job_id w) (pool_running w) (pool_result_thread w)
          (clock w) (ticks w) (trace w ++ [e]).

(* ===================================================================== *)
(** ** The statement monad                                                *)
(* ===================================================================== *)

Inductive res (A : Type) : Type :=
| Ok (a : A)
| Err (e : exn).
Arguments Ok {A} a.
Arguments Err {A} e.

(** A statement maps a state to a result and a state; [None] is reserved
    for a dangling reference, which no Python program can hold. *)
Definition M (A : Type) : Type := world -> option (res A * world).

Definition ret {A} (a : A) : M A := fun w => Some (Ok a, w).
Definition raise {A} (e : exn) : M A := fun w => Some (Err e, w).
Definition bind {A B} (m : M A) (k : A -> M B) : M B := fun w =>
  match m w with
  | Some (Ok a, w') => k a w'
  | Some (Err e, w') => Some (Err e, w')
  | None => None
  end.

Notation "x <- m ;; k" := (bind m (fun x => k))
  (at level 20, m at level 99, k at level 200, only parsing).
Notation "m ;; k" := (bind m (fun _ => k))
  (at level 100, k at level 200, only parsing, right associativity).

Definition modify (f : world -> world) : M unit := fun w => Some (Ok tt, f w).

(** [try: body except Exception as e: handler(e)]. *)
Definition try_except_Exception {A} (body : M A) (handler : exn -> M A) : M A :=
  fun w =>
    match body w with
    | Some (Err e, w') =>
        if isinstance_Exception e then handler e w' else Some (Err e, w')
    | r => r
    end.

(** [try: body finally: fin]. *)
Definition try_finally {A} (body : M A) (fin : M unit) : M A := fun w =>
  match body w with
  | Some (r, w') =>
      match fin w' with
      | Some (Ok _, w'') => Some (r, w'')
      | Some (Err e, w'') => Some (Err e, w'')
      | None => None
      end
  | None => None
  end.

(** [assert cond, msg]. *)
Definition assert_ (cond : bool) (msg : string) : M unit :=
  if cond then ret tt else raise (PyExc AssertionError msg).

(** [datetime.now()]. *)
Definition now : M datetime := fun w =>
  Some (Ok (clock w (ticks w)), with_ticks (S (ticks w)) w).

(** [log.debug(line)]. *)
Definition log_debug (line : log_line) : M unit := modify (emit (Log_debug line)).

Definition get_job (l : ref) : M Job := fun w =>
  match heap w !! l with
  | Some j => Some (Ok j, w)
  | None => None
  end.

Definition get_handle (h : ref) : M handle := fun w =>
  match handles w !! h with
  | Some x => Some (Ok x, w)
  | None => None
  end.

Definition put_job (l : ref) (j : Job) : M unit :=
  modify (with_heap (insert l j)).

Definition put_handle (h : ref) (x : handle) : M unit :=
  modify (with_handles (insert h x)).

Definition not_submitted : string := "job was not properly submitted to worker pool".

(** [Job.name]: [self.func.__name__]. *)
Definition name (self : Job) : M string :=
  match __name__ (func self) with
  | Some n => ret n
  | None => raise (PyExc AttributeError "object has no attribute '__name__'")
  end.

(** [job.stats.started_at = t]. *)
Definition setattr_started_at (l : ref) (t : datetime) : M unit :=
  j <- get_job l ;;
  match stats j with
  | None => raise (PyExc AttributeError "'NoneType' object has no attribute 'started_at'")
  | Some s =>
      put_job l (mkJob (id j) (func j) (args j)
                   (Some (mkJobStats (submitted_at s) (Some t) (finished_at s)))
                   (result j) (error j)) ;;
      modify (emit (Set_started_at l t))
  end.

(** [job.stats.finished_at = t]. *)
Definition setattr_finished_at (l : ref) (t : datetime) : M unit :=
  j <- get_job l ;;
  match stats j with
  | None => raise (PyExc AttributeError "'NoneType' object has no attribute 'finished_at'")
  | Some s =>
      put_job l (mkJob (id j) (func j) (args j)
                   (Some (mkJobStats (submitted_at s) (started_at s) (Some t)))
                   (result j) (error j)) ;;
      modify (emit (Set_finished_at l t))
  end.

(** [job.result = v]. *)
Definition setattr_result (l : ref) (v : value) : M unit :=
  j <- get_job l ;;
  put_job l (mkJob (id j) (func j) (args j) (stats j) v (error j)) ;;
  modify (emit (Set_result l v)).

(** [job.error = e]. *)
Definition setattr_error (l : ref) (e : exn) : M unit :=
  j <- get_job l ;;
  put_job l (mkJob (id j) (func j) (args j) (stats j) (result j) (Some e)) ;;
  modify (emit (Set_error l e)).

(** [job.stats = s]. *)
Definition setattr_stats (l : ref) (s : JobStats) : M unit :=
  j <- get_job l ;;
  put_job l (mkJob (id j) (func j) (args j) (Some s) (result j) (error j)).

(** Calling [f] on the unpacked argument tuple [a]. *)
Definition apply (f : callable) (a : list value) : M value :=
  match call f a with
  | Return v => ret v
  | Raise e => raise e
  end.

(* ===================================================================== *)
(** ** The worker entry point                                             *)
(* ===================================================================== *)

Definition evaluate_job (job : ref) : M ref :=
  try_finally
    (try_except_Exception
       (j <- get_job job ;;
        assert_ (bool_decide (stats j <> None)) not_submitted ;;
        t <- now ;;
        setattr_started_at job t ;;
        j <- get_job job ;;
        r <- apply (func j) (args j) ;;
        setattr_result job r)
       (fun e => setattr_error job (JobFailedError job e)))
    (j <- get_job job ;;
     match stats j with
     | Some _ => t <- now ;; setattr_finished_at job t
     | None => ret tt
     end) ;;
  ret job.

(* ===================================================================== *)
(** ** Futures and the event loop                                         *)
(* ===================================================================== *)

(** The result of an operation that may suspend its caller. *)
Inductive wait (A : Type) : Type :=
| Blocked
| Done (r : res A).
Arguments Blocked {A}.
Arguments Done {A} r.

Module Future.

(** [loop.create_future()]. *)
Definition create : M ref := fun w =>
  let f := fresh (dom (futures w)) in
  Some (Ok f, with_futures (insert f FPending) w).

Definition get (f : ref) : M future := fun w =>
  match futures w !! f with
  | Some st => Some (Ok st, w)
  | None => None
  end.

(** [future.set_result(v)]. *)
Definition set_result (f : ref) (v : value) : M unit :=
  st <- get f ;;
  match st with
  | FPending => modify (with_futures (insert f (FResult v)))
  | _ => raise (PyExc InvalidStateError "invalid state")
  end.

(** [future.set_exception(e)]. *)
Definition set_exception (f : ref) (e : exn) : M unit :=
  st <- get f ;;
  match st with
  | FPending => modify (with_futures (insert f (FException e)))
  | _ => raise (PyExc InvalidStateError "invalid state")
  end.

(** [future.__await__()] as seen by the awaiting task: suspended while
    the future is pending, resumed with its value or its exception. *)
Definition __await__ (f : ref) (w : world) : option (wait value) :=
  match futures w !! f with
  | Some FPending => Some Blocked
  | Some (FResult v) => Some (Done (Ok v))
  | Some (FException e) => Some (Done (Err e))
  | None => None
  end.

End Future.

(** [loop.call_soon_threadsafe(c)]: the closure joins the loop's queue. *)
Definition call_soon_threadsafe (c : closure) : M unit :=
  modify (with_ready (fun q => q ++ [c])).

(* ===================================================================== *)
(** ** JobHandle and AsyncJobHandle                                       *)
(* ===================================================================== *)

Module AsyncResult.

(** [AsyncResult.get()]: waits for the task, then returns its value or
    raises its error. The value of a task of this program is what
    [evaluate_job] returned: the job object. *)
Definition get (t : ref) (w : world) : option (wait pyobj) :=
  match tasks w !! t with
  | Some tk =>
      match t_state tk with
      | TPending | TLost => Some Blocked
      | TSuccess j => Some (Done (Ok (JobObject j)))
      | TFailure e => Some (Done (Err e))
      end
  | None => None
  end.

End AsyncResult.

Module JobHandle.

(** [JobHandle.__init__(job)]. *)
Definition __init__ (job : ref) : M ref := fun w =>
  let h := fresh (dom (handles w)) in
  Some (Ok h, with_handles (insert h (mkHandle job None None)) w).

Definition job_id (self : ref) : M Z :=
  h <- get_handle self ;;
  j <- get_job (_job h) ;;
  ret (id j).

Definition stats (self : ref) : M JobStats :=
  h <- get_handle self ;;
  j <- get_job (_job h) ;;
  match stats j with
  | None => raise (PyExc AssertionError not_submitted)
  | Some s => ret s
  end.

Definition join (self : ref) (w : world) : option (wait pyobj) :=
  match handles w !! self with
  | Some h =>
      match _pool_task h with
      | None => Some (Done (Err (PyExc AssertionError not_submitted)))
      | Some t => AsyncResult.get t w
      end
  | None => None
  end.

(** [str(self)] reads the id and the name of the current job. *)
Definition __str__ (self : ref) : M (Z * string) :=
  h <- get_handle self ;;
  j <- get_job (_job h) ;;
  n <- name j ;;
  ret (id j, n).

Definition _on_success (self : ref) (job : ref) : M unit :=
  h <- get_handle self ;;
  put_handle self (mkHandle job (_pool_task h) (_future h)) ;;
  d <- __str__ self ;;
  s <- stats self ;;
  log_debug (LogFinished (fst d) (snd d) (elapsed s)).

Definition _on_error (self : ref) (error : exn) : M unit :=
  match error with
  | JobFailedError ejob _ =>
      h <- get_handle self ;;
      put_handle self (mkHandle ejob (_pool_task h) (_future h)) ;;
      d <- __str__ self ;;
      s <- stats self ;;
      log_debug (LogFailed (fst d) (snd d) (elapsed s))
  | PyExc _ _ => raise (PyExc AssertionError "unexpected error type")
  end.

End JobHandle.

Module AsyncJobHandle.

(** [AsyncJobHandle.__init__(job, future)]. *)
Definition __init__ (job : ref) (fut : ref) : M ref := fun w =>
  let h := fresh (dom (handles w)) in
  Some (Ok h, with_handles (insert h (mkHandle job None (Some fut))) w).

(** [self._future]; only an [AsyncJobHandle] has the attribute. *)
Definition future_of (self : ref) : M ref := fun w =>
  match handles w !! self with
  | Some h =>
      match _future h with
      | Some f => Some (Ok f, w)
      | None => None
      end
  | None => None
  end.

Definition __await__ (self : ref) (w : world) : option (wait value) :=
  match future_of self w with
  | Some (Ok f, _) => Future.__await__ f w
  | _ => None
  end.

Definition _on_success (self : ref) (job : ref) : M unit :=
  _ <- future_of self ;;
  call_soon_threadsafe (_set_result self job).

Definition _on_error (self : ref) (error : exn) : M unit :=
  _ <- future_of self ;;
  call_soon_threadsafe (_set_err self error).

End AsyncJobHandle.

(** [e.inner_error]. *)
Definition getattr_inner_error (e : exn) : M exn :=
  match e with
  | JobFailedError _ inner => ret inner
  | PyExc _ _ => raise (PyExc AttributeError "object has no attribute 'inner_error'")
  end.

(** The body of a scheduled closure, run on the loop's thread. *)
Definition run_closure (c : closure) : M unit :=
  match c with
  | _set_result self j =>
      JobHandle._on_success self j ;;
      jo <- get_job j ;;
      f <- AsyncJobHandle.future_of self ;;
      Future.set_result f (result jo)
  | _set_err self e =>
      JobHandle._on_error self e ;;
      inner <- getattr_inner_error e ;;
      f <- AsyncJobHandle.future_of self ;;
      Future.set_exception f inner
  end.

(** One iteration of the event loop: the oldest scheduled closure runs; an
    exception escaping it goes to the loop's exception handler. *)
Definition loop_run_once (w : world) : option world :=
  match ready w with
  | [] => Some w
  | c :: rest =>
      match run_closure c (with_ready (fun _ => rest) w) with
      | Some (Ok _, w') => Some w'
      | Some (Err e, w') => Some (emit (Loop_exception e) w')
      | None => None
      end
  end.

(** The bound methods [handle._on_success] and [handle._on_error], resolved
    on the class of the handle. *)
Definition bound_on_success (self : ref) (job : ref) : M unit :=
  h <- get_handle self ;;
  match _future h with
  | Some _ => AsyncJobHandle._on_success self job
  | None => JobHandle._on_success self job
  end.

Definition bound_on_error (self : ref) (error : exn) : M unit :=
  h <- get_handle self ;;
  match _future h with
  | Some _ => AsyncJobHandle._on_error self error
  | None => JobHandle._on_error self error
  end.

(* ===================================================================== *)
(** ** WorkerPool                                                         *)
(* ===================================================================== *)

(** Allocation of a new [Job] object. *)
Definition new_job (j : Job) : M ref := fun w =>
  let l := fresh (dom (heap w)) in
  Some (Ok l, with_heap (insert l j) w).

Module WorkerPool.

(** The state of a process right after [WorkerPool.__init__]. *)
Definition __init__ (clk : nat -> datetime) : world :=
  mkWorld ∅ ∅ ∅ ∅ [] 0 true true clk 0%nat [Log_debug LogPoolCreated].

Definition _next_job_id : M Z := fun w =>
  let n := pool_job_id w + 1 in
  Some (Ok n, with_pool_job_id n w).

(** [self._pool.apply_async(evaluate_job, args=(job,),
    callback=handle._on_success, error_callback=handle._on_error)]:
    refused by a terminated pool; otherwise the job is pickled for the
    worker and a pending task is returned. *)
Definition apply_async (job : ref) (h : ref) : M ref := fun w =>
  if pool_running w then
    match heap w !! job with
    | Some j =>
        let t := fresh (dom (tasks w)) in
        Some (Ok t, with_tasks (insert t (mkTask j h TPending)) w)
    | None => None
    end
  else Some (Err (PyExc ValueError "Pool not running"), w).

Definition _submit (f : callable) (a : list value)
                   (create_handle : ref -> M ref) : M ref :=
  jid <- _next_job_id ;;
  job <- new_job (Job__init__ jid f a) ;;
  t <- now ;;
  setattr_stats job (mkJobStats t None None) ;;
  h <- create_handle job ;;
  d <- JobHandle.__str__ h ;;
  log_debug (LogSubmitting (fst d) (snd d)) ;;
  task <- apply_async job h ;;
  hd <- get_handle h ;;
  put_handle h (mkHandle (_job hd) (Some task) (_future hd)) ;;
  ret h.

Definition submit (f : callable) (a : list value) : M ref :=
  fut <- Future.create ;;
  _submit f a (fun job => AsyncJobHandle.__init__ job fut).

(** The pool's cache holds the tasks that are not settled. *)
Definition settled (tk : task) : bool :=
  match t_state tk with
  | TSuccess _ | TFailure _ => true
  | TPending | TLost => false
  end.

Definition cache_empty (w : world) : bool :=
  forallb settled (snd <$> map_to_list (tasks w)).

(** [self._pool.terminate()]: the pool stops accepting tasks; the first
    call then finalizes the pool, which fails when the result thread has
    ended while tasks are still in the cache. *)
Definition terminate : M unit := fun w =>
  let w' := with_pool_running false w in
  if pool_running w && negb (pool_result_thread w) && negb (cache_empty w)
  then Some (Err (PyExc AssertionError "Cannot have cache with result_hander not alive"), w')
  else Some (Ok tt, w').

(** [__exit__]. *)
Definition __exit__ : M unit :=
  terminate ;;
  log_debug LogPoolTerminated.

End WorkerPool.

(** The state of a worker process that has unpickled job [j] at address
    [l]: it shares nothing with the submitter but the wall clock. *)
Definition worker_process (w : world) (l : ref) (j : Job) : world :=
  mkWorld {[ l := j ]} ∅ ∅ ∅ [] 0 false false (clock w) (ticks w) [].

Definition worker_ref : ref := 1%positive.

(** Whether pickle can rebuild a job: not when its [error] is a
    [JobFailedError], whose constructor needs two arguments that its
    pickled form does not carry. *)
Definition unpickles (j : Job) : bool :=
  match error j with
  | Some (JobFailedError _ _) => false
  | _ => true
  end.

Definition unpickling_error : exn :=
  PyExc TypeError "JobFailedError.__init__() missing 2 required positional arguments".

(** Unpickling in the submitting process the job a worker sent back. *)
Definition unpickle (j : Job) : M ref :=
  if unpickles j then new_job j else raise unpickling_error.

(** What the result thread does with a value sent back for a task: it
    unpickles the job and calls the success callback; the task is then
    settled with the job. *)
Definition deliver_success (tk : task) (j : Job) : M task_state :=
  l <- unpickle j ;;
  bound_on_success (t_handle tk) l ;;
  ret (TSuccess l).

(** What the result thread does with an error sent back for a task: it
    unpickles the error and calls the error callback; the task is then
    settled with the error. *)
Definition deliver_error (tk : task) (e : exn) : M task_state :=
  (if isinstance_JobFailedError e then raise unpickling_error else ret tt) ;;
  bound_on_error (t_handle tk) e ;;
  ret (TFailure e).

(** A worker took task [t] and nothing will settle it. *)
Definition lose (t : ref) (tk : task) : world -> world :=
  with_tasks (insert t (mkTask (t_arg tk) (t_handle tk) TLost)).

(** The result thread handles what was sent back for task [t]. When the
    thread has ended the message is never read. An exception raised while
    it handles the message ends the thread before the task is settled. *)
Definition result_thread (t : ref) (tk : task) (deliver : M task_state)
                         (w : world) : option world :=
  if pool_result_thread w then
    match deliver w with
    | Some (Ok st, w') =>
        Some (with_tasks (insert t (mkTask (t_arg tk) (t_handle tk) st)) w')
    | Some (Err e, w') =>
        Some (with_pool_result_thread false
                (emit (Thread_exception e) (lose t tk w')))
    | None => None
    end
  else Some (lose t tk w).

(** A worker takes pending task [t]. With [fault = Some msg] the pool
    mechanism itself fails for the task (what the worker has to send back
    cannot be pickled) and the pool's error is sent back. Otherwise the
    worker unpickles the job, runs [evaluate_job] on it and sends back what
    it returned; an [Exception] raised by the task function is sent back as
    the task's error; any other exception, as a job that cannot be
    unpickled, ends the worker process. *)
Definition pool_complete (t : ref) (fault : option string) (w : world) : option world :=
  match tasks w !! t with
  | Some tk =>
      match t_state tk, pool_running w with
      | TPending, true =>
          match fault with
          | Some msg =>
              result_thread t tk (deliver_error tk (PyExc MaybeEncodingError msg)) w
          | None =>
              if unpickles (t_arg tk) then
                match evaluate_job worker_ref
                        (worker_process w worker_ref (t_arg tk)) with
                | Some (Ok r, ww) =>
                    match heap ww !! r with
                    | Some j' =>
                        result_thread t tk (deliver_success tk j')
                          (with_ticks (ticks ww) w)
                    | None => None
                    end
                | Some (Err e, ww) =>
                    if isinstance_Exception e
                    then result_thread t tk (deliver_error tk e)
                           (with_ticks (ticks ww) w)
                    else Some (lose t tk (with_ticks (ticks ww) w))
                | None => None
                end
              else Some (lose t tk w)
          end
      | _, _ => Some w
      end
  | None => Some w
  end.

Definition forget {A} (r : option (res A * world)) : option world :=
  match r with
  | Some (_, w) => Some w
  | None => None
  end.

(** What the submitting side and its environment can do, one at a time. *)
Inductive action : Type :=
| Submit (f : callable) (a : list value)
| Complete (t : ref) (fault : option string)
| LoopRun
| Exit.

(** One action; a [Submit] that returns a handle reports it together with
    its [job_id] read right after the call. *)
Definition step (a : action) (w : world) : option (world * list (ref * Z)) :=
  match a with
  | Submit f a =>
      match WorkerPool.submit f a w with
      | Some (Ok h, w') =>
          match JobHandle.job_id h w' with
          | Some (Ok n, _) => Some (w', [(h, n)])
          | _ => None
          end
      | Some (Err _, w') => Some (w', [])
      | None => None
      end
  | Complete t fault => (fun w' => (w', [])) <$> pool_complete t fault w
  | LoopRun => (fun w' => (w', [])) <$> loop_run_once w
  | Exit => (fun w' => (w', [])) <$> forget (WorkerPool.__exit__ w)
  end.

Fixpoint exec (acts : list action) (w : world) : option (world * list (ref * Z)) :=
  match acts with
  | [] => Some (w, [])
  | a :: rest =>
      match step a w with
      | Some (w', hs) =>
          match exec rest w' with
          | Some (w'', hs') => Some (w'', hs ++ hs')
          | None => None
          end
      | None => None
      end
  end.

(* ===================================================================== *)
(** ** Sample callables                                                   *)
(* ===================================================================== *)

Definition add : callable :=
  mkCallable (Some "add") (fun a =>
    match a with
    | [VInt x; VInt y] => Return (VInt (x + y))
    | _ => Raise (PyExc TypeError "unsupported operand")
    end).

Definition boom : callable :=
  mkCallable (Some "boom") (fun _ => Raise (PyExc ValueError "boom")).

Definition leave : callable :=
  mkCallable (Some "leave") (fun _ => Raise (PyExc SystemExit "1")).

(** [functools.partial(add, 2)], which has no [__name__]. *)
Definition partial_add : callable :=
  mkCallable None (fun a => call add (VInt 2 :: a)).

(** A wall clock ticking once a millisecond, and one stepping backwards. *)
Definition steady_clock (n : nat) : datetime := 1000 * Z.of_nat n.
Definition stepping_back_clock (n : nat) : datetime := 5000 - 1000 * Z.of_nat n.

(* ===================================================================== *)
(** ** Expected states, sample inputs and invariants                      *)
(* ===================================================================== *)

(** The property of [elapsed] as the specification words it. *)
Definition elapsed_as_specified (s : JobStats) : Prop :=
  (started_at s = None \/ finished_at s = None -> elapsed s = 0%Q) /\
  (forall a b, started_at s = Some a -> finished_at s = Some b ->
     elapsed s = total_seconds (b - a) /\ (0 <= elapsed s)%Q).

(** The job left by [evaluate_job], what it returns or raises, and the
    attribute it writes between the two timestamps, for a job [j] at [l]
    whose stats [s] is populated and whose clock readings are [t1], [t2]. *)
Definition evaluated (l : ref) (j : Job) (s : JobStats) (t1 t2 : datetime)
  : Job * res ref * list event :=
  let st := Some (mkJobStats (submitted_at s) (Some t1) (Some t2)) in
  match call (func j) (args j) with
  | Return v =>
      (mkJob (id j) (func j) (args j) st v (error j), Ok l, [Set_result l v])
  | Raise e =>
      if isinstance_Exception e
      then (mkJob (id j) (func j) (args j) st (result j)
                  (Some (JobFailedError l e)),
            Ok l, [Set_error l (JobFailedError l e)])
      else (mkJob (id j) (func j) (args j) st (result j) (error j), Err e, [])
  end.

(** The writes to [job.stats.started_at] and [job.stats.finished_at]. *)
Definition is_stats_write (l : ref) (ev : event) : bool :=
  match ev with
  | Set_started_at l' _ | Set_finished_at l' _ => bool_decide (l' = l)
  | _ => false
  end.

(** The contract of [evaluate_job] on a job without stats as the
    specification words it: the call fails with the precondition violation. *)
Definition fails_with_precondition_violation (l : ref) (w : world) : Prop :=
  exists w', evaluate_job l w = Some (Err (PyExc AssertionError not_submitted), w').

(** The return of [evaluate_job] as the specification words it: the call
    returns the job. *)
Definition returns_the_job (l : ref) (w : world) : Prop :=
  exists w', evaluate_job l w = Some (Ok l, w').


(** A process holding one job that was never submitted: [Job(1, add, 2, 3)]. *)
Definition unsubmitted_world : world :=
  with_heap (insert 1%positive (Job__init__ 1 add [VInt 2; VInt 3]))
            (WorkerPool.__init__ steady_clock).

(** A process holding one job with stats whose callable ends the
    interpreter ([SystemExit]). *)
Definition leaving_world : world :=
  with_heap (insert 1%positive
               (mkJob 1 leave [] (Some (mkJobStats 0 None None)) VNone None))
            (WorkerPool.__init__ steady_clock).

(** A process whose wall clock steps back, holding a job with stats. *)
Definition stepping_back_world : world :=
  with_heap (insert 1%positive
               (mkJob 1 add [VInt 2; VInt 3] (Some (mkJobStats 0 None None)) VNone None))
            (WorkerPool.__init__ stepping_back_clock).

(** A process holding a job without stats, a pending future and an
    [AsyncJobHandle] built around them. *)
Definition bare_async_world : world :=
  with_handles (insert 1%positive (mkHandle 1%positive None (Some 1%positive)))
    (with_futures (insert 1%positive FPending) unsubmitted_world).

(** The same with a job whose stats is populated and whose result is 5. *)
Definition done_job : Job :=
  mkJob 1 add [VInt 2; VInt 3]
        (Some (mkJobStats 0 (Some 1000) (Some 2000))) (VInt 5) None.

(** The process of [bare_async_world] holding [done_job] as a second job. *)
Definition async_world : world :=
  with_heap (insert 2%positive done_job) bare_async_world.

(** The calls to [submit] with a callable that has a [__name__], among the
    actions of a run. *)
Definition is_submit (a : action) : bool :=
  match a with
  | Submit f _ => bool_decide (is_Some (__name__ f))
  | _ => false
  end.

(** The ids of the handles returned along a run. *)
Definition ids (hs : list (ref * Z)) : list Z := snd <$> hs.

(** A run of one pool: three submissions, a completion and a loop
    iteration in between. *)
Definition sample_run : option (world * list (ref * Z)) :=
  exec [Submit add [VInt 2; VInt 3]; Submit boom []; Complete 1%positive None;
        Submit add [VInt 1; VInt 1]; LoopRun]
       (WorkerPool.__init__ steady_clock).

(** [l] is a job whose stats is populated. *)
Definition job_ok (hp : gmap positive Job) (l : ref) : Prop :=
  exists j s, hp !! l = Some j /\ stats j = Some s.

(** [l] is a job whose callable has a [__name__]. *)
Definition job_named (hp : gmap positive Job) (l : ref) : Prop :=
  exists j n, hp !! l = Some j /\ __name__ (func j) = Some n.

(** A scheduled closure that cannot leave its handle with a job lacking
    stats, and whose log line can be built. *)
Definition closure_ok (hp : gmap positive Job) (hs : gmap positive handle)
                      (c : closure) : Prop :=
  match c with
  | _set_result h j => is_Some (hs !! h) /\ job_ok hp j /\ job_named hp j
  | _set_err h e => is_Some (hs !! h) /\ isinstance_JobFailedError e = false
  end.

(** What every state of a process that only uses the pool satisfies:
    each handle is an [AsyncJobHandle] with a future of the loop and a
    job with stats; each task carries a job with stats, no error and a
    named callable, and the handle to call back; each scheduled closure
    delivers such a job, or an error that is not a [JobFailedError]. *)
Record inv_on (hp : gmap positive Job) (hs : gmap positive handle)
              (fs : gmap positive future) (ts : gmap positive task)
              (rq : list closure) : Prop := {
  inv_handles : forall h hd, hs !! h = Some hd ->
    job_ok hp (_job hd) /\ exists f, _future hd = Some f /\ is_Some (fs !! f);
  inv_tasks : forall t tk, ts !! t = Some tk ->
    is_Some (stats (t_arg tk)) /\ error (t_arg tk) = None /\
    is_Some (__name__ (func (t_arg tk))) /\
    is_Some (hs !! t_handle tk);
  inv_ready : Forall (closure_ok hp hs) rq
}.

Definition inv (w : world) : Prop :=
  inv_on (heap w) (handles w) (futures w) (tasks w) (ready w).

(** Handle objects are never discarded. *)
Definition handles_kept (w w' : world) : Prop :=
  forall h, is_Some (handles w !! h) -> is_Some (handles w' !! h).

(** The job [_submit] hands to the pool. *)
Definition submitted_job (f : callable) (a : list value) (w : world) : Job :=
  mkJob (pool_job_id w + 1) f a
        (Some (mkJobStats (clock w (ticks w)) None None)) VNone None.

(** The state [submit] leaves when the pool is running and the callable is
    named [n]. *)
Definition submitted (f : callable) (n : string) (a : list value) (w : world) : world :=
  let l := fresh (dom (heap w)) in
  let h := fresh (dom (handles w)) in
  let fut := fresh (dom (futures w)) in
  let t := fresh (dom (tasks w)) in
  mkWorld (<[l := submitted_job f a w]> (heap w))
          (<[h := mkHandle l (Some t) (Some fut)]> (handles w))
          (<[fut := FPending]> (futures w))
          (<[t := mkTask (submitted_job f a w) h TPending]> (tasks w))
          (ready w) (pool_job_id w + 1) (pool_running w) (pool_result_thread w)
          (clock w) (S (ticks w))
          (trace w ++ [Log_debug (LogSubmitting (pool_job_id w + 1) n)]).

(** The state [submit] leaves when it raises: the job, the future and the
    handle exist, no task does. [tr] is what the call added to the trace. *)
Definition refused (f : callable) (a : list value) (tr : list event) (w : world) : world :=
  let l := fresh (dom (heap w)) in
  let h := fresh (dom (handles w)) in
  let fut := fresh (dom (futures w)) in
  mkWorld (<[l := submitted_job f a w]> (heap w))
          (<[h := mkHandle l None (Some fut)]> (handles w))
          (<[fut := FPending]> (futures w))
          (tasks w)
          (ready w) (pool_job_id w + 1) (pool_running w) (pool_result_thread w)
          (clock w) (S (ticks w)) (trace w ++ tr).

(** The state after the result thread delivered the job [j'] sent back by
    the worker: the unpickled copy, the scheduled closure, the settled
    task. *)
Definition delivered (t : ref) (tk : task) (w : world) (j' : Job) : world :=
  let l := fresh (dom (heap w)) in
  mkWorld (<[l := j']> (heap w))
          (handles w) (futures w)
          (<[t := mkTask (t_arg tk) (t_handle tk) (TSuccess l)]> (tasks w))
          (ready w ++ [_set_result (t_handle tk) l])
          (pool_job_id w) (pool_running w) (pool_result_thread w) (clock w)
          (S (S (ticks w))) (trace w).

(** The state after a failure of the pool mechanism was delivered. *)
Definition faulted (t : ref) (tk : task) (w : world) (e : exn) : world :=
  mkWorld (heap w) (handles w) (futures w)
          (<[t := mkTask (t_arg tk) (t_handle tk) (TFailure e)]> (tasks w))
          (ready w ++ [_set_err (t_handle tk) e])
          (pool_job_id w) (pool_running w) (pool_result_thread w)
          (clock w) (ticks w) (trace w).

(** The state after the result thread ended on the job a worker sent back
    for task [t]. *)
Definition crashed (t : ref) (tk : task) (w : world) : world :=
  mkWorld (heap w) (handles w) (futures w)
          (<[t := mkTask (t_arg tk) (t_handle tk) TLost]> (tasks w))
          (ready w)
          (pool_job_id w) (pool_running w) false (clock w)
          (S (S (ticks w))) (trace w ++ [Thread_exception unpickling_error]).

(** The state after a worker ran task [t] and nothing came of it: the
    worker process ended, or the result thread had. *)
Definition lost (t : ref) (tk : task) (w : world) : world :=
  lose t tk (with_ticks (S (S (ticks w))) w).

(** The state after a worker took a task whose pickled job has stats [s]
    and no error, on a pool whose result thread runs: [evaluate_job]
    returned a job that was delivered, or one that ended the result thread,
    or the worker process ended. *)
Definition pool_completed (t : ref) (tk : task) (s : JobStats) (w : world) : world :=
  match evaluated worker_ref (t_arg tk) s
          (clock w (ticks w)) (clock w (S (ticks w))) with
  | (j', Ok _, _) => if unpickles j' then delivered t tk w j' else crashed t tk w
  | (_, Err _, _) => lost t tk w
  end.

(** Two copies of one logical job: what pickling, [evaluate_job] and the
    callbacks never change. *)
Definition same_job (j j' : Job) : Prop :=
  id j = id j' /\ func j = func j' /\ args j = args j' /\
  (submitted_at <$> stats j) = (submitted_at <$> stats j').

(** The job a handle currently refers to. *)
Definition job_of (hp : gmap positive Job) (hs : gmap positive handle)
                  (h : ref) : option Job :=
  match hs !! h with
  | Some hd => hp !! _job hd
  | None => None
  end.

(** Every job that can still reach a handle (the pickled argument of its
    task, the job a scheduled success closure delivers) is a copy of the
    job the handle refers to. *)
Record ident_on (hp : gmap positive Job) (hs : gmap positive handle)
                (ts : gmap positive task) (rq : list closure) : Prop := {
  ident_tasks : forall t tk j, ts !! t = Some tk ->
    job_of hp hs (t_handle tk) = Some j -> same_job (t_arg tk) j;
  ident_ready : forall h jl jo j, _set_result h jl ∈ rq ->
    hp !! jl = Some jo -> job_of hp hs h = Some j -> same_job jo j
}.

Definition ident (w : world) : Prop :=
  ident_on (heap w) (handles w) (tasks w) (ready w).

(** Every handle of [w] refers in [w'] to a copy of the job it referred to. *)
Definition jobs_kept (w w' : world) : Prop :=
  forall h j, job_of (heap w) (handles w) h = Some j ->
    exists j', job_of (heap w') (handles w') h = Some j' /\ same_job j j'.

(** The state after the loop ran the closure [_set_result] of handle [h]
    with the job [jo] at [jl], named [n] and with stats [s]: the handle
    refers to the job, the future holds its result. *)
Definition resolved (h jl : ref) (hd : handle) (f : ref) (jo : Job) (n : string)
                    (s : JobStats) (rest : list closure) (w : world) : world :=
  mkWorld (heap w)
          (<[h := mkHandle jl (_pool_task hd) (Some f)]> (handles w))
          (<[f := FResult (result jo)]> (futures w))
          (tasks w) rest
          (pool_job_id w) (pool_running w) (pool_result_thread w)
          (clock w) (ticks w)
          (trace w ++ [Log_debug (LogFinished (id jo) n (elapsed s))]).

(** The state after the loop ran a closure [_set_err] whose error is not a
    [JobFailedError]: the assertion of [_on_error] went to the loop's
    exception handler and nothing else changed. *)
Definition dismissed (rest : list closure) (w : world) : world :=
  emit (Loop_exception (PyExc AssertionError "unexpected error type"))
       (with_ready (fun _ => rest) w).

(** The handle a scheduled closure belongs to. *)
Definition closure_handle (c : closure) : ref :=
  match c with
  | _set_result h _ | _set_err h _ => h
  end.

(** How handles, futures, tasks and scheduled closures are wired along a
    run: no two handles share a future and no two tasks a handle; each
    scheduled closure belongs to a settled task, and no two of them to the
    same handle; the future of a handle is pending as long as its task is
    not settled or its closure is still scheduled. *)
Record wired_on (hs : gmap positive handle) (fs : gmap positive future)
                (ts : gmap positive task) (rq : list closure) : Prop := {
  wired_futures : forall h h' hd hd' f,
    hs !! h = Some hd -> hs !! h' = Some hd' ->
    _future hd = Some f -> _future hd' = Some f -> h = h';
  wired_tasks : forall t t' tk tk',
    ts !! t = Some tk -> ts !! t' = Some tk' ->
    t_handle tk = t_handle tk' -> t = t';
  wired_once : NoDup (closure_handle <$> rq);
  wired_ready : forall c, c ∈ rq ->
    exists t tk, ts !! t = Some tk /\ t_handle tk = closure_handle c /\
                 WorkerPool.settled tk = true;
  wired_waiting : forall t tk hd f,
    ts !! t = Some tk -> WorkerPool.settled tk = false ->
    hs !! t_handle tk = Some hd -> _future hd = Some f ->
    fs !! f = Some FPending;
  wired_scheduled : forall c hd f,
    c ∈ rq -> hs !! closure_handle c = Some hd -> _future hd = Some f ->
    fs !! f = Some FPending
}.

Definition wired (w : world) : Prop :=
  wired_on (handles w) (futures w) (tasks w) (ready w).

(** The task of handle [h] was taken by a worker and lost: nothing is
    scheduled for the handle and its future is pending. *)
Definition stranded (w : world) (h : ref) : Prop :=
  exists hd t tk f,
    handles w !! h = Some hd /\ _pool_task hd = Some t /\
    tasks w !! t = Some tk /\ t_handle tk = h /\ t_state tk = TLost /\
    _future hd = Some f /\ futures w !! f = Some FPending /\
    h ∉ (closure_handle <$> ready w).

(** A new pool right after [submit(add, 2, 3)]. *)
Definition submitted_world : world :=
  submitted add "add" [VInt 2; VInt 3] (WorkerPool.__init__ steady_clock).

(** The same process once its pool has been terminated, the task pending. *)
Definition terminated_world : world :=
  with_pool_running false submitted_world.

(** The same process once the task is completed and the loop has run. *)
Definition settled_world : world :=
  match exec [Complete 1%positive None; LoopRun] submitted_world with
  | Some (w, _) => w
  | None => submitted_world
  end.

(* ===================================================================== *)
(** ** The service container of [ext/di.py]                               *)
(* ===================================================================== *)

(** Services are objects with mutable attributes (the cached instance of a
    [singleton], the current factory of a [resource]); they live in a store
    and refer to each other by reference. A host callable (a factory, an
    initializer) is a function from its keyword arguments to what the call
    produces; each call is recorded. A call of a service can call other
    services to any depth: the depth is bounded by a fuel argument, and
    running out of fuel gives no result at all. The [name] attribute and
    the string forms of a service are not part of the embedding. *)
Module DI.

Set Warnings "-register-all,-notation-overridden".

(** Python values met by the container. *)
Inductive dval : Type :=
| DNone
| DInt (n : Z)
| DStr (s : string)
| DObj (attrs : list (string * dval))
| DSvc (s : ref)
| DGen (g : ref)
| DCtx (c : ref)
| DPartial (fname : string) (kw : list (string * dval)).

(** A [dict] with string keys, in insertion order. *)
Definition kwargs : Type := list (string * dval).

Inductive dexn : Type :=
| RuntimeError (msg : string)
| StopIteration
| AttributeError (attr : string)
| TypeError (msg : string)
| UserError (msg : string).

Inductive outcome : Type :=
| Return (v : dval)
| Raise (e : dexn).

(** What remains of a generator's body: the values it will yield, or the
    exception that ends it; after the last of them the body runs to its
    end. *)
Inductive seg : Type :=
| SYield (v : dval)
| SRaise (e : dexn).

(** A generator object: suspended with the rest of its body to run, or
    finished. *)
Inductive gstate : Type :=
| GSuspended (rest : list seg)
| GFinished.

(** A context manager: what [__enter__] does and what [__exit__] does with
    the exception it is told about. *)
Record ctx_spec : Type := mkCtx {
  on_enter : outcome;
  on_exit : option dexn -> outcome
}.

(** What a call of a host callable produces. *)
Inductive produced : Type :=
| PVal (v : dval)
| PGen (body : list seg)
| PCtx (cm : ctx_spec)
| PRaise (e : dexn).

Record callable : Type := mkCallable {
  __name__ : string;
  body : kwargs -> produced;
  is_settings_class : bool
}.

(** What [self._factory] can hold: a host callable or a service. *)
Inductive fact : Type :=
| FHost (f : callable)
| FSvc (s : ref).

(** The classes of service, with their attributes. *)
Inductive service : Type :=
| value (_value : dval)
| transient (_factory : fact) (_deps : kwargs)
| singleton (_factory : fact) (_deps : kwargs) (_instance : dval)
| config (_factory : fact)
| _subconfig (_parent : ref) (_attr : string)
| partial (_func : callable) (_deps : kwargs)
| resource (_initializer : callable) (_deps : kwargs) (_factory : option ref).

(** The closures [resource.setup] returns. *)
Inductive disposer : Type :=
| dispose_generator (self : ref) (initializer : ref)
| dispose_context (self : ref) (initializer : ref).

(** A [setup_resources] object. *)
Record manager : Type := mkManager {
  _resources : list ref;
  _disposers : list disposer
}.

Inductive devent : Type :=
| Called (fname : string) (kw : kwargs)
| Resumed (g : ref)
| Entered (c : ref)
| Exited (c : ref) (exc : option dexn).

Record store : Type := mkStore {
  services : gmap positive service;
  gens : gmap positive gstate;
  ctxs : gmap positive ctx_spec;
  managers : gmap positive manager;
  log : list devent
}.

Definition with_services (f : gmap positive service -> gmap positive service)
                         (w : store) : store :=
  mkStore (f (services w)) (gens w) (ctxs w) (managers w) (log w).
Definition with_gens (f : gmap positive gstate -> gmap positive gstate)
                     (w : store) : store :=
  mkStore (services w) (f (gens w)) (ctxs w) (managers w) (log w).
Definition with_ctxs (f : gmap positive ctx_spec -> gmap positive ctx_spec)
                     (w : store) : store :=
  mkStore (services w) (gens w) (f (ctxs w)) (managers w) (log w).
Definition with_managers (f : gmap positive manager -> gmap positive manager)
                         (w : store) : store :=
  mkStore (services w) (gens w) (ctxs w) (f (managers w)) (log w).
Definition record (e : devent) (w : store) : store :=
  mkStore (services w) (gens w) (ctxs w) (managers w) (log w ++ [e]).

(** *** Statements *)

Inductive res (A : Type) : Type :=
| Ok (a : A)
| Err (e : dexn).
Arguments Ok {A} a.
Arguments Err {A} e.

(** [None]: a dangling reference, or no fuel left. *)
Definition M (A : Type) : Type := store -> option (res A * store).

Definition ret {A} (a : A) : M A := fun w => Some (Ok a, w).
Definition raise {A} (e : dexn) : M A := fun w => Some (Err e, w).
Definition bind {A B} (m : M A) (k : A -> M B) : M B := fun w =>
  match m w with
  | Some (Ok a, w') => k a w'
  | Some (Err e, w') => Some (Err e, w')
  | None => None
  end.
Definition no_result {A} : M A := fun _ => None.

Local Notation "x <- m ;; k" := (bind m (fun x => k))
  (at level 20, m at level 99, k at level 200, only parsing).
Local Notation "m ;; k" := (bind m (fun _ => k))
  (at level 100, k at level 200, only parsing, right associativity).

Definition modify (f : store -> store) : M unit := fun w => Some (Ok tt, f w).

Definition get_service (s : ref) : M service := fun w =>
  match services w !! s with
  | Some x => Some (Ok x, w)
  | None => None
  end.

Definition put_service (s : ref) (x : service) : M unit :=
  modify (with_services (insert s x)).

Definition new_service (x : service) : M ref := fun w =>
  let s := fresh (dom (services w)) in
  Some (Ok s, with_services (insert s x) w).

(** *** Dictionaries *)

(** [d[k] = v]: an existing key keeps its place. *)
Fixpoint dict_set (k : string) (v : dval) (d : kwargs) : kwargs :=
  match d with
  | [] => [(k, v)]
  | (k', v') :: rest =>
      if decide (k = k') then (k, v) :: rest else (k', v') :: dict_set k v rest
  end.

Fixpoint dict_get (k : string) (d : kwargs) : option dval :=
  match d with
  | [] => None
  | (k', v') :: rest => if decide (k = k') then Some v' else dict_get k rest
  end.

(** The dict display [{**d1, **d2}]. *)
Definition dict_merge (d1 d2 : kwargs) : kwargs :=
  fold_left (fun d kv => dict_set (fst kv) (snd kv) d) (d1 ++ d2) [].

(** *** Host callables, generators, context managers *)

(** A call of a host callable with the keyword arguments [kw]. *)
Definition call_host (f : callable) (kw : kwargs) : M dval :=
  modify (record (Called (__name__ f) kw)) ;;
  match body f kw with
  | PVal v => ret v
  | PGen b => fun w =>
      let g := fresh (dom (gens w)) in
      Some (Ok (DGen g), with_gens (insert g (GSuspended b)) w)
  | PCtx cm => fun w =>
      let c := fresh (dom (ctxs w)) in
      Some (Ok (DCtx c), with_ctxs (insert c cm) w)
  | PRaise e => raise e
  end.

(** [g.__next__()]: a suspended generator runs up to its next yield, to
    the exception that ends it, or to its end ([StopIteration]); a finished
    one raises [StopIteration] without running anything. *)
Definition gen_next (g : ref) : M dval := fun w =>
  match gens w !! g with
  | Some GFinished => Some (Err StopIteration, w)
  | Some (GSuspended []) =>
      Some (Err StopIteration,
            record (Resumed g) (with_gens (insert g GFinished) w))
  | Some (GSuspended (SYield v :: rest)) =>
      Some (Ok v, record (Resumed g) (with_gens (insert g (GSuspended rest)) w))
  | Some (GSuspended (SRaise e :: rest)) =>
      Some (Err e, record (Resumed g) (with_gens (insert g GFinished) w))
  | None => None
  end.

(** [c.__enter__()]. *)
Definition ctx_enter (c : ref) : M dval := fun w =>
  match ctxs w !! c with
  | Some cm =>
      match on_enter cm with
      | Return v => Some (Ok v, record (Entered c) w)
      | Raise e => Some (Err e, record (Entered c) w)
      end
  | None => None
  end.

(** [c.__exit__(exc_type, exc_value, traceback)]. *)
Definition ctx_exit (c : ref) (exc : option dexn) : M dval := fun w =>
  match ctxs w !! c with
  | Some cm =>
      match on_exit cm exc with
      | Return v => Some (Ok v, record (Exited c exc) w)
      | Raise e => Some (Err e, record (Exited c exc) w)
      end
  | None => None
  end.

(** [getattr(v, attr)] on a settings object; the attributes of other
    values are outside the embedding. *)
Definition getattr (v : dval) (attr : string) : M dval :=
  match v with
  | DObj attrs =>
      match dict_get attr attrs with
      | Some x => ret x
      | None => raise (AttributeError attr)
      end
  | _ => no_result
  end.

(** *** Service *)

(** The loop of [Service._resolve_deps] over the merged dict, where [call]
    is [dep()] for a dependency that is a service. *)
Fixpoint resolve_items (call : ref -> M dval) (items : kwargs) : M kwargs :=
  match items with
  | [] => ret []
  | (k, DSvc s) :: rest =>
      v <- call s ;;
      rest' <- resolve_items call rest ;;
      ret ((k, v) :: rest')
  | (k, dep) :: rest =>
      rest' <- resolve_items call rest ;;
      ret ((k, dep) :: rest')
  end.

(** [Service._resolve_deps(deps)]. *)
Definition _resolve_deps (call : ref -> M dval) (self_deps deps : kwargs) : M kwargs :=
  resolve_items call (dict_merge deps self_deps).

(** [Service.__call__] with keyword arguments [deps], resolved on the class
    of the service: the [factory] method of each class. *)
Fixpoint call_service (fuel : nat) (self : ref) (deps : kwargs) : M dval :=
  match fuel with
  | O => no_result
  | S n =>
      let call_fact (f : fact) (kw : kwargs) : M dval :=
        match f with
        | FHost h => call_host h kw
        | FSvc s => call_service n s kw
        end in
      let _call_factory (f : fact) (self_deps : kwargs) (deps : kwargs) : M dval :=
        kw <- _resolve_deps (fun s => call_service n s []) self_deps deps ;;
        call_fact f kw in
      svc <- get_service self ;;
      match svc with
      | value v => ret v
      | transient f d => _call_factory f d deps
      | singleton f d inst =>
          match inst with
          | DNone =>
              v <- _call_factory f d deps ;;
              put_service self (singleton f d v) ;;
              ret v
          | _ => ret inst
          end
      | config f => call_fact f []
      | _subconfig parent attr =>
          v <- call_service n parent [] ;;
          getattr v attr
      | partial f d =>
          kw <- _resolve_deps (fun s => call_service n s []) d deps ;;
          ret (DPartial (__name__ f) kw)
      | resource init d fct =>
          match fct with
          | None => raise (RuntimeError "resource not initialized")
          | Some v =>
              kw <- _resolve_deps (fun s => call_service n s []) d [] ;;
              call_service n v kw
          end
      end
  end.

(** [config(conf)]: a settings class is wrapped in a [singleton]. *)
Definition config__init__ (conf : fact) : M ref :=
  match conf with
  | FHost h =>
      if is_settings_class h
      then s <- new_service (singleton (FHost h) [] DNone) ;;
           new_service (config (FSvc s))
      else new_service (config conf)
  | FSvc _ => new_service (config conf)
  end.

(** [config.__getattr__] and [_subconfig.__getattr__], which Python calls
    for an attribute name the object does not have. *)
Definition __getattr__ (self : ref) (attr : string) : M ref :=
  new_service (_subconfig self attr).

(** *** resource and setup_resources *)

(** [self._factory = f] on a resource. *)
Definition set_factory (self : ref) (f : option ref) : M unit :=
  svc <- get_service self ;;
  match svc with
  | resource init d _ => put_service self (resource init d f)
  | _ => no_result
  end.

(** [resource.setup()]. *)
Definition setup (fuel : nat) (self : ref) : M disposer :=
  svc <- get_service self ;;
  match svc with
  | resource init d _ =>
      kw <- _resolve_deps (fun s => call_service fuel s []) d [] ;;
      initializer <- call_host init kw ;;
      match initializer with
      | DGen g =>
          instance <- gen_next g ;;
          v <- new_service (value instance) ;;
          set_factory self (Some v) ;;
          ret (dispose_generator self g)
      | DCtx c =>
          instance <- ctx_enter c ;;
          v <- new_service (value instance) ;;
          set_factory self (Some v) ;;
          ret (dispose_context self c)
      | _ => raise (RuntimeError "invalid initializer")
      end
  | _ => no_result
  end.

(** A call [dispose(exc_type, exc_value, traceback)] of a disposer. *)
Definition dispose (d : disposer) (exc : option dexn) : M unit :=
  match d with
  | dispose_generator self g =>
      set_factory self None ;;
      fun w =>
        match gen_next g w with
        | Some (Ok _, w') => Some (Ok tt, w')
        | Some (Err StopIteration, w') => Some (Ok tt, w')
        | Some (Err e, w') => Some (Err e, w')
        | None => None
        end
  | dispose_context self c =>
      set_factory self None ;;
      _ <- ctx_exit c exc ;;
      ret tt
  end.

Definition get_manager (m : ref) : M manager := fun w =>
  match managers w !! m with
  | Some x => Some (Ok x, w)
  | None => None
  end.

(** The constructor of [setup_resources], given its resources. *)
Definition setup_resources (rs : list ref) : M ref := fun w =>
  let m := fresh (dom (managers w)) in
  Some (Ok m, with_managers (insert m (mkManager rs [])) w).

(** The loop of [setup_resources.__enter__]. *)
Fixpoint enter_loop (fuel : nat) (m : ref) (rs : list ref) : M unit :=
  match rs with
  | [] => ret tt
  | r :: rest =>
      d <- setup fuel r ;;
      x <- get_manager m ;;
      modify (with_managers (insert m (mkManager (_resources x) (_disposers x ++ [d])))) ;;
      enter_loop fuel m rest
  end.

Definition __enter__ (fuel : nat) (m : ref) : M unit :=
  x <- get_manager m ;;
  enter_loop fuel m (_resources x).

(** The loop of [setup_resources.__exit__]. *)
Fixpoint exit_loop (ds : list disposer) (exc : option dexn) : M unit :=
  match ds with
  | [] => ret tt
  | d :: rest => dispose d exc ;; exit_loop rest exc
  end.

(** [setup_resources.__exit__]: its value is [None], so the exception the
    block raised is never suppressed. *)
Definition __exit__ (m : ref) (exc : option dexn) : M dval :=
  x <- get_manager m ;;
  exit_loop (rev (_disposers x)) exc ;;
  ret DNone.

(** *** Vocabulary of the properties *)

(** A dependency that is not a service passes through [_resolve_deps]. *)
Definition is_plain (v : dval) : bool :=
  match v with
  | DSvc _ => false
  | _ => true
  end.

Definition plain (d : kwargs) : Prop :=
  Forall (fun kv => is_plain (snd kv) = true) d.

(** The keys of a dict are distinct. *)
Definition is_dict (d : kwargs) : Prop := NoDup (fst <$> d).

(** The resource a disposer belongs to. *)
Definition disposer_self (d : disposer) : ref :=
  match d with
  | dispose_generator self _ | dispose_context self _ => self
  end.

(** [r] is a resource that is set up, whose current instance is [v]. *)
Definition initialized (w : store) (r : ref) (v : dval) : Prop :=
  exists init d f,
    services w !! r = Some (resource init d (Some f)) /\
    services w !! f = Some (value v).

(** [r] is a resource that is not set up. *)
Definition uninitialized (w : store) (r : ref) : Prop :=
  exists init d, services w !! r = Some (resource init d None).

(** What a call of a service or a host callable leaves untouched: the
    [setup_resources] objects and every service but the singletons (whose
    instance a call may fill in). *)
Definition frame (w w' : store) : Prop :=
  managers w' = managers w /\
  forall s x, services w !! s = Some x ->
    match x with
    | singleton _ _ _ => True
    | _ => services w' !! s = Some x
    end.

(** The calls of host callable [fname] in a log. *)
Definition calls_of (fname : string) (l : list devent) : nat :=
  length (List.filter (fun e => match e with
                                | Called n _ => bool_decide (n = fname)
                                | _ => false
                                end) l).

(** The generator or context manager a disposer closes over. *)
Definition initializer_of (d : disposer) : ref + ref :=
  match d with
  | dispose_generator _ g => inl g
  | dispose_context _ c => inr c
  end.

(** What a disposer called with [exc] adds to the log. *)
Definition disposal_event (exc : option dexn) (d : disposer) : devent :=
  match d with
  | dispose_generator _ g => Resumed g
  | dispose_context _ c => Exited c exc
  end.

(** The rest of a generator body does not raise when it is resumed. *)
Definition quiet (rest : list seg) : Prop :=
  match rest with
  | SRaise _ :: _ => False
  | _ => True
  end.

(** What the initializer of a resource produces is a generator that yields
    [v] and is quiet afterwards, or a context manager whose [__enter__]
    returns [v] and whose [__exit__] returns when given [exc]. *)
Definition sound_initializer (exc : option dexn) (p : produced) (v : dval) : Prop :=
  match p with
  | PGen (SYield v' :: rest) => v' = v /\ quiet rest
  | PCtx cm => on_enter cm = Return v /\ exists x, on_exit cm exc = Return x
  | _ => False
  end.

(** [r] is a resource over plain dependencies with a sound initializer. *)
Definition ready (exc : option dexn) (w : store) (r : ref) (v : dval) : Prop :=
  exists init d f,
    services w !! r = Some (resource init d f) /\ plain d /\
    sound_initializer exc (body init (dict_merge [] d)) v.

(** The store holds the resource [r], set up or not. *)
Definition is_resource (w : store) (r : ref) : Prop :=
  exists init d f, services w !! r = Some (resource init d f).

(** A disposer that returns when called with [exc]: its resource exists and
    its generator is suspended before a quiet rest, or its context manager
    returns from [__exit__]. *)
Definition armed (exc : option dexn) (w : store) (d : disposer) : Prop :=
  is_resource w (disposer_self d) /\
  match d with
  | dispose_generator _ g =>
      exists rest, gens w !! g = Some (GSuspended rest) /\ quiet rest
  | dispose_context _ c =>
      exists cm x, ctxs w !! c = Some cm /\ on_exit cm exc = Return x
  end.

(** The expression [s.a1.a2...an] on a [config] or a [_subconfig], for
    attribute names the objects do not have themselves. *)
Fixpoint getattrs (s : ref) (path : list string) : M ref :=
  match path with
  | [] => ret s
  | a :: rest => s' <- __getattr__ s a ;; getattrs s' rest
  end.

(** The expression [v.a1.a2...an] on a value. *)
Fixpoint attr_path (v : dval) (path : list string) : M dval :=
  match path with
  | [] => ret v
  | a :: rest => x <- getattr v a ;; attr_path x rest
  end.

(** [s] is the [_subconfig] reached from [root] by the attributes [rpath],
    the last one first. *)
Fixpoint is_path (w : store) (root : ref) (rpath : list string) (s : ref) : Prop :=
  match rpath with
  | [] => s = root
  | a :: rest =>
      exists parent,
        services w !! s = Some (_subconfig parent a) /\ is_path w root rest parent
  end.

(** *** Sample services *)

(** A factory that returns an object whose attributes are its keyword
    arguments, one that returns [None], a generator initializer, a context
    manager initializer, an initializer that raises, a settings class. *)
Definition connect : callable :=
  mkCallable "connect" (fun kw => PVal (DObj kw)) false.
Definition nothing : callable :=
  mkCallable "nothing" (fun _ => PVal DNone) false.
Definition open_db : callable :=
  mkCallable "open_db" (fun _ => PGen [SYield (DStr "db")]) false.
Definition open_lock : callable :=
  mkCallable "open_lock"
    (fun _ => PCtx (mkCtx (Return (DStr "lock")) (fun _ => Return DNone))) false.
Definition broken : callable :=
  mkCallable "broken" (fun _ => PRaise (UserError "down")) false.
Definition Settings : callable :=
  mkCallable "Settings"
    (fun _ => PVal (DObj [("db", DObj [("url", DStr "sqlite")])])) true.

Definition sample_store : store :=
  mkStore
    (list_to_map
       [(1%positive, transient (FHost connect) [("host", DStr "a")]);
        (2%positive, singleton (FHost connect) [] DNone);
        (3%positive, singleton (FHost nothing) [] DNone);
        (4%positive, resource open_db [] None);
        (5%positive, resource open_lock [] None);
        (6%positive, resource broken [] None)])
    ∅ ∅ ∅ [].

Definition sample_deps : kwargs := [("host", DStr "b"); ("port", DInt 5432)].

(** The sample store with one more service, whose dependency [db] is the
    service 1. *)
Definition wired_store : store :=
  with_services
    (insert 7%positive
       (transient (FHost connect) [("name", DStr "app"); ("db", DSvc 1%positive)]))
    sample_store.

End DI.

(* ===================================================================== *)
(** ** functools: debounce                                                *)
(* ===================================================================== *)

(** The decorated function of [debounce(wait)] starts a [threading.Timer]
    at every call and cancels the one it started before. A timer is
    embedded by what the [threading] module documents of it: its thread
    sleeps [wait] seconds, then calls the function unless the timer was
    cancelled; [cancel()] on a timer that has run does nothing. With a
    [wait] that is not positive the thread does not sleep: it calls the
    function as soon as it is started, before anything can cancel it. Time
    is counted in whole units of an arbitrary resolution; the function
    wrapped is embedded by the arguments it is called with. *)
Module Debounce.

(** The positional and the keyword arguments of a call. *)
Definition call_args : Type := (list value * list (string * value))%type.

(** A started [threading.Timer]: [finished] is its event of that name, set
    by [cancel()] and by the thread once the function has returned. *)
Record timer : Type := mkTimer {
  deadline : Z;
  timer_args : call_args;
  finished : bool
}.

(** The clock, the timers created so far, the variable [t] of the closure
    (an index into the timers) and the calls of the wrapped function. *)
Record state : Type := mkState {
  now : Z;
  timers : list timer;
  t : option nat;
  calls : list call_args
}.

Definition init : state := mkState 0 [] None [].

Definition set_finished (tm : timer) : timer :=
  mkTimer (deadline tm) (timer_args tm) true.

(** [t.cancel()]. *)
Definition cancel (i : nat) (st : state) : state :=
  mkState (now st) (alter set_finished i (timers st)) (t st) (calls st).

(** Whether the thread of a timer of interval [wait] sleeps at all. *)
Definition sleeps (wait : Z) : bool := 0 <? wait.

(** A call of [debounced] with the arguments [a]: the timer named by [t]
    is cancelled, a new one is started and takes its place. A timer that
    does not sleep has called the function, and is finished, when the call
    returns. *)
Definition debounced (wait : Z) (a : call_args) (st : state) : state :=
  let st1 := match t st with
             | Some i => cancel i st
             | None => st
             end in
  mkState (now st1)
          (timers st1 ++ [mkTimer (now st1 + wait) a (negb (sleeps wait))])
          (Some (length (timers st1)))
          (if sleeps wait then calls st1 else calls st1 ++ [a]).

(** The timers whose sleep is over at [now'] and that were not cancelled
    call the function; the result is the timers afterwards and the calls
    made. Timers are visited in creation order; [debounced] leaves at most
    one of them unfinished, so the order among several is never observed. *)
Fixpoint run_due (now' : Z) (ts : list timer) : list timer * list call_args :=
  match ts with
  | [] => ([], [])
  | tm :: rest =>
      let (rest', cs) := run_due now' rest in
      if negb (finished tm) && (deadline tm <=? now')
      then (set_finished tm :: rest', timer_args tm :: cs)
      else (tm :: rest', cs)
  end.

(** [dt] units of time pass. *)
Definition tick (dt : N) (st : state) : state :=
  let now' := now st + Z.of_N dt in
  let (ts, cs) := run_due now' (timers st) in
  mkState now' ts (t st) (calls st ++ cs).

Inductive event : Type :=
| Call (a : call_args)
| Tick (dt : N).

Definition step (wait : Z) (st : state) (e : event) : state :=
  match e with
  | Call a => debounced wait a st
  | Tick dt => tick dt st
  end.

Definition exec (wait : Z) (evs : list event) (st : state) : state :=
  fold_left (step wait) evs st.

(** *** Vocabulary of the properties *)



(** The arguments of the calls of the decorated function in a run. *)
Definition requests (evs : list event) : list call_args :=
  flat_map (fun e => match e with Call a => [a] | Tick _ => [] end) evs.

(** The timers that may still call the function. *)
Definition live (st : state) : list timer :=
  List.filter (fun tm => negb (finished tm)) (timers st).

(** Every timer but the one [t] names is finished. *)
Definition single (st : state) : Prop :=
  forall i tm, timers st !! i = Some tm -> finished tm = false -> t st = Some i.

(** The timer [t] names, when it is not finished, wakes at [d]. *)
Definition pending_until (st : state) (d : Z) : Prop :=
  forall i tm, timers st !! i = Some tm -> finished tm = false -> deadline tm = d.

(** The timers were created by the calls [reqs], in that order; all are
    finished but possibly the last, which [t] then names; and the wrapped
    function was called for some of the finished ones, in their order. *)
Definition ordered (st : state) (reqs : list call_args) : Prop :=
  timer_args <$> timers st = reqs /\
  exists ts l,
    timers st = ts ++ l /\
    Forall (fun tm => finished tm = true) ts /\
    sublist (calls st) (timer_args <$> ts) /\
    match l with
    | [] => True
    | [tm] => finished tm = false /\ t st = Some (length ts)
    | _ => False
    end.

(** *** Sample arguments *)

Definition args_of (n : Z) : call_args := ([VInt n], []).



End Debounce.

(* ===================================================================== *)
(** ** logging: setup_logging                                             *)
(* ===================================================================== *)

(** [setup_logging] builds a configuration dict and hands it to
    [logging.config.dictConfig]; it is embedded by the dict it hands over. *)
Module Logging.

Set Warnings "-register-all".

(** The values a configuration is made of; [COther] stands for a value of
    any other type a caller may put in [loggers]. *)
Inductive conf : Type :=
| CStr (s : string)
| CInt (n : Z)
| CBool (b : bool)
| CList (l : list conf)
| CDict (d : list (string * conf))
| COther.

(** [d[k] = v]: an existing key keeps its place. *)
Fixpoint set (k : string) (v : conf) (d : list (string * conf)) : list (string * conf) :=
  match d with
  | [] => [(k, v)]
  | (k', v') :: rest =>
      if decide (k = k') then (k, v) :: rest else (k', v') :: set k v rest
  end.

Fixpoint get (k : string) (d : list (string * conf)) : option conf :=
  match d with
  | [] => None
  | (k', v') :: rest => if decide (k = k') then Some v' else get k rest
  end.

(** The name of the root logger, the empty string. *)
Definition root : string := EmptyString.

(** The [loggers] section before the argument [loggers] is read. *)
Definition root_only : list (string * conf) :=
  [(root, CDict [("handlers", CList [CStr "file"]);
                 ("level", CStr "DEBUG");
                 ("propagate", CBool true)])].

(** The body of the loop over [loggers.items()]: the [match] statement has
    no case for a value that is neither a string nor a dict. *)
Definition add_logger (ls : list (string * conf)) (item : string * conf)
    : list (string * conf) :=
  match snd item with
  | CStr level => set (fst item) (CDict [("level", CStr level)]) ls
  | CDict d => set (fst item) (CDict d) ls
  | _ => ls
  end.

(** The dict [setup_logging(log_file, loggers)] passes to [dictConfig]. *)
Definition setup_logging (log_file : string)
                         (loggers : option (list (string * conf))) : list (string * conf) :=
  [("version", CInt 1);
   ("disable_existing_loggers", CBool false);
   ("formatters",
    CDict [("default",
            CDict [("format", CStr "{asctime} {levelname:<7} {name:<30} {message}");
                   ("style", CStr "{")])]);
   ("handlers",
    CDict [("file",
            CDict [("class", CStr "logging.FileHandler");
                   ("formatter", CStr "default");
                   ("filename", CStr log_file);
                   ("mode", CStr "a")])]);
   ("loggers",
    CDict (match loggers with
           | Some l => fold_left add_logger l root_only
           | None => root_only
           end))].

(** *** Vocabulary of the properties *)

(** The configuration of the logger [name] in a configuration dict. *)
Definition logger_of (config : list (string * conf)) (name : string) : option conf :=
  match get "loggers" config with
  | Some (CDict ls) => get name ls
  | _ => None
  end.

(** The handlers a logger configuration attaches. *)
Definition handlers_of (c : conf) : option conf :=
  match c with
  | CDict d => get "handlers" d
  | _ => None
  end.

(** *** Sample argument *)

Definition sample_loggers : list (string * conf) :=
  [("db", CStr "INFO"); (root, CStr "WARNING"); ("web", COther)].

End Logging.

(* ===================================================================== *)
(** * Properties                                                          *)
(* ===================================================================== *)

(** ** Stores *)

Lemma fresh_lookup_None {A} (m : gmap positive A) : m !! fresh (dom m) = None.
Proof. apply not_elem_of_dom, is_fresh. Qed.

(** ** Symbolic execution *)

(** Unfolding of the statement monad, for symbolic execution. *)
Ltac munfold :=
  unfold setattr_started_at, setattr_finished_at, setattr_result,
    setattr_error, setattr_stats, put_job, put_handle, get_job, get_handle,
    new_job, apply, log_debug, now, assert_, call_soon_threadsafe,
    modify, bind, ret, raise, emit, with_heap, with_handles, with_futures,
    with_tasks, with_ready, with_pool_job_id, with_pool_running,
    with_pool_result_thread, with_ticks in *.

(** Symbolic execution: reduce, and read back the stores through the
    hypotheses on them. *)
Ltac mrun :=
  repeat first
    [ progress cbn
    | rewrite lookup_insert_eq
    | rewrite fresh_lookup_None
    | match goal with
      | H : _ !! _ = _ |- _ => rewrite H
      | H : stats _ = _ |- _ => rewrite H
      | H : __name__ _ = _ |- _ => rewrite H
      | H : _future _ = _ |- _ => rewrite H
      | H : _pool_task _ = _ |- _ => rewrite H
      end ].

Ltac hunfold :=
  unfold run_closure, bound_on_success, bound_on_error,
    AsyncJobHandle._on_success, AsyncJobHandle._on_error,
    AsyncJobHandle.__init__, AsyncJobHandle.__await__,
    JobHandle._on_success, JobHandle._on_error, JobHandle.stats,
    JobHandle.__str__, name, JobHandle.job_id, JobHandle.join, JobHandle.__init__,
    AsyncJobHandle.future_of, AsyncResult.get,
    Future.set_result, Future.set_exception, Future.get, Future.create,
    Future.__await__, getattr_inner_error in *.

(** Case analysis on every test a statement makes. *)
Ltac crunch :=
  repeat
    (match goal with
     | H : context [match ?x with _ => _ end] |- _ =>
         destruct x eqn:?; simplify_eq; cbn in *
     end);
  simplify_eq.

(** ** JobStats.elapsed *)

Lemma total_seconds_nonneg (d : timedelta) : (0 <= total_seconds d)%Q <-> 0 <= d.
Proof. unfold total_seconds, Qle. simpl. lia. Qed.

(** C5 (counterexample): a [JobStats] whose [finished_at] is two seconds
    earlier than its [started_at] has a negative [elapsed], so the property
    as the specification words it does not hold for every [JobStats]. *)
Lemma C5_elapsed_counterexample :
  ~ elapsed_as_specified (mkJobStats 0 (Some 5000000) (Some 3000000)).
Proof.
  intros [_ H]. destruct (H 5000000 3000000 eq_refl eq_refl) as [_ Hle].
  vm_compute in Hle. apply Hle. reflexivity.
Qed.

(** C5 (amended): [elapsed] is 0 whenever [started_at] or [finished_at] is
    unset; otherwise it is [finished_at - started_at] in seconds, and it is
    non-negative exactly when [started_at <= finished_at]. *)
Theorem C5_elapsed (s : JobStats) :
  (started_at s = None \/ finished_at s = None -> elapsed s = 0%Q) /\
  (forall a b, started_at s = Some a -> finished_at s = Some b ->
     elapsed s = total_seconds (b - a) /\
     ((0 <= elapsed s)%Q <-> a <= b)).
Proof.
  split.
  - unfold elapsed. intros [H | H]; rewrite H; [done |].
    by destruct (started_at s).
  - intros a b Ha Hb. unfold elapsed. rewrite Ha, Hb. split; [done |].
    rewrite total_seconds_nonneg. lia.
Qed.

Lemma C5_elapsed_witness :
  elapsed (mkJobStats 0 None (Some 7)) = 0%Q /\
  elapsed (mkJobStats 0 (Some 1000000) (Some 3500000)) = total_seconds 2500000 /\
  Qle 0%Q (elapsed (mkJobStats 0 (Some 1000000) (Some 3500000))).
Proof.
  pose proof (C5_elapsed (mkJobStats 0 None (Some 7))) as [H1 _].
  pose proof (C5_elapsed (mkJobStats 0 (Some 1000000) (Some 3500000))) as [_ H2].
  destruct (H2 1000000 3500000 eq_refl eq_refl) as [H3 H4].
  split; [apply H1; left; reflexivity | split; [exact H3 | apply H4; lia]].
Defined.

(** ** evaluate_job *)

Lemma evaluate_job_populated (w : world) (l : ref) (j : Job) (s : JobStats) :
  heap w !! l = Some j -> stats j = Some s ->
  let t1 := clock w (ticks w) in
  let t2 := clock w (S (ticks w)) in
  evaluate_job l w =
    Some (snd (fst (evaluated l j s t1 t2)),
          mkWorld (<[l := fst (fst (evaluated l j s t1 t2))]> (heap w))
                  (handles w) (futures w) (tasks w) (ready w)
                  (pool_job_id w) (pool_running w) (pool_result_thread w)
                  (clock w) (S (S (ticks w)))
                  (trace w ++ Set_started_at l t1
                     :: snd (evaluated l j s t1 t2)
                     ++ [Set_finished_at l t2])).
Proof.
  intros Hl Hs. unfold evaluate_job, try_finally, try_except_Exception, evaluated.
  munfold. mrun.
  destruct (call (func j) (args j)) as [v | e]; mrun.
  - rewrite !insert_insert_eq, <- !app_assoc. reflexivity.
  - destruct (isinstance_Exception e); mrun;
      rewrite !insert_insert_eq, <- ?app_assoc; reflexivity.
Qed.

Lemma evaluate_job_unset (w : world) (l : ref) (j : Job) :
  heap w !! l = Some j -> stats j = None ->
  let e := JobFailedError l (PyExc AssertionError not_submitted) in
  evaluate_job l w =
    Some (Ok l,
          emit (Set_error l e)
            (with_heap (insert l (mkJob (id j) (func j) (args j) None
                                        (result j) (Some e))) w)).
Proof.
  intros Hl Hs. unfold evaluate_job, try_finally, try_except_Exception.
  munfold. mrun. reflexivity.
Qed.

(** Nothing orders the two clock readings: when the wall clock steps back
    between them, the job [evaluate_job] returns has a negative [elapsed]. *)
Example evaluate_job_clock_stepping_back :
  exists w' j' s',
    evaluate_job 1%positive stepping_back_world = Some (Ok 1%positive, w') /\
    heap w' !! 1%positive = Some j' /\ stats j' = Some s' /\
    started_at s' = Some 5000 /\ finished_at s' = Some 4000 /\
    Qlt (elapsed s') 0%Q.
Proof.
  eexists _, _, _. split; [vm_compute; reflexivity |].
  split; [reflexivity |]. split; [reflexivity |]. repeat split.
Qed.

(** C3 (counterexample): on [Job(1, add, 2, 3)], whose stats is unset,
    [evaluate_job] does not fail with the precondition violation. *)
Lemma C3_unset_stats_counterexample :
  heap unsubmitted_world !! 1%positive = Some (Job__init__ 1 add [VInt 2; VInt 3]) /\
  ~ fails_with_precondition_violation 1%positive unsubmitted_world.
Proof.
  split; [reflexivity |].
  intros [w' H].
  rewrite (evaluate_job_unset unsubmitted_world 1%positive
             (Job__init__ 1 add [VInt 2; VInt 3]) eq_refl eq_refl) in H.
  discriminate.
Qed.

(** C3 (amended): for every job whose stats is unset, [evaluate_job] does
    not raise. It returns the job, with the precondition violation (the
    failed assertion) wrapped in a [JobFailedError] and stored in
    [job.error]; the callable is not invoked ([result] is unchanged), stats
    stays unset, the clock is not read and no other object changes. *)
Theorem C3_unset_stats_absorbed (w : world) (l : ref) (j : Job) :
  heap w !! l = Some j -> stats j = None ->
  exists w',
    evaluate_job l w = Some (Ok l, w') /\
    heap w' !! l =
      Some (mkJob (id j) (func j) (args j) None (result j)
              (Some (JobFailedError l (PyExc AssertionError not_submitted)))) /\
    ticks w' = ticks w /\
    trace w' = trace w ++
      [Set_error l (JobFailedError l (PyExc AssertionError not_submitted))] /\
    (forall l', l' <> l -> heap w' !! l' = heap w !! l').
Proof.
  intros Hl Hs. eexists. split; [by apply evaluate_job_unset |].
  cbn. rewrite lookup_insert_eq. repeat split; [].
  intros l' Hne. by rewrite lookup_insert_ne.
Qed.

Lemma C3_unset_stats_absorbed_witness :
  exists w',
    evaluate_job 1%positive unsubmitted_world = Some (Ok 1%positive, w') /\
    (result <$> heap w' !! 1%positive) = Some VNone /\
    (error <$> heap w' !! 1%positive) =
      Some (Some (JobFailedError 1%positive (PyExc AssertionError not_submitted))).
Proof.
  destruct (C3_unset_stats_absorbed unsubmitted_world 1%positive
              (Job__init__ 1 add [VInt 2; VInt 3]) eq_refl eq_refl)
    as (w' & Hrun & Hj & _).
  exists w'. split; [exact Hrun |]. rewrite Hj. split; reflexivity.
Defined.

(** C8 (counterexample): the job's stats is populated, and its callable
    raises [SystemExit], which is no [Exception]: [evaluate_job] does not
    return the job, the exception leaves it. *)
Lemma C8_evaluate_job_counterexample :
  (stats <$> heap leaving_world !! 1%positive) = Some (Some (mkJobStats 0 None None)) /\
  ~ returns_the_job 1%positive leaving_world.
Proof.
  split; [reflexivity |].
  intros [w' H].
  rewrite (evaluate_job_populated leaving_world 1%positive _ _ eq_refl eq_refl) in H.
  discriminate.
Qed.

(** C8 (amended): for every job whose stats is populated, [evaluate_job]
    leaves [id], [func], [args] and [stats.submitted_at] unchanged, writes
    [stats.started_at] and [stats.finished_at] each exactly once, the
    former first, records [finished_at] on every path, and changes no other
    job. When the callable returns or raises an [Exception] the call
    returns the job, with the value in [result] or the wrapped error in
    [error]; an exception that is not an [Exception] leaves
    [evaluate_job] after [finished_at] is recorded. *)
Theorem C8_evaluate_job_frame (w : world) (l : ref) (j : Job) (s : JobStats) :
  heap w !! l = Some j -> stats j = Some s ->
  exists r w' j' evs,
    evaluate_job l w = Some (r, w') /\
    heap w' !! l = Some j' /\
    id j' = id j /\ func j' = func j /\ args j' = args j /\
    stats j' = Some (mkJobStats (submitted_at s)
                       (Some (clock w (ticks w)))
                       (Some (clock w (S (ticks w))))) /\
    trace w' = trace w ++ evs /\
    List.filter (is_stats_write l) evs =
      [Set_started_at l (clock w (ticks w));
       Set_finished_at l (clock w (S (ticks w)))] /\
    (forall l', l' <> l -> heap w' !! l' = heap w !! l') /\
    match call (func j) (args j) with
    | Return v => r = Ok l /\ result j' = v /\ error j' = error j
    | Raise e =>
        if isinstance_Exception e
        then r = Ok l /\ result j' = result j /\
             error j' = Some (JobFailedError l e)
        else r = Err e /\ result j' = result j /\ error j' = error j
    end.
Proof.
  intros Hl Hs.
  pose proof (evaluate_job_populated w l j s Hl Hs) as Hrun. cbn zeta in Hrun.
  set (t1 := clock w (ticks w)) in *. set (t2 := clock w (S (ticks w))) in *.
  exists (snd (fst (evaluated l j s t1 t2))). eexists.
  exists (fst (fst (evaluated l j s t1 t2))).
  exists (Set_started_at l t1 :: snd (evaluated l j s t1 t2)
            ++ [Set_finished_at l t2]).
  split; [exact Hrun |]. cbn [heap trace].
  rewrite lookup_insert_eq. unfold evaluated.
  destruct (call (func j) (args j)) as [v | e];
    [| destruct (isinstance_Exception e)]; cbn;
    rewrite ?bool_decide_eq_true_2 by done;
    (repeat split; try done);
    intros l' Hne; by rewrite lookup_insert_ne.
Qed.

Lemma C8_evaluate_job_frame_witness :
  exists w' j',
    evaluate_job 1%positive leaving_world = Some (Err (PyExc SystemExit "1"), w') /\
    heap w' !! 1%positive = Some j' /\
    stats j' = Some (mkJobStats 0 (Some 0) (Some 1000)).
Proof.
  destruct (C8_evaluate_job_frame leaving_world 1%positive _ _ eq_refl eq_refl)
    as (r & w' & j' & evs & Hrun & Hj & _ & _ & _ & Hst & _ & _ & _ & Hr).
  cbn in Hr. destruct Hr as (-> & _).
  exists w', j'. split; [exact Hrun |]. split; [exact Hj | exact Hst].
Defined.

(** ** Handles *)


(** C6: a handle built by [JobHandle(job)] or [AsyncJobHandle(job, future)]
    around a job that never went through [submit] (its stats is unset, and
    the constructor leaves [_pool_task] unset) raises the precondition
    assertion from [stats] and from [join]; neither returns a value. *)
Theorem C6_unsubmitted_handle_fails (w : world) (job : ref) (j : Job) :
  heap w !! job = Some j -> stats j = None ->
  forall h w1,
    JobHandle.__init__ job w = Some (Ok h, w1) \/
    (exists fut, AsyncJobHandle.__init__ job fut w = Some (Ok h, w1)) ->
    JobHandle.stats h w1 = Some (Err (PyExc AssertionError not_submitted), w1) /\
    JobHandle.join h w1 = Some (Done (Err (PyExc AssertionError not_submitted))).
Proof.
  intros Hj Hs h w1 [Hinit | [fut Hinit]];
    hunfold; injection Hinit as <- <-; munfold; mrun; done.
Qed.

Lemma C6_unsubmitted_handle_fails_witness :
  exists h w1,
    JobHandle.__init__ 1%positive unsubmitted_world = Some (Ok h, w1) /\
    JobHandle.stats h w1 = Some (Err (PyExc AssertionError not_submitted), w1) /\
    JobHandle.join h w1 = Some (Done (Err (PyExc AssertionError not_submitted))).
Proof.
  eexists _, _. split; [reflexivity |].
  apply (C6_unsubmitted_handle_fails unsubmitted_world 1%positive
           (Job__init__ 1 add [VInt 2; VInt 3]) eq_refl eq_refl).
  left. reflexivity.
Defined.

(** C9: [JobHandle._on_error] raises the assertion error of its type check
    for every error that is not a [JobFailedError], leaving the handle as
    it was, also when it runs inside the closure an [AsyncJobHandle]
    schedules; for a [JobFailedError] it makes the job carried by the
    error the handle's job (before the log line is built). *)
Theorem C9_on_error_contract (w : world) (self : ref) (hd : handle) :
  handles w !! self = Some hd ->
  (forall e, isinstance_JobFailedError e = false ->
     JobHandle._on_error self e w =
       Some (Err (PyExc AssertionError "unexpected error type"), w) /\
     run_closure (_set_err self e) w =
       Some (Err (PyExc AssertionError "unexpected error type"), w)) /\
  (forall ejob inner ej, heap w !! ejob = Some ej ->
     exists r w',
       JobHandle._on_error self (JobFailedError ejob inner) w = Some (r, w') /\
       handles w' !! self =
         Some (mkHandle ejob (_pool_task hd) (_future hd)) /\
       (forall h', h' <> self -> handles w' !! h' = handles w !! h')).
Proof.
  intros Hh. split.
  - intros [c m | l inner] He; [| discriminate]. split; reflexivity.
  - intros ejob inner ej Hej. hunfold. munfold. mrun.
    destruct (__name__ (func ej)); mrun; destruct (stats ej); mrun; eexists _, _;
      (split; [reflexivity |]); cbn; rewrite lookup_insert_eq;
      (split; [done |]); intros h' Hne; by rewrite lookup_insert_ne.
Qed.

Lemma C9_on_error_contract_witness :
  JobHandle._on_error 1%positive (PyExc MaybeEncodingError "unpicklable") async_world =
    Some (Err (PyExc AssertionError "unexpected error type"), async_world) /\
  exists r w',
    JobHandle._on_error 1%positive
      (JobFailedError 2%positive (PyExc ValueError "boom")) async_world = Some (r, w') /\
    handles w' !! 1%positive = Some (mkHandle 2%positive None (Some 1%positive)).
Proof.
  destruct (C9_on_error_contract async_world 1%positive
              (mkHandle 1%positive None (Some 1%positive)) eq_refl) as [H1 H2].
  split.
  - apply (H1 (PyExc MaybeEncodingError "unpicklable") eq_refl).
  - destruct (H2 2%positive (PyExc ValueError "boom") done_job eq_refl)
      as (r & w' & Hrun & Hh & _).
    exists r, w'. split; [exact Hrun | exact Hh].
Defined.
(** ** WorkerPool.submit and the pool's completion *)

Section Submit.

Variables (f : callable) (a : list value) (w : world).

Lemma submit_running (n : string) :
  pool_running w = true -> __name__ f = Some n ->
  WorkerPool.submit f a w = Some (Ok (fresh (dom (handles w))), submitted f n a w).
Proof.
  intros Hrun Hn.
  unfold WorkerPool.submit, WorkerPool._submit, WorkerPool.apply_async,
    WorkerPool._next_job_id, submitted, submitted_job, Job__init__.
  hunfold. munfold. mrun. rewrite Hrun. mrun.
  by rewrite !insert_insert_eq.
Qed.

Lemma submit_unnamed :
  __name__ f = None ->
  WorkerPool.submit f a w =
    Some (Err (PyExc AttributeError "object has no attribute '__name__'"),
          refused f a [] w).
Proof.
  intros Hn.
  unfold WorkerPool.submit, WorkerPool._submit, WorkerPool.apply_async,
    WorkerPool._next_job_id, refused, submitted_job, Job__init__.
  hunfold. munfold. mrun.
  by rewrite !insert_insert_eq, app_nil_r.
Qed.

Lemma submit_terminated (n : string) :
  pool_running w = false -> __name__ f = Some n ->
  WorkerPool.submit f a w =
    Some (Err (PyExc ValueError "Pool not running"),
          refused f a [Log_debug (LogSubmitting (pool_job_id w + 1) n)] w).
Proof.
  intros Hrun Hn.
  unfold WorkerPool.submit, WorkerPool._submit, WorkerPool.apply_async,
    WorkerPool._next_job_id, refused, submitted_job, Job__init__.
  hunfold. munfold. mrun. rewrite Hrun. mrun.
  by rewrite !insert_insert_eq.
Qed.

Lemma submit_job_id (n : string) :
  JobHandle.job_id (fresh (dom (handles w))) (submitted f n a w) =
    Some (Ok (pool_job_id w + 1), submitted f n a w).
Proof. unfold submitted. hunfold. munfold. mrun. reflexivity. Qed.

(** What a [Submit] action does, by cases. *)
Lemma step_submit :
  (exists n,
     __name__ f = Some n /\ pool_running w = true /\
     step (Submit f a) w =
       Some (submitted f n a w, [(fresh (dom (handles w)), pool_job_id w + 1)])) \/
  (exists tr,
     (__name__ f = None \/ pool_running w = false) /\
     step (Submit f a) w = Some (refused f a tr w, [])).
Proof.
  cbn [step]. destruct (__name__ f) as [n |] eqn:Hn.
  - destruct (pool_running w) eqn:Hr.
    + left. exists n. rewrite (submit_running n), submit_job_id by done. done.
    + right. eexists. rewrite (submit_terminated n) by done. split; [by right | done].
  - right. eexists. rewrite submit_unnamed by done. split; [by left | done].
Qed.

End Submit.

Section Complete.

Variables (t : ref) (tk : task) (s : JobStats) (hd : handle) (fut : ref) (w : world).

Hypothesis Htask : tasks w !! t = Some tk.
Hypothesis Hpending : t_state tk = TPending.
Hypothesis Hrunning : pool_running w = true.
Hypothesis Hhandle : handles w !! t_handle tk = Some hd.
Hypothesis Hfuture : _future hd = Some fut.
Hypothesis Hstats : stats (t_arg tk) = Some s.
Hypothesis Herror : error (t_arg tk) = None.

Lemma pool_complete_job :
  pool_result_thread w = true ->
  pool_complete t None w = Some (pool_completed t tk s w).
Proof.
  intros Halive. unfold pool_complete, pool_completed.
  rewrite Htask, Hpending, Hrunning. unfold unpickles at 1. rewrite Herror.
  rewrite (evaluate_job_populated _ worker_ref (t_arg tk) s)
    by (try apply lookup_singleton_eq; done).
  cbn [clock ticks worker_process heap fst snd].
  unfold evaluated, delivered, crashed, lost, lose.
  destruct (call (func (t_arg tk)) (args (t_arg tk))) as [v | e];
    [| destruct (isinstance_Exception e) eqn:He]; cbn [fst snd];
    rewrite ?lookup_insert_eq; cbn [isinstance_Exception]; rewrite ?He;
    try reflexivity;
    unfold result_thread, deliver_success, unpickle, unpickles;
    cbn [error pool_result_thread with_ticks]; rewrite ?Herror, Halive;
    hunfold; munfold; mrun; by rewrite ?Herror, ?Halive, ?Hrunning.
Qed.

Lemma pool_complete_fault (msg : string) :
  pool_result_thread w = true ->
  pool_complete t (Some msg) w =
    Some (faulted t tk w (PyExc MaybeEncodingError msg)).
Proof.
  intros Halive. unfold pool_complete, faulted. rewrite Htask, Hpending, Hrunning.
  unfold result_thread, deliver_error. rewrite Halive. hunfold. munfold. mrun.
  by rewrite ?Halive, ?Hrunning.
Qed.

Lemma pool_complete_unread :
  pool_result_thread w = false ->
  pool_complete t None w = Some (lost t tk w) /\
  forall msg, pool_complete t (Some msg) w = Some (lose t tk w).
Proof.
  intros Hdead. unfold pool_complete, lost.
  rewrite Htask, Hpending, Hrunning. unfold unpickles at 1. rewrite Herror.
  split; [| intros msg; unfold result_thread; by rewrite Hdead].
  rewrite (evaluate_job_populated _ worker_ref (t_arg tk) s)
    by (try apply lookup_singleton_eq; done).
  cbn [clock ticks worker_process heap fst snd].
  unfold evaluated.
  destruct (call (func (t_arg tk)) (args (t_arg tk))) as [v | e];
    [| destruct (isinstance_Exception e) eqn:He]; cbn [fst snd];
    rewrite ?lookup_insert_eq; cbn [isinstance_Exception]; rewrite ?He;
    try reflexivity;
    unfold result_thread; cbn [pool_result_thread with_ticks]; by rewrite Hdead.
Qed.

End Complete.

(** ** What a completion and a loop iteration leave untouched *)

Ltac punfold :=
  unfold pool_complete, result_thread, deliver_success, deliver_error,
    unpickle, lose in *.

Ltac handle_lookup h :=
  cbn;
  try match goal with
  | |- context [<[?k := _]> _ !! h] =>
      destruct (decide (k = h)) as [Heq |];
      [subst h; rewrite lookup_insert_eq
      | rewrite !lookup_insert_ne by done]
  end;
  simplify_eq; eauto.

Lemma pool_complete_frame (t : ref) (fault : option string) (w w' : world) :
  pool_complete t fault w = Some w' ->
  pool_job_id w' = pool_job_id w /\
  pool_running w' = pool_running w /\
  futures w' = futures w /\
  (pool_result_thread w = false -> pool_result_thread w' = false) /\
  (forall l j, heap w !! l = Some j -> heap w' !! l = Some j) /\
  (forall h hd, handles w !! h = Some hd ->
     exists hd', handles w' !! h = Some hd' /\
                 _pool_task hd' = _pool_task hd /\ _future hd' = _future hd).
Proof.
  intros H.
  assert (Hfresh : forall l j, heap w !! l = Some j -> fresh (dom (heap w)) <> l).
  { intros l j Hl <-. by rewrite fresh_lookup_None in Hl. }
  punfold.
  destruct (tasks w !! t) as [tk |]; [| simplify_eq; by eauto 10].
  destruct (t_state tk); [| simplify_eq; by eauto 10 ..].
  destruct (pool_running w) eqn:Hrun; [| simplify_eq; by eauto 10].
  destruct fault as [msg |].
  - hunfold. munfold. crunch;
      (split; [done |]); (split; [done |]); (split; [done |]);
      (split; [done |]); (split; [done |]);
      intros h hd Hh; handle_lookup h.
  - destruct (unpickles (t_arg tk)); [| simplify_eq; cbn; by eauto 10].
    destruct (evaluate_job _ _) as [[[r | e] ww] |]; [| | done].
    + destruct (heap ww !! r) as [j' |]; [| done]. hunfold. munfold.
      crunch;
        (split; [done |]); (split; [done |]); (split; [done |]);
        (split; [done |]);
        (split; [intros l j Hl; cbn; rewrite ?lookup_insert_ne; eauto |]);
        intros h hd Hh; handle_lookup h.
    + destruct (isinstance_Exception e); [| simplify_eq; cbn; by eauto 10].
      hunfold. munfold. crunch;
        (split; [done |]); (split; [done |]); (split; [done |]);
        (split; [done |]); (split; [done |]);
        intros h hd Hh; handle_lookup h.
Qed.

Lemma loop_run_once_frame (w w' : world) :
  loop_run_once w = Some w' ->
  pool_job_id w' = pool_job_id w /\
  pool_running w' = pool_running w /\
  pool_result_thread w' = pool_result_thread w /\
  heap w' = heap w /\ tasks w' = tasks w /\
  (forall h hd, handles w !! h = Some hd ->
     exists hd', handles w' !! h = Some hd' /\
                 _pool_task hd' = _pool_task hd /\ _future hd' = _future hd).
Proof.
  unfold loop_run_once. hunfold. munfold. intros H.
  crunch; repeat (split; [reflexivity |]); intros h hd Hh; handle_lookup h.
Qed.

Lemma exit_frame (w w' : world) (r : res unit) :
  WorkerPool.__exit__ w = Some (r, w') ->
  pool_running w' = false /\
  exists tr,
    w' = mkWorld (heap w) (handles w) (futures w) (tasks w) (ready w)
           (pool_job_id w) false (pool_result_thread w) (clock w) (ticks w)
           (trace w ++ tr).
Proof.
  unfold WorkerPool.__exit__, WorkerPool.terminate. munfold.
  destruct (_ && _); intros [= <- <-]; cbn; (split; [done |]).
  - exists []. by rewrite app_nil_r.
  - by eexists.
Qed.

(** ** Job ids *)

Lemma step_ids (a : action) (w w' : world) (hs : list (ref * Z)) :
  step a w = Some (w', hs) ->
  pool_job_id w <= pool_job_id w' /\
  (pool_running w' = true -> pool_running w = true) /\
  (ids hs = [] \/ ids hs = [pool_job_id w + 1] /\ pool_job_id w' = pool_job_id w + 1) /\
  (pool_running w' = true -> length hs = if is_submit a then 1%nat else 0%nat).
Proof.
  destruct a as [f a | t fault | |]; cbn [step is_submit].
  - destruct (step_submit f a w) as [(n & Hn & Hr & Hs) | (tr & Hcase & Hs)];
      cbn [step] in Hs; rewrite Hs; intros [= <- <-]; cbn.
    + rewrite Hn, bool_decide_eq_true_2 by done. repeat split; auto; lia.
    + split; [lia |]. split; [done |]. split; [by left |].
      intros Hr. destruct Hcase as [Hn | Hr']; [| congruence].
      rewrite Hn, bool_decide_eq_false_2; [done |]. by intros [? ?].
  - destruct (pool_complete t fault w) as [w1 |] eqn:Hc; [| done].
    intros [= <- <-]. apply pool_complete_frame in Hc as (Hn & Hr & _).
    rewrite Hn, Hr. repeat split; auto; lia.
  - destruct (loop_run_once w) as [w1 |] eqn:Hc; [| done].
    intros [= <- <-]. apply loop_run_once_frame in Hc as (Hn & Hr & _).
    rewrite Hn, Hr. repeat split; auto; lia.
  - destruct (WorkerPool.__exit__ w) as [[r w1] |] eqn:Hc; [| done].
    intros [= <- <-]. apply exit_frame in Hc as (Hr & tr & ->). cbn.
    repeat split; auto; try lia; done.
Qed.

Lemma exec_ids (acts : list action) :
  forall w w' hs,
    exec acts w = Some (w', hs) ->
    pool_job_id w <= pool_job_id w' /\
    (pool_running w' = true -> pool_running w = true) /\
    StronglySorted Z.lt (ids hs) /\
    Forall (fun n => pool_job_id w < n <= pool_job_id w') (ids hs) /\
    (pool_running w' = true -> length hs = length (List.filter is_submit acts)).
Proof.
  induction acts as [| a acts IH]; intros w w' hs; cbn.
  - intros [= <- <-]. repeat split; try constructor; auto; lia.
  - destruct (step a w) as [[w1 hs1] |] eqn:Hstep; [| done].
    destruct (exec acts w1) as [[w2 hs2] |] eqn:Hexec; [| done].
    intros [= <- <-].
    apply step_ids in Hstep as (Hle1 & Hrun1 & Hids & Hlen1).
    apply IH in Hexec as (Hle2 & Hrun2 & Hsorted & Hall & Hlen2).
    unfold ids in *. rewrite fmap_app, length_app.
    split; [lia |]. split; [auto |].
    assert (Hall' : Forall (fun n => pool_job_id w < n <= pool_job_id w2) (hs2.*2)).
    { eapply Forall_impl; [exact Hall |]. cbn. intros n Hn. lia. }
    assert (Hlen : pool_running w2 = true ->
                   (length hs1 + length hs2)%nat =
                   length (List.filter is_submit (a :: acts))).
    { intros Hr. rewrite (Hlen1 (Hrun2 Hr)), (Hlen2 Hr). cbn.
      by destruct (is_submit a). }
    destruct Hids as [-> | [-> Heq]]; cbn [app].
    + done.
    + repeat split; [| | done].
      * constructor; [done |].
        eapply Forall_impl; [exact Hall |]. cbn. intros n Hn. lia.
      * constructor; [lia | done].
Qed.

Lemma StronglySorted_lt_NoDup (l : list Z) : StronglySorted Z.lt l -> NoDup l.
Proof.
  induction 1 as [| n l Hs IH Hall]; constructor; [| done].
  intros Hin. rewrite Forall_forall in Hall. specialize (Hall n Hin). lia.
Qed.

(** C4: along any run of one pool (calls to [submit] interleaved in any
    way with task completions, loop iterations and the pool's exit), the
    job ids of the handles returned by [submit] are strictly increasing in
    submission order, hence pairwise distinct; while the pool is running,
    every call to [submit] with a callable that has a [__name__] returns a
    handle, and no other call does. *)
Theorem C4_job_ids_strictly_increasing
    (acts : list action) (w w' : world) (hs : list (ref * Z)) :
  exec acts w = Some (w', hs) ->
  StronglySorted Z.lt (ids hs) /\
  NoDup (ids hs) /\
  (pool_running w' = true -> length hs = length (List.filter is_submit acts)).
Proof.
  intros Hexec. apply exec_ids in Hexec as (_ & _ & Hsorted & _ & Hlen).
  split; [done |]. split; [by apply StronglySorted_lt_NoDup | done].
Qed.

Lemma C4_job_ids_strictly_increasing_witness :
  exists w',
    sample_run = Some (w', [(1%positive, 1); (2%positive, 2); (3%positive, 3)]) /\
    StronglySorted Z.lt [1; 2; 3] /\ NoDup [1; 2; 3].
Proof.
  assert (H : exists w', sample_run =
                Some (w', [(1%positive, 1); (2%positive, 2); (3%positive, 3)])).
  { eexists. vm_compute. reflexivity. }
  destruct H as [w' H]. exists w'. split; [exact H |].
  destruct (C4_job_ids_strictly_increasing _ _ _ _ H) as (Hs & Hn & _).
  split; [exact Hs | exact Hn].
Defined.

(** ** Handles returned by [submit] keep a job with stats *)

Section Invariant.

Variables (hp : gmap positive Job) (hs : gmap positive handle)
          (fs : gmap positive future) (ts : gmap positive task)
          (rq : list closure).

Lemma job_ok_alloc (l l' : ref) (j : Job) :
  hp !! l = None -> job_ok hp l' -> job_ok (<[l := j]> hp) l'.
Proof.
  intros Hfresh (j' & s & Hl & Hs). exists j', s. split; [| done].
  rewrite lookup_insert_ne; [done |]. congruence.
Qed.

Lemma job_named_alloc (l l' : ref) (j : Job) :
  hp !! l = None -> job_named hp l' -> job_named (<[l := j]> hp) l'.
Proof.
  intros Hfresh (j' & n & Hl & Hn). exists j', n. split; [| done].
  rewrite lookup_insert_ne; [done |]. congruence.
Qed.

Lemma job_ok_new (l : ref) (j : Job) :
  is_Some (stats j) -> job_ok (<[l := j]> hp) l.
Proof. intros [s Hs]. exists j, s. by rewrite lookup_insert_eq. Qed.

Lemma job_named_new (l : ref) (j : Job) :
  is_Some (__name__ (func j)) -> job_named (<[l := j]> hp) l.
Proof. intros [n Hn]. exists j, n. by rewrite lookup_insert_eq. Qed.

Lemma closure_ok_alloc (l : ref) (j : Job) (c : closure) :
  hp !! l = None -> closure_ok hp hs c -> closure_ok (<[l := j]> hp) hs c.
Proof.
  intros Hfresh. destruct c as [h jl | h e]; cbn; [| done].
  intros (Hh & Hj & Hn). split; [done |].
  split; [by apply job_ok_alloc | by apply job_named_alloc].
Qed.

Lemma closure_ok_handle (h : ref) (hd : handle) (c : closure) :
  closure_ok hp hs c -> closure_ok hp (<[h := hd]> hs) c.
Proof.
  destruct c as [h' jl | h' e]; cbn; intros [Hh Hj]; (split; [| done]);
    rewrite lookup_insert_is_Some; destruct (decide (h = h')); auto.
Qed.

Lemma inv_alloc (l : ref) (j : Job) :
  hp !! l = None -> inv_on hp hs fs ts rq -> inv_on (<[l := j]> hp) hs fs ts rq.
Proof.
  intros Hfresh [Hh Ht Hr]. split; [| done |].
  - intros h hd Hhd. destruct (Hh h hd Hhd) as [Hj Hf].
    split; [by apply job_ok_alloc | done].
  - eapply Forall_impl; [exact Hr |]. intros c. by apply closure_ok_alloc.
Qed.

Lemma inv_future (f : ref) (v : future) :
  inv_on hp hs fs ts rq -> inv_on hp hs (<[f := v]> fs) ts rq.
Proof.
  intros [Hh Ht Hr]. split; [| done | done].
  intros h hd Hhd. destruct (Hh h hd Hhd) as [Hj (f' & Hf & Hsome)].
  split; [done |]. exists f'. split; [done |].
  rewrite lookup_insert_is_Some. destruct (decide (f = f')); auto.
Qed.

Lemma inv_handle (h : ref) (hd : handle) (f : ref) :
  job_ok hp (_job hd) -> _future hd = Some f -> is_Some (fs !! f) ->
  inv_on hp hs fs ts rq -> inv_on hp (<[h := hd]> hs) fs ts rq.
Proof.
  intros Hj Hf Hsome [Hh Ht Hr]. split.
  - intros h' hd'. rewrite lookup_insert_Some.
    intros [[<- <-] | [Hne Hold]]; [by eauto | by eapply Hh].
  - intros t tk Htk. destruct (Ht t tk Htk) as (Hs & He & Hn & Hsm).
    split; [done |]. split; [done |]. split; [done |].
    rewrite lookup_insert_is_Some. destruct (decide (h = t_handle tk)); auto.
  - eapply Forall_impl; [exact Hr |]. intros c. apply closure_ok_handle.
Qed.

Lemma inv_task (t : ref) (tk : task) :
  is_Some (stats (t_arg tk)) -> error (t_arg tk) = None ->
  is_Some (__name__ (func (t_arg tk))) -> is_Some (hs !! t_handle tk) ->
  inv_on hp hs fs ts rq -> inv_on hp hs fs (<[t := tk]> ts) rq.
Proof.
  intros Hs He Hn Hsm [Hh Ht Hr]. split; [done | | done].
  intros t' tk'. rewrite lookup_insert_Some.
  intros [[<- <-] | [Hne Hold]]; [done | by eapply Ht].
Qed.

Lemma inv_task_state (t : ref) (tk : task) (st : task_state) :
  ts !! t = Some tk ->
  inv_on hp hs fs ts rq ->
  inv_on hp hs fs (<[t := mkTask (t_arg tk) (t_handle tk) st]> ts) rq.
Proof.
  intros Htk Hinv. destruct (inv_tasks _ _ _ _ _ Hinv t tk Htk) as (? & ? & ? & ?).
  by apply inv_task.
Qed.

Lemma inv_schedule (c : closure) :
  closure_ok hp hs c -> inv_on hp hs fs ts rq -> inv_on hp hs fs ts (rq ++ [c]).
Proof.
  intros Hc [Hh Ht Hr]. split; [done | done |].
  apply Forall_app. split; [done |]. by constructor.
Qed.

End Invariant.

Lemma inv_init (clk : nat -> datetime) : inv (WorkerPool.__init__ clk).
Proof.
  split; cbn.
  - intros h hd. by rewrite lookup_empty.
  - intros t tk. by rewrite lookup_empty.
  - constructor.
Qed.

Lemma handles_kept_insert (w w' : world) (h : ref) (hd : handle) :
  handles w' = <[h := hd]> (handles w) -> handles_kept w w'.
Proof.
  intros Heq h' Hh'. rewrite Heq, lookup_insert_is_Some.
  destruct (decide (h = h')); auto.
Qed.

Lemma handles_kept_same (w w' : world) :
  handles w' = handles w -> handles_kept w w'.
Proof. intros Heq h' Hh'. by rewrite Heq. Qed.

Lemma submitted_inv (f : callable) (a : list value) (w : world) :
  inv w ->
  (forall n, __name__ f = Some n -> inv (submitted f n a w)) /\
  (forall tr, inv (refused f a tr w)).
Proof.
  intros Hinv.
  assert (Hbase : forall pt,
            inv_on (<[fresh (dom (heap w)) := submitted_job f a w]> (heap w))
                    (<[fresh (dom (handles w)) :=
                         mkHandle (fresh (dom (heap w))) pt
                                  (Some (fresh (dom (futures w))))]> (handles w))
                    (<[fresh (dom (futures w)) := FPending]> (futures w))
                    (tasks w) (ready w)).
  { intros pt. eapply inv_handle; cbn.
    - apply job_ok_new. by eexists.
    - reflexivity.
    - rewrite lookup_insert_eq. by eexists.
    - apply inv_future, inv_alloc; [apply fresh_lookup_None | exact Hinv]. }
  split; [| intros tr; apply Hbase].
  intros n Hn. unfold inv, submitted. cbn.
  apply inv_task; cbn; [by eexists | done | by eexists
                       | rewrite lookup_insert_eq; by eexists | apply Hbase].
Qed.

(** What the job a worker sends back is, for a task of a run. *)
Lemma evaluated_job (l : ref) (j : Job) (s : JobStats) (t1 t2 : datetime) :
  stats j = Some s ->
  is_Some (stats (fst (fst (evaluated l j s t1 t2)))) /\
  func (fst (fst (evaluated l j s t1 t2))) = func j /\
  same_job (fst (fst (evaluated l j s t1 t2))) j.
Proof.
  intros Hs. unfold evaluated, same_job.
  destruct (call (func j) (args j)) as [v | e];
    [| destruct (isinstance_Exception e)]; cbn; rewrite Hs; by eauto 10.
Qed.

(** What a completion does to a state of a run, by cases. *)
Lemma pool_complete_cases (t : ref) (fault : option string) (w : world) :
  inv w ->
  exists w',
    pool_complete t fault w = Some w' /\
    (w' = w \/
     exists tk,
       tasks w !! t = Some tk /\ t_state tk = TPending /\
       ((exists msg, pool_result_thread w = true /\
                     w' = faulted t tk w (PyExc MaybeEncodingError msg)) \/
        (exists s, pool_result_thread w = true /\ stats (t_arg tk) = Some s /\
                   w' = pool_completed t tk s w) \/
        w' = lose t tk w \/ w' = lost t tk w)).
Proof.
  intros Hinv.
  destruct (tasks w !! t) as [tk |] eqn:Htk;
    [| exists w; unfold pool_complete; rewrite Htk; auto].
  destruct (t_state tk) eqn:Hst;
    [| exists w; unfold pool_complete; rewrite Htk, Hst; auto ..].
  destruct (pool_running w) eqn:Hrun;
    [| exists w; unfold pool_complete; rewrite Htk, Hst, Hrun; auto].
  destruct (inv_tasks _ _ _ _ _ Hinv t tk Htk) as ([s Hs] & He & _ & [hd Hhd]).
  destruct (inv_handles _ _ _ _ _ Hinv _ hd Hhd) as [_ (fut & Hfut & _)].
  destruct (pool_result_thread w) eqn:Halive.
  - destruct fault as [msg |].
    + eexists. split; [by eapply pool_complete_fault |]. right. exists tk. eauto 10.
    + eexists. split; [by eapply pool_complete_job |]. right. exists tk. eauto 10.
  - destruct (pool_complete_unread t tk s w Htk Hst Hrun Hs He Halive) as [Hn Hf].
    destruct fault as [msg |].
    + eexists. split; [apply Hf |]. right. exists tk. eauto 10.
    + eexists. split; [apply Hn |]. right. exists tk. eauto 10.
Qed.

Lemma pool_completed_cases (t : ref) (tk : task) (s : JobStats) (w : world) :
  stats (t_arg tk) = Some s ->
  (exists j', pool_completed t tk s w = delivered t tk w j' /\
              is_Some (stats j') /\ func j' = func (t_arg tk) /\
              same_job j' (t_arg tk)) \/
  pool_completed t tk s w = crashed t tk w \/
  pool_completed t tk s w = lost t tk w.
Proof.
  intros Hs. unfold pool_completed.
  destruct (evaluated_job worker_ref (t_arg tk) s
              (clock w (ticks w)) (clock w (S (ticks w))) Hs) as (Hst & Hf & Hsame).
  destruct (evaluated _ _ _ _ _) as [[j' [r | e]] evs]; cbn in *; [| auto].
  destruct (unpickles j'); [| auto]. left. by exists j'.
Qed.

Lemma pool_complete_inv (t : ref) (fault : option string) (w : world) :
  inv w ->
  exists w', pool_complete t fault w = Some w' /\ inv w' /\ handles w' = handles w.
Proof.
  intros Hinv.
  destruct (pool_complete_cases t fault w Hinv) as (w' & Hc & Hcases).
  exists w'. split; [exact Hc |].
  destruct Hcases as [-> | (tk & Htk & Hst & Hcases)]; [done |].
  destruct (inv_tasks _ _ _ _ _ Hinv t tk Htk) as ([s0 Hs0] & He & Hn & [hd Hhd]).
  destruct Hcases as [(msg & _ & ->) | [(s & _ & Hs & ->) | [-> | ->]]].
  - split; [| done]. unfold inv, faulted. cbn.
    apply inv_task_state; [done |].
    apply inv_schedule; [| exact Hinv]. cbn. split; [by eexists | done].
  - destruct (pool_completed_cases t tk s w Hs)
      as [(j' & -> & Hst' & Hf' & _) | [-> | ->]]; (split; [| done]).
    + unfold inv, delivered. cbn. apply inv_task_state; [done |].
      apply inv_schedule.
      * cbn. split; [by eexists |].
        split; [by apply job_ok_new | apply job_named_new; by rewrite Hf'].
      * apply inv_alloc; [apply fresh_lookup_None | exact Hinv].
    + unfold inv, crashed. cbn. by apply inv_task_state.
    + unfold inv, lost, lose. cbn. by apply inv_task_state.
  - split; [| done]. unfold inv, lose. cbn. by apply inv_task_state.
  - split; [| done]. unfold inv, lost, lose. cbn. by apply inv_task_state.
Qed.

Lemma loop_run_once_inv (w : world) :
  inv w ->
  exists w', loop_run_once w = Some w' /\ inv w' /\ handles_kept w w'.
Proof.
  intros Hinv. unfold loop_run_once.
  destruct (ready w) as [| c rest] eqn:Hq.
  { exists w. split; [done |]. split; [done | by apply handles_kept_same]. }
  destruct Hinv as [Hh Ht Hr]. rewrite Hq in Hr.
  apply Forall_cons in Hr as [Hc Hrest].
  assert (Hinv : inv_on (heap w) (handles w) (futures w) (tasks w) rest)
    by (by split).
  destruct c as [h jl | h e]; cbn in Hc.
  - destruct Hc as ([hd Hhd] & (jo & s & Hjo & Hs) & (jo' & n & Hjo' & Hn)).
    rewrite Hjo in Hjo'. injection Hjo' as <-.
    destruct (Hh h hd Hhd) as [_ (fut & Hfut & [st Hst])].
    assert (Hinv' : inv_on (heap w)
                      (<[h := mkHandle jl (_pool_task hd) (_future hd)]> (handles w))
                      (futures w) (tasks w) rest).
    { eapply inv_handle; cbn; [by exists jo, s | exact Hfut | by eexists | exact Hinv]. }
    rewrite Hfut in Hinv'.
    hunfold. munfold. mrun.
    destruct st; mrun; eexists; (split; [reflexivity |]); unfold inv; cbn;
      (split; [| by eapply handles_kept_insert]);
      try apply inv_future; exact Hinv'.
  - destruct Hc as [[hd Hhd] He].
    destruct e as [c m | l inner]; [| discriminate].
    hunfold. munfold. mrun. eexists. split; [reflexivity |].
    split; [exact Hinv | by apply handles_kept_same].
Qed.

Lemma step_inv (a : action) (w : world) :
  inv w ->
  exists w' hs,
    step a w = Some (w', hs) /\ inv w' /\ handles_kept w w' /\
    (forall h n, (h, n) ∈ hs -> is_Some (handles w' !! h)).
Proof.
  intros Hinv. destruct a as [f a | t fault | |].
  - destruct (submitted_inv f a w Hinv) as [Hs Hr].
    destruct (step_submit f a w) as [(n & Hn & _ & ->) | (tr & _ & ->)].
    + eexists _, _. split; [reflexivity |]. split; [by apply Hs |].
      split; [by eapply handles_kept_insert |].
      intros h n' [= -> ->]%list_elem_of_singleton.
      cbn. rewrite lookup_insert_eq. by eexists.
    + eexists _, _. split; [reflexivity |]. split; [apply Hr |].
      split; [by eapply handles_kept_insert |].
      intros h n Hin. by apply not_elem_of_nil in Hin.
  - cbn [step].
    destruct (pool_complete_inv t fault w Hinv) as (w' & -> & Hinv' & Hsame).
    eexists _, _. split; [reflexivity |]. split; [exact Hinv' |].
    split; [by apply handles_kept_same |].
    intros h n Hin. by apply not_elem_of_nil in Hin.
  - cbn [step].
    destruct (loop_run_once_inv w Hinv) as (w' & -> & Hinv' & Hkept).
    eexists _, _. split; [reflexivity |]. split; [exact Hinv' |].
    split; [exact Hkept |].
    intros h n Hin. by apply not_elem_of_nil in Hin.
  - cbn [step].
    destruct (WorkerPool.__exit__ w) as [[r w1] |] eqn:Hc;
      [| unfold WorkerPool.__exit__, WorkerPool.terminate in Hc; munfold;
         by destruct (_ && _)].
    apply exit_frame in Hc as (_ & tr & ->).
    eexists _, _. split; [reflexivity |]. split; [exact Hinv |].
    split; [by apply handles_kept_same |].
    intros h n Hin. by apply not_elem_of_nil in Hin.
Qed.

Lemma exec_inv (acts : list action) :
  forall w, inv w ->
    exists w' hs,
      exec acts w = Some (w', hs) /\ inv w' /\ handles_kept w w' /\
      (forall h n, (h, n) ∈ hs -> is_Some (handles w' !! h)).
Proof.
  induction acts as [| a acts IH]; intros w Hinv; cbn [exec].
  - exists w, []. split; [done |]. split; [done |].
    split; [by apply handles_kept_same |].
    intros h n Hin. by apply not_elem_of_nil in Hin.
  - destruct (step_inv a w Hinv) as (w1 & hs1 & -> & Hinv1 & Hkept1 & Hin1).
    destruct (IH w1 Hinv1) as (w2 & hs2 & -> & Hinv2 & Hkept2 & Hin2).
    eexists _, _. split; [reflexivity |]. split; [exact Hinv2 |].
    split; [intros h Hh; by apply Hkept2, Hkept1 |].
    intros h n [Hin | Hin]%elem_of_app; [| by eapply Hin2].
    eapply Hkept2, Hin1, Hin.
Qed.

(** C10: along every run of a new pool, whatever the callables do and in
    whatever order tasks complete, fail at the pool level or the loop
    runs, [stats] of every handle that [submit] returned returns a
    [JobStats]: its assertion never fails. *)
Theorem C10_stats_of_submitted_handle
    (clk : nat -> datetime) (acts : list action) :
  exists w hs,
    exec acts (WorkerPool.__init__ clk) = Some (w, hs) /\
    forall h n, (h, n) ∈ hs ->
      exists s, JobHandle.stats h w = Some (Ok s, w).
Proof.
  destruct (exec_inv acts _ (inv_init clk)) as (w & hs & Hexec & Hinv & _ & Hin).
  exists w, hs. split; [exact Hexec |].
  intros h n Hh. destruct (Hin h n Hh) as [hd Hhd].
  destruct (inv_handles _ _ _ _ _ Hinv h hd Hhd) as [(j & s & Hj & Hs) _].
  exists s. hunfold. munfold. mrun. reflexivity.
Qed.

(** ** The wiring of handles, futures, tasks and closures *)

Section Wiring.

Variables (hp : gmap positive Job) (hs : gmap positive handle)
          (fs : gmap positive future) (ts : gmap positive task)
          (rq : list closure).

Hypothesis Hinv : inv_on hp hs fs ts rq.
Hypothesis Hwired : wired_on hs fs ts rq.

Lemma closure_in_handles (c : closure) : c ∈ rq -> is_Some (hs !! closure_handle c).
Proof.
  intros Hc. pose proof (inv_ready _ _ _ _ _ Hinv) as Hok.
  rewrite Forall_forall in Hok. specialize (Hok c Hc).
  destruct c; cbn in *; tauto.
Qed.

(** An unsettled task has no closure scheduled. *)
Lemma unsettled_not_scheduled (t : ref) (tk : task) :
  ts !! t = Some tk -> WorkerPool.settled tk = false ->
  t_handle tk ∉ (closure_handle <$> rq).
Proof.
  intros Htk Hst Hin. apply list_elem_of_fmap in Hin as (c & Hh & Hc).
  destruct (wired_ready _ _ _ _ Hwired c Hc) as (t' & tk' & Htk' & Hh' & Hst').
  assert (t' = t) as ->.
  { eapply (wired_tasks _ _ _ _ Hwired); [done | done | congruence]. }
  congruence.
Qed.

Lemma wired_task_state (t : ref) (tk : task) (st : task_state) :
  ts !! t = Some tk -> WorkerPool.settled tk = false ->
  wired_on hs fs (<[t := mkTask (t_arg tk) (t_handle tk) st]> ts) rq.
Proof.
  intros Htk Hst. destruct Hwired as [Hf Ht Hn Hr Hw Hs]. split; [done | | done | | | done].
  - intros t1 t2 tk1 tk2. rewrite !lookup_insert_Some.
    intros [[<- <-] | [Hne1 H1]] [[<- <-] | [Hne2 H2]]; cbn; try done.
    + intros Heq. by eapply Ht.
    + intros Heq. by eapply Ht.
    + by apply Ht.
  - intros c Hc. destruct (Hr c Hc) as (t' & tk' & Htk' & Hh' & Hst').
    exists t', tk'. split; [| done]. rewrite lookup_insert_ne; [done |].
    intros <-. congruence.
  - intros t' tk' hd f. rewrite lookup_insert_Some.
    intros [[<- <-] | [Hne H1]]; cbn; [| by eapply Hw].
    intros _. by eapply Hw.
Qed.

Lemma wired_deliver (t : ref) (tk : task) (st : task_state) (c : closure) :
  ts !! t = Some tk -> WorkerPool.settled tk = false ->
  WorkerPool.settled (mkTask (t_arg tk) (t_handle tk) st) = true ->
  closure_handle c = t_handle tk ->
  wired_on hs fs (<[t := mkTask (t_arg tk) (t_handle tk) st]> ts) (rq ++ [c]).
Proof.
  intros Htk Hst Hst' Hc.
  pose proof (unsettled_not_scheduled t tk Htk Hst) as Hnot.
  pose proof (wired_task_state t tk st Htk Hst) as [Hf Ht Hn Hr Hw Hs].
  split; [done | done | | | | ].
  - rewrite fmap_app. apply NoDup_app. split; [done |]. split.
    + intros h Hh Hh'. cbn in Hh'. apply list_elem_of_singleton in Hh' as ->.
      by rewrite Hc in Hh.
    + cbn. apply NoDup_singleton.
  - intros c' [Hc' | Hc'%list_elem_of_singleton]%elem_of_app; [by apply Hr |].
    subst c'. exists t, (mkTask (t_arg tk) (t_handle tk) st).
    rewrite lookup_insert_eq. by rewrite Hc.
  - intros t' tk' hd f. rewrite lookup_insert_Some.
    intros [[<- <-] | [Hne H1]]; [congruence |].
    intros Hu. eapply Hw; [| done]. by rewrite lookup_insert_ne.
  - intros c' hd f [Hc' | Hc'%list_elem_of_singleton]%elem_of_app; [by apply Hs |].
    subst c'. rewrite Hc. intros Hhd Hfut.
    by eapply (wired_waiting _ _ _ _ Hwired t tk).
Qed.

Lemma wired_new_handle (h f : ref) (hd : handle) :
  hs !! h = None -> fs !! f = None -> _future hd = Some f ->
  wired_on (<[h := hd]> hs) (<[f := FPending]> fs) ts rq.
Proof.
  intros Hh Hf Hfut. destruct Hwired as [Hwf Ht Hn Hr Hw Hs].
  assert (Hold : forall h' hd' f', hs !! h' = Some hd' -> _future hd' = Some f' ->
                   h' <> h /\ f' <> f).
  { intros h' hd' f' Hh' Hf'. split; [congruence |].
    destruct (inv_handles _ _ _ _ _ Hinv h' hd' Hh') as [_ (f0 & Hf0 & [st Hst])].
    congruence. }
  split; [| done | done | done | |].
  - intros h1 h2 hd1 hd2 f0. rewrite !lookup_insert_Some.
    intros [[<- <-] | [Hne1 H1]] [[<- <-] | [Hne2 H2]] Hf1 Hf2; try done.
    + destruct (Hold _ _ _ H2 Hf2) as [_ Hne]. congruence.
    + destruct (Hold _ _ _ H1 Hf1) as [_ Hne]. congruence.
    + by eapply Hwf.
  - intros t tk hd' f' Htk Hu.
    destruct (inv_tasks _ _ _ _ _ Hinv t tk Htk) as (_ & _ & _ & [hd0 Hhd0]).
    rewrite lookup_insert_ne by congruence. intros Hhd' Hf'.
    destruct (Hold _ _ _ Hhd' Hf') as [_ Hne].
    rewrite lookup_insert_ne by done. by eapply Hw.
  - intros c hd' f' Hc.
    destruct (closure_in_handles c Hc) as [hd0 Hhd0].
    rewrite lookup_insert_ne by congruence. intros Hhd' Hf'.
    destruct (Hold _ _ _ Hhd' Hf') as [_ Hne].
    rewrite lookup_insert_ne by done. by eapply Hs.
Qed.

Lemma wired_run (c : closure) (rest : list closure) (hd hd' : handle) (f : ref)
                (v : future) :
  rq = c :: rest ->
  hs !! closure_handle c = Some hd -> _future hd = Some f -> _future hd' = Some f ->
  wired_on (<[closure_handle c := hd']> hs) (<[f := v]> fs) ts rest.
Proof.
  intros Hq Hhd Hfut Hfut'. destruct Hwired as [Hwf Ht Hn Hr Hw Hs].
  rewrite Hq in *. cbn in Hn. apply NoDup_cons in Hn as [Hnot Hn].
  assert (Hother : forall h1 hd1 f1,
            h1 <> closure_handle c -> hs !! h1 = Some hd1 -> _future hd1 = Some f1 ->
            f1 <> f).
  { intros h1 hd1 f1 Hne H1 Hf1 ->. apply Hne. by eapply Hwf. }
  split; [| done | done | | |].
  - intros h1 h2 hd1 hd2 f0. rewrite !lookup_insert_Some.
    intros [[<- <-] | [Hne1 H1]] [[<- <-] | [Hne2 H2]] Hf1 Hf2; try done.
    + eapply (Hwf _ _ _ _ f0); [exact Hhd | exact H2 | congruence | done].
    + eapply (Hwf _ _ _ _ f0); [exact H1 | exact Hhd | done | congruence].
    + by eapply Hwf.
  - intros c' Hc'. apply Hr. by right.
  - intros t tk hd1 f1 Htk Hu.
    assert (Hne : t_handle tk <> closure_handle c).
    { intros Heq. destruct (Hr c) as (t' & tk' & Htk' & Hh' & Hst'); [by left |].
      assert (t' = t) as -> by (eapply Ht; [done | done | congruence]).
      congruence. }
    rewrite lookup_insert_ne by done. intros Hhd1 Hf1.
    rewrite lookup_insert_ne by (intros <-; by eapply Hother).
    by eapply Hw.
  - intros c' hd1 f1 Hc'.
    assert (Hne : closure_handle c' <> closure_handle c).
    { intros Heq. apply Hnot. rewrite <- Heq. by apply list_elem_of_fmap_2. }
    rewrite lookup_insert_ne by done. intros Hhd1 Hf1.
    rewrite lookup_insert_ne by (intros <-; by eapply Hother).
    eapply Hs; [by right | done | done].
Qed.

Lemma wired_skip (c : closure) (rest : list closure) :
  rq = c :: rest -> wired_on hs fs ts rest.
Proof.
  intros Hq. destruct Hwired as [Hwf Ht Hn Hr Hw Hs]. rewrite Hq in *.
  cbn in Hn. apply NoDup_cons in Hn as [_ Hn].
  split; [done | done | done | | done |].
  - intros c' Hc'. apply Hr. by right.
  - intros c' hd f Hc'. apply Hs. by right.
Qed.

End Wiring.

Lemma wired_new_task (hs : gmap positive handle) (fs : gmap positive future)
                     (ts : gmap positive task) (rq : list closure)
                     (t : ref) (tk : task) (hd : handle) (f : ref) :
  wired_on hs fs ts rq ->
  ts !! t = None ->
  (forall t' tk', ts !! t' = Some tk' -> t_handle tk' <> t_handle tk) ->
  hs !! t_handle tk = Some hd -> _future hd = Some f -> fs !! f = Some FPending ->
  wired_on hs fs (<[t := tk]> ts) rq.
Proof.
  intros [Hwf Ht Hn Hr Hw Hs] Hfresh Hnew Hhd Hfut Hf.
  split; [done | | done | | | done].
  - intros t1 t2 tk1 tk2. rewrite !lookup_insert_Some.
    intros [[<- <-] | [Hne1 H1]] [[<- <-] | [Hne2 H2]] Heq; try done.
    + by destruct (Hnew _ _ H2).
    + by destruct (Hnew _ _ H1).
    + by eapply Ht.
  - intros c Hc. destruct (Hr c Hc) as (t' & tk' & Htk' & Hh' & Hst').
    exists t', tk'. split; [| done]. rewrite lookup_insert_ne; [done |]. congruence.
  - intros t' tk' hd' f'. rewrite lookup_insert_Some.
    intros [[<- <-] | [Hne H1]]; [| by eapply Hw].
    intros _ Hhd' Hfut'. congruence.
Qed.

Lemma wired_init (clk : nat -> datetime) : wired (WorkerPool.__init__ clk).
Proof.
  split; cbn.
  - intros h h' hd hd' f. by rewrite lookup_empty.
  - intros t t' tk tk'. by rewrite lookup_empty.
  - constructor.
  - intros c Hc. by apply elem_of_nil in Hc.
  - intros t tk hd f. by rewrite lookup_empty.
  - intros c hd f Hc. by apply elem_of_nil in Hc.
Qed.

(** ** What one iteration of the loop does along a run *)

Lemma loop_run_once_cases (w : world) :
  inv w -> wired w ->
  match ready w with
  | [] => loop_run_once w = Some w
  | _set_result h jl :: rest =>
      exists hd f jo n s,
        handles w !! h = Some hd /\ _future hd = Some f /\
        heap w !! jl = Some jo /\ __name__ (func jo) = Some n /\
        stats jo = Some s /\ futures w !! f = Some FPending /\
        loop_run_once w = Some (resolved h jl hd f jo n s rest w)
  | _set_err h e :: rest =>
      isinstance_JobFailedError e = false /\
      loop_run_once w = Some (dismissed rest w)
  end.
Proof.
  intros Hinv Hwired. unfold loop_run_once.
  destruct (ready w) as [| c rest] eqn:Hq; [done |].
  pose proof (inv_ready _ _ _ _ _ Hinv) as Hr. rewrite Hq in Hr.
  apply Forall_cons in Hr as [Hc _].
  destruct c as [h jl | h e]; cbn in Hc.
  - destruct Hc as ([hd Hhd] & (jo & s & Hjo & Hs) & (jo' & n & Hjo' & Hn)).
    rewrite Hjo in Hjo'. injection Hjo' as <-.
    destruct (inv_handles _ _ _ _ _ Hinv h hd Hhd) as [_ (fut & Hfut & _)].
    assert (Hpend : futures w !! fut = Some FPending).
    { eapply (wired_scheduled _ _ _ _ Hwired (_set_result h jl));
        [rewrite Hq; by left | exact Hhd | exact Hfut]. }
    exists hd, fut, jo, n, s. repeat (split; [done |]).
    hunfold. munfold. by mrun.
  - destruct Hc as [[hd Hhd] He]. split; [done |].
    destruct e as [c m | l inner]; [| discriminate].
    hunfold. munfold. by mrun.
Qed.

Lemma step_wired (a : action) (w : world) :
  inv w -> wired w ->
  forall w' hs, step a w = Some (w', hs) -> wired w'.
Proof.
  intros Hinv Hwired w' hs Hstep. destruct a as [f a | t fault | |].
  - assert (Hh : handles w !! fresh (dom (handles w)) = None)
      by (apply not_elem_of_dom, is_fresh).
    assert (Hf : futures w !! fresh (dom (futures w)) = None)
      by (apply not_elem_of_dom, is_fresh).
    assert (Ht : tasks w !! fresh (dom (tasks w)) = None)
      by (apply not_elem_of_dom, is_fresh).
    destruct (step_submit f a w) as [(n & Hn & _ & Hs) | (tr & _ & Hs)];
      rewrite Hs in Hstep; injection Hstep as <- <-; unfold wired; cbn.
    + eapply wired_new_task; cbn.
      * eapply wired_new_handle; [exact Hinv | exact Hwired | done | done | done].
      * done.
      * intros t' tk' Htk' Heq.
        destruct (inv_tasks _ _ _ _ _ Hinv t' tk' Htk') as (_ & _ & _ & [hd Hhd]).
        congruence.
      * apply lookup_insert_eq.
      * done.
      * apply lookup_insert_eq.
    + eapply wired_new_handle; [exact Hinv | exact Hwired | done | done | done].
  - cbn [step] in Hstep.
    destruct (pool_complete_cases t fault w Hinv) as (w1 & Hc & Hcases).
    rewrite Hc in Hstep. injection Hstep as <- <-.
    destruct Hcases as [-> | (tk & Htk & Hst & Hcases)]; [done |].
    assert (Hu : WorkerPool.settled tk = false)
      by (unfold WorkerPool.settled; by rewrite Hst).
    destruct Hcases as [(msg & _ & ->) | [(s & _ & Hs & ->) | [-> | ->]]].
    + unfold wired; cbn. by eapply wired_deliver.
    + destruct (pool_completed_cases t tk s w Hs)
        as [(j' & -> & _) | [-> | ->]]; unfold wired; cbn.
      * by eapply wired_deliver.
      * by eapply wired_task_state.
      * by eapply wired_task_state.
    + unfold wired; cbn. by eapply wired_task_state.
    + unfold wired; cbn. by eapply wired_task_state.
  - cbn [step] in Hstep.
    pose proof (loop_run_once_cases w Hinv Hwired) as Hl.
    destruct (ready w) as [| [h jl | h e] rest] eqn:Hq.
    + rewrite Hl in Hstep. by injection Hstep as <- <-.
    + destruct Hl as (hd & f & jo & n & s & Hhd & Hfut & _ & _ & _ & _ & Hl).
      rewrite Hl in Hstep. injection Hstep as <- <-. unfold wired; cbn.
      eapply wired_run with (c := _set_result h jl); cbn; done.
    + destruct Hl as [_ Hl]. rewrite Hl in Hstep. injection Hstep as <- <-.
      unfold wired; cbn. by eapply wired_skip.
  - cbn [step] in Hstep.
    destruct (WorkerPool.__exit__ w) as [[r w1] |] eqn:Hc; [| done].
    apply exit_frame in Hc as (_ & tr & ->).
    cbn in Hstep. by injection Hstep as <- <-.
Qed.

(** Both invariants hold along every run of a pool. *)
Lemma exec_wired (acts : list action) :
  forall w, inv w -> wired w ->
    forall w' hs, exec acts w = Some (w', hs) -> inv w' /\ wired w'.
Proof.
  induction acts as [| a acts IH]; intros w Hinv Hwired w' hs Hexec.
  { cbn in Hexec. by injection Hexec as <- <-. }
  cbn [exec] in Hexec.
  destruct (step_inv a w Hinv) as (w1 & hs1 & Hstep & Hinv1 & _).
  rewrite Hstep in Hexec.
  pose proof (step_wired a w Hinv Hwired _ _ Hstep) as Hwired1.
  destruct (exec acts w1) as [[w2 hs2] |] eqn:Hrest; [| done].
  injection Hexec as <- <-. by eapply IH.
Qed.

(** ** A handle whose task was lost *)

Lemma stranded_blocks (w : world) (h : ref) :
  stranded w h ->
  JobHandle.join h w = Some Blocked /\ AsyncJobHandle.__await__ h w = Some Blocked.
Proof.
  intros (hd & t & tk & f & Hh & Ht & Htk & _ & Hst & Hf & Hp & _).
  hunfold. by rewrite Hh, Ht, Htk, Hst, Hf, Hp.
Qed.

Lemma step_stranded (a : action) (w w' : world) (hs : list (ref * Z)) (h : ref) :
  inv w -> wired w -> stranded w h ->
  step a w = Some (w', hs) -> stranded w' h.
Proof.
  intros Hinv Hwired (hd & t & tk & f & Hh & Ht & Htk & Hth & Hst & Hf & Hp & Hn) Hstep.
  assert (Hfh : fresh (dom (handles w)) <> h)
    by (intros <-; by rewrite fresh_lookup_None in Hh).
  assert (Hft : fresh (dom (tasks w)) <> t)
    by (intros <-; by rewrite fresh_lookup_None in Htk).
  assert (Hff : fresh (dom (futures w)) <> f)
    by (intros <-; by rewrite fresh_lookup_None in Hp).
  destruct a as [fn a | t' fault | |].
  - destruct (step_submit fn a w) as [(n & Hn' & _ & Hs) | (tr & _ & Hs)];
      rewrite Hs in Hstep; injection Hstep as <- <-;
      exists hd, t, tk, f; cbn; by rewrite !lookup_insert_ne.
  - cbn [step] in Hstep.
    destruct (pool_complete_cases t' fault w Hinv) as (w1 & Hc & Hcases).
    rewrite Hc in Hstep. injection Hstep as <- <-.
    destruct Hcases as [-> | (tk' & Htk' & Hst' & Hcases)];
      [by exists hd, t, tk, f |].
    assert (Hne : t' <> t) by (intros ->; congruence).
    assert (Hnh : t_handle tk' <> h).
    { intros Heq. apply Hne. eapply (wired_tasks _ _ _ _ Hwired); [done | done | congruence]. }
    assert (Hn' : forall c, closure_handle c = t_handle tk' ->
                    h ∉ closure_handle <$> ready w ++ [c]).
    { intros c Hc'. rewrite fmap_app. cbn. rewrite Hc'.
      intros [Hin | Hin%list_elem_of_singleton]%elem_of_app; [done | congruence]. }
    destruct Hcases as [(msg & _ & ->) | [(s & _ & Hs & ->) | [-> | ->]]].
    + exists hd, t, tk, f. cbn. rewrite lookup_insert_ne by done.
      repeat (split; [done |]). by apply Hn'.
    + destruct (pool_completed_cases t' tk' s w Hs) as [(j' & -> & _) | [-> | ->]];
        exists hd, t, tk, f; cbn; rewrite lookup_insert_ne by done;
        repeat (split; [done |]); [by apply Hn' | done | done].
    + exists hd, t, tk, f. cbn. by rewrite lookup_insert_ne.
    + exists hd, t, tk, f. cbn. by rewrite lookup_insert_ne.
  - cbn [step] in Hstep.
    pose proof (loop_run_once_cases w Hinv Hwired) as Hl.
    destruct (ready w) as [| [h' jl | h' e] rest] eqn:Hq.
    + rewrite Hl in Hstep. injection Hstep as <- <-.
      exists hd, t, tk, f. by rewrite Hq.
    + destruct Hl as (hd' & f' & jo & n & s & Hhd' & Hfut' & _ & _ & _ & _ & Hl).
      rewrite Hl in Hstep. injection Hstep as <- <-.
      cbn in Hn. apply not_elem_of_cons in Hn as [Hne Hn].
      assert (Hnf : f' <> f).
      { intros ->. apply Hne. by eapply (wired_futures _ _ _ _ Hwired). }
      exists hd, t, tk, f. cbn. by rewrite !lookup_insert_ne.
    + destruct Hl as [_ Hl]. rewrite Hl in Hstep. injection Hstep as <- <-.
      cbn in Hn. apply not_elem_of_cons in Hn as [Hne Hn].
      by exists hd, t, tk, f.
  - cbn [step] in Hstep.
    destruct (WorkerPool.__exit__ w) as [[r w1] |] eqn:Hc; [| done].
    apply exit_frame in Hc as (_ & tr & ->).
    cbn in Hstep. injection Hstep as <- <-. by exists hd, t, tk, f.
Qed.

(** Whatever runs afterwards, a lost task keeps its handle waiting. *)
Lemma exec_stranded (acts : list action) :
  forall w h, inv w -> wired w -> stranded w h ->
    exists w' hs, exec acts w = Some (w', hs) /\ stranded w' h.
Proof.
  induction acts as [| a acts IH]; intros w h Hinv Hwired Hs.
  { by exists w, []. }
  cbn [exec].
  destruct (step_inv a w Hinv) as (w1 & hs1 & Hstep & Hinv1 & _).
  rewrite Hstep.
  pose proof (step_wired a w Hinv Hwired _ _ Hstep) as Hwired1.
  pose proof (step_stranded a w w1 hs1 h Hinv Hwired Hs Hstep) as Hs1.
  destruct (IH w1 h Hinv1 Hwired1 Hs1) as (w2 & hs2 & -> & Hs2).
  by eexists _, _.
Qed.

(** ** From [submit] to [join] and [await] *)

(** One job through the whole path on an idle loop: [submit], the pool's
    completion of the task, one iteration of the loop. A callable that
    returns is delivered; one that raises is not: the job [evaluate_job]
    returns for an [Exception] ends the result thread, and without an
    [Exception] the worker process ends. *)
Lemma submit_complete_run (f : callable) (n : string) (a : list value) (w : world) :
  pool_running w = true -> pool_result_thread w = true -> ready w = [] ->
  __name__ f = Some n ->
  let h := fresh (dom (handles w)) in
  let t := fresh (dom (tasks w)) in
  exists w1 w2 w3,
    WorkerPool.submit f a w = Some (Ok h, w1) /\
    pool_complete t None w1 = Some w2 /\
    loop_run_once w2 = Some w3 /\
    match call f a with
    | Return v =>
        exists l j,
          ready w2 = [_set_result h l] /\
          JobHandle.join h w3 = Some (Done (Ok (JobObject l))) /\
          heap w3 !! l = Some j /\ result j = v /\ error j = None /\
          AsyncJobHandle.__await__ h w3 = Some (Done (Ok v))
    | Raise e =>
        ready w2 = [] /\ w3 = w2 /\
        (t_state <$> tasks w2 !! t) = Some TLost /\
        pool_result_thread w2 = negb (isinstance_Exception e) /\
        JobHandle.join h w3 = Some Blocked /\
        AsyncJobHandle.__await__ h w3 = Some Blocked
    end.
Proof.
  intros Hrun Halive Hq Hn h t.
  exists (submitted f n a w).
  exists (pool_completed t (mkTask (submitted_job f a w) h TPending)
            (mkJobStats (clock w (ticks w)) None None) (submitted f n a w)).
  destruct (call f a) as [v | e] eqn:Hcall;
    [| destruct (isinstance_Exception e) eqn:He];
    eexists;
    (split; [by apply submit_running |]);
    (split; [eapply pool_complete_job; cbn; try apply lookup_insert_eq; done |]);
    unfold pool_completed, evaluated, delivered, crashed, lost, lose, submitted,
      submitted_job;
    cbn [t_arg t_handle func args id stats result error clock ticks heap tasks
         ready handles futures pool_job_id pool_running trace];
    rewrite Hcall, ?He;
    unfold loop_run_once; hunfold; munfold; cbn; rewrite Hq; mrun;
    (split; [reflexivity |]).
  - eexists _, _. cbn. rewrite !lookup_insert_eq. cbn.
    rewrite !lookup_insert_eq. done.
  - cbn. rewrite !lookup_insert_eq. cbn. by rewrite !lookup_insert_eq.
  - cbn. rewrite !lookup_insert_eq. cbn. rewrite !lookup_insert_eq.
    by rewrite Halive.
Qed.

(** C2 (the code at [submit(add, 2, 3)]): on a new pool, once the pool has
    completed the task and the loop has run, the delivered job's [result]
    is 5 and awaiting the handle gives 5, but [join()] returns what
    [evaluate_job] returned, the job object itself, not 5. *)
Theorem C2_join_returns_job_object (clk : nat -> datetime) :
  exists w j,
    exec [Submit add [VInt 2; VInt 3]; Complete 1%positive None; LoopRun]
         (WorkerPool.__init__ clk) = Some (w, [(1%positive, 1)]) /\
    JobHandle.join 1%positive w = Some (Done (Ok (JobObject 2%positive))) /\
    JobHandle.join 1%positive w <> Some (Done (Ok (Data (VInt 5)))) /\
    heap w !! 2%positive = Some j /\
    result j = VInt 5 /\ error j = None /\
    AsyncJobHandle.__await__ 1%positive w = Some (Done (Ok (VInt 5))).
Proof.
  eexists _, _. split; [vm_compute; reflexivity |].
  split; [reflexivity |]. split; [discriminate |].
  split; [reflexivity |]. done.
Qed.

(** A job whose callable raises an [Exception] never reaches its handle:
    what [evaluate_job] returns cannot be unpickled, the result thread ends
    on it, and the handle's task is lost. *)
Lemma raising_job_stranded (f : callable) (n : string) (a : list value) (e : exn)
                           (w : world) :
  inv w -> wired w ->
  pool_running w = true -> pool_result_thread w = true ->
  __name__ f = Some n -> call f a = Raise e -> isinstance_Exception e = true ->
  exists w1 w2,
    WorkerPool.submit f a w = Some (Ok (fresh (dom (handles w))), w1) /\
    pool_complete (fresh (dom (tasks w))) None w1 = Some w2 /\
    stranded w2 (fresh (dom (handles w))) /\
    pool_result_thread w2 = false /\ ready w2 = ready w /\
    last (trace w2) = Some (Thread_exception unpickling_error).
Proof.
  intros Hinv Hwired Hrun Halive Hn Hcall He.
  exists (submitted f n a w).
  exists (pool_completed (fresh (dom (tasks w)))
            (mkTask (submitted_job f a w) (fresh (dom (handles w))) TPending)
            (mkJobStats (clock w (ticks w)) None None) (submitted f n a w)).
  split; [by apply submit_running |].
  split; [eapply pool_complete_job; cbn; try apply lookup_insert_eq; done |].
  unfold pool_completed, evaluated, crashed, submitted, submitted_job.
  cbn [t_arg t_handle func args id stats result error clock ticks heap tasks
       ready handles futures pool_job_id pool_running trace].
  rewrite Hcall, He. cbn.
  split; [| by rewrite last_snoc].
  eexists _, _, _, _. cbn. rewrite !lookup_insert_eq.
  repeat (split; [reflexivity |]).
  intros Hin. apply list_elem_of_fmap in Hin as (c & Hc & Hin).
  destruct (closure_in_handles _ _ _ _ _ Hinv c Hin) as [hd Hhd].
  rewrite <- Hc in Hhd. by rewrite fresh_lookup_None in Hhd.
Qed.

(** C1 (the code at [submit(boom)] on a new pool, where [boom] raises
    [ValueError("boom")]): in the worker [evaluate_job] returns the job with
    [error] populated, as claimed. That job is what the worker sends back,
    and the pool's result thread cannot unpickle it: the thread ends with a
    [TypeError], no callback fires, nothing is scheduled on the loop and the
    task is never settled. Whatever runs afterwards, [join()] and awaiting
    the handle wait for ever instead of resolving with the unset result; a
    job submitted later is not delivered either, and leaving the pool's
    [with] block raises an [AssertionError]. *)
Theorem C1_user_failure_never_delivered (clk : nat -> datetime) (acts : list action) :
  (exists ww,
     evaluate_job worker_ref
       (worker_process (WorkerPool.__init__ clk) worker_ref
          (mkJob 1 boom [] (Some (mkJobStats (clk 0%nat) None None)) VNone None))
       = Some (Ok worker_ref, ww) /\
     (error <$> heap ww !! worker_ref) =
       Some (Some (JobFailedError worker_ref (PyExc ValueError "boom")))) /\
  exists w1 w2,
    exec [Submit boom []] (WorkerPool.__init__ clk) = Some (w1, [(1%positive, 1)]) /\
    exec [Complete 1%positive None] w1 = Some (w2, []) /\
    ready w2 = [] /\
    (t_state <$> tasks w2 !! 1%positive) = Some TLost /\
    pool_result_thread w2 = false /\
    last (trace w2) = Some (Thread_exception unpickling_error) /\
    (exists w3 hs,
       exec acts w2 = Some (w3, hs) /\
       JobHandle.join 1%positive w3 = Some Blocked /\
       AsyncJobHandle.__await__ 1%positive w3 = Some Blocked) /\
    (exists w4,
       exec [Submit add [VInt 2; VInt 3]; Complete 2%positive None; LoopRun] w2
         = Some (w4, [(2%positive, 2)]) /\
       JobHandle.join 2%positive w4 = Some Blocked /\
       AsyncJobHandle.__await__ 2%positive w4 = Some Blocked) /\
    (exists w5,
       WorkerPool.__exit__ w2 =
         Some (Err (PyExc AssertionError
                      "Cannot have cache with result_hander not alive"), w5)).
Proof.
  split.
  - eexists. split; [vm_compute; reflexivity | reflexivity].
  - eexists _, _.
    split; [vm_compute; reflexivity |].
    split; [vm_compute; reflexivity |].
    split; [reflexivity |]. split; [reflexivity |]. split; [reflexivity |].
    split; [reflexivity |].
    match goal with
    | |- (exists w3 hs, exec acts ?w2 = _ /\ _) /\ _ =>
        assert (Hrun : exec [Submit boom []; Complete 1%positive None]
                         (WorkerPool.__init__ clk) = Some (w2, [(1%positive, 1)]))
          by (vm_compute; reflexivity);
        assert (Hs : stranded w2 1%positive)
    end.
    { eexists _, _, _, _. repeat (split; [reflexivity |]). apply not_elem_of_nil. }
    destruct (exec_wired _ _ (inv_init clk) (wired_init clk) _ _ Hrun)
      as [Hinv Hwired].
    split; [| split].
    + destruct (exec_stranded acts _ _ Hinv Hwired Hs) as (w3 & hs & Hexec & Hs3).
      exists w3, hs. split; [exact Hexec |]. by apply stranded_blocks.
    + eexists. split; [vm_compute; reflexivity |]. split; reflexivity.
    + eexists. vm_compute. reflexivity.
Qed.

(** ** AsyncJobHandle *)




(* ===================================================================== *)
(** * Further properties of the pool and its handles                      *)
(* ===================================================================== *)

(** ** Job objects of the submitting process are never written *)

Lemma step_heap (a : action) (w w' : world) (hs : list (ref * Z)) :
  step a w = Some (w', hs) ->
  forall l j, heap w !! l = Some j -> heap w' !! l = Some j.
Proof.
  intros Hstep l j Hl.
  assert (Hne : fresh (dom (heap w)) <> l).
  { intros <-. by rewrite fresh_lookup_None in Hl. }
  destruct a as [f a | t fault | |].
  - destruct (step_submit f a w) as [(n & _ & _ & Hs) | (tr & _ & Hs)];
      rewrite Hs in Hstep; injection Hstep as <- <-; cbn;
      by rewrite lookup_insert_ne.
  - cbn [step] in Hstep.
    destruct (pool_complete t fault w) as [w1 |] eqn:Hc; [| done].
    injection Hstep as <- <-.
    destruct (pool_complete_frame _ _ _ _ Hc) as (_ & _ & _ & _ & Hheap & _).
    by apply Hheap.
  - cbn [step] in Hstep.
    destruct (loop_run_once w) as [w1 |] eqn:Hc; [| done].
    injection Hstep as <- <-.
    destruct (loop_run_once_frame _ _ Hc) as (_ & _ & _ & Hheap & _).
    by rewrite Hheap.
  - cbn [step] in Hstep.
    destruct (WorkerPool.__exit__ w) as [[r w1] |] eqn:Hc; [| done].
    apply exit_frame in Hc as (_ & tr & ->).
    cbn in Hstep. by injection Hstep as <- <-.
Qed.

(** X1: whatever the submitting side, the pool and the loop do, a job
    object of the submitting process keeps all its attributes: what the
    worker wrote ([started_at], [result], [error], [finished_at]) exists
    only in the copy the completion delivers at a new address. *)
Theorem X1_submitter_jobs_never_written
    (acts : list action) (w w' : world) (hs : list (ref * Z)) (l : ref) (j : Job) :
  exec acts w = Some (w', hs) ->
  heap w !! l = Some j ->
  heap w' !! l = Some j.
Proof.
  revert w hs. induction acts as [| a acts IH]; intros w hs; cbn [exec].
  - by intros [= <- <-].
  - destruct (step a w) as [[w1 hs1] |] eqn:Hstep; [| done].
    destruct (exec acts w1) as [[w2 hs2] |] eqn:Hexec; [| done].
    intros [= <- <-] Hl. eapply IH; [exact Hexec |]. by eapply step_heap.
Qed.

(** ** What a handle shows between submission and delivery *)

(** X2: on a running pool, [submit] of a callable that has a [__name__]
    returns at once with a handle whose job has not run: [join] and
    awaiting would wait, [stats] holds only the submission time (so
    [elapsed] is 0), [job_id] is the pool's counter plus one, and nothing
    has been scheduled on the loop. For a callable without [__name__]
    (a [functools.partial]) [submit] raises [AttributeError] while it
    builds its log line: the counter has advanced, no task was handed to
    the pool and no handle is returned. *)
Theorem X2_submit_returns_pending_handle (f : callable) (a : list value) (w : world) :
  pool_running w = true ->
  match __name__ f with
  | Some _ =>
      exists h w1,
        WorkerPool.submit f a w = Some (Ok h, w1) /\
        JobHandle.join h w1 = Some Blocked /\
        AsyncJobHandle.__await__ h w1 = Some Blocked /\
        JobHandle.stats h w1 =
          Some (Ok (mkJobStats (clock w (ticks w)) None None), w1) /\
        elapsed (mkJobStats (clock w (ticks w)) None None) = 0%Q /\
        JobHandle.job_id h w1 = Some (Ok (pool_job_id w + 1), w1) /\
        ready w1 = ready w /\
        pool_job_id w1 = pool_job_id w + 1
  | None =>
      exists w1,
        WorkerPool.submit f a w =
          Some (Err (PyExc AttributeError "object has no attribute '__name__'"), w1) /\
        tasks w1 = tasks w /\ ready w1 = ready w /\ trace w1 = trace w /\
        pool_job_id w1 = pool_job_id w + 1
  end.
Proof.
  intros Hrun. destruct (__name__ f) as [n |] eqn:Hn.
  - eexists _, _. split; [by apply submit_running |].
    unfold submitted, submitted_job. hunfold. munfold. mrun. done.
  - eexists. split; [by apply submit_unnamed |].
    unfold refused. cbn. by rewrite app_nil_r.
Qed.

(** X3: [JobHandle._on_success(job)] makes [job] the handle's job whatever
    happens next. Building its log line it then raises [AttributeError]
    when the job's callable has no [__name__], and otherwise the assertion
    of [stats] exactly when the job's stats is unset; when neither is the
    case it emits one log line with the job's id, its callable's name and
    its elapsed time. It writes no job and no future. *)
Theorem X3_on_success_installs_job (w : world) (self job : ref) (hd : handle) (j : Job) :
  handles w !! self = Some hd -> heap w !! job = Some j ->
  exists r w',
    JobHandle._on_success self job w = Some (r, w') /\
    handles w' !! self = Some (mkHandle job (_pool_task hd) (_future hd)) /\
    heap w' = heap w /\ futures w' = futures w /\
    match __name__ (func j) with
    | Some n =>
        match stats j with
        | Some s =>
            r = Ok tt /\
            trace w' = trace w ++ [Log_debug (LogFinished (id j) n (elapsed s))]
        | None =>
            r = Err (PyExc AssertionError not_submitted) /\ trace w' = trace w
        end
    | None =>
        r = Err (PyExc AttributeError "object has no attribute '__name__'") /\
        trace w' = trace w
    end.
Proof.
  intros Hh Hj. hunfold. munfold. mrun.
  destruct (__name__ (func j)) as [n |]; mrun;
    [destruct (stats j) as [s |]; mrun |]; eexists _, _;
    (split; [reflexivity |]); cbn; by rewrite lookup_insert_eq.
Qed.

(** X4: for a callable that has a [__name__] and returns, on a pool whose
    result thread runs: between the pool's completion of the task and the
    loop's iteration that runs the success closure, [join] already returns
    while [stats] of the handle is still the one of submission (no
    [started_at], no [finished_at]) and awaiting still waits. Once the
    closure has run, [stats] keeps [submitted_at] and holds the two clock
    readings the worker took, in the order it took them. *)
Theorem X4_stats_follow_the_loop
    (f : callable) (n : string) (a : list value) (v : value) (w : world) :
  pool_running w = true -> pool_result_thread w = true -> ready w = [] ->
  __name__ f = Some n -> call f a = Return v ->
  exists h t w1 w2 w3 l,
    WorkerPool.submit f a w = Some (Ok h, w1) /\
    pool_complete t None w1 = Some w2 /\
    JobHandle.join h w2 = Some (Done (Ok (JobObject l))) /\
    AsyncJobHandle.__await__ h w2 = Some Blocked /\
    JobHandle.stats h w2 =
      Some (Ok (mkJobStats (clock w (ticks w)) None None), w2) /\
    loop_run_once w2 = Some w3 /\
    JobHandle.stats h w3 =
      Some (Ok (mkJobStats (clock w (ticks w))
                  (Some (clock w (S (ticks w))))
                  (Some (clock w (S (S (ticks w)))))), w3).
Proof.
  intros Hrun Halive Hq Hn Hcall.
  assert (Hne : fresh (dom (<[fresh (dom (heap w)) := submitted_job f a w]> (heap w)))
                <> fresh (dom (heap w))).
  { intros Heq.
    pose proof (fresh_lookup_None
                  (<[fresh (dom (heap w)) := submitted_job f a w]> (heap w))) as Hnone.
    rewrite Heq, lookup_insert_eq in Hnone. discriminate. }
  exists (fresh (dom (handles w))), (fresh (dom (tasks w))), (submitted f n a w).
  exists (pool_completed (fresh (dom (tasks w)))
            (mkTask (submitted_job f a w) (fresh (dom (handles w))) TPending)
            (mkJobStats (clock w (ticks w)) None None) (submitted f n a w)).
  eexists _, _.
  split; [by apply submit_running |].
  split; [eapply pool_complete_job; cbn; try apply lookup_insert_eq; done |].
  unfold pool_completed, evaluated, delivered, submitted, submitted_job in *.
  cbn [t_arg t_handle func args id stats result error clock ticks heap tasks
       ready handles futures pool_job_id pool_running trace].
  rewrite Hcall.
  repeat (split;
          [unfold loop_run_once; hunfold; munfold; cbn; rewrite ?Hq; mrun;
           rewrite ?lookup_insert_ne by done; mrun; reflexivity |]).
  hunfold; munfold; mrun; reflexivity.
Qed.

(** X5: when the pool mechanism itself fails for a submitted job, [join]
    raises the pool's error, but awaiting the handle keeps waiting: the
    failure closure stops at the type check of [_on_error], the loop's
    exception handler gets the assertion error, the future stays pending,
    nothing is left scheduled, and the handle keeps its job. *)
Theorem X5_pool_failure_reaches_join_only
    (f : callable) (n : string) (a : list value) (msg : string) (w : world) :
  pool_running w = true -> pool_result_thread w = true -> ready w = [] ->
  __name__ f = Some n ->
  exists h t w1 w2 w3,
    WorkerPool.submit f a w = Some (Ok h, w1) /\
    pool_complete t (Some msg) w1 = Some w2 /\
    ready w2 = [_set_err h (PyExc MaybeEncodingError msg)] /\
    loop_run_once w2 = Some w3 /\
    JobHandle.join h w3 = Some (Done (Err (PyExc MaybeEncodingError msg))) /\
    AsyncJobHandle.__await__ h w3 = Some Blocked /\
    ready w3 = [] /\
    trace w3 = trace w1 ++ [Loop_exception (PyExc AssertionError "unexpected error type")] /\
    handles w3 = handles w1 /\ heap w3 = heap w1.
Proof.
  intros Hrun Halive Hq Hn.
  exists (fresh (dom (handles w))), (fresh (dom (tasks w))), (submitted f n a w).
  eexists _, _.
  split; [by apply submit_running |].
  split; [eapply pool_complete_fault; cbn; try apply lookup_insert_eq; done |].
  unfold faulted, submitted. cbn. rewrite Hq.
  split; [reflexivity |].
  unfold loop_run_once. hunfold. munfold. cbn.
  split; [reflexivity |]. cbn. rewrite !lookup_insert_eq. cbn.
  rewrite !lookup_insert_eq. done.
Qed.

(** ** After the pool's exit *)

Lemma step_terminated (a : action) (w w' : world) (hs : list (ref * Z)) :
  pool_running w = false -> step a w = Some (w', hs) ->
  pool_running w' = false /\ hs = [] /\ tasks w' = tasks w /\
  (forall h hd, handles w !! h = Some hd ->
     exists hd', handles w' !! h = Some hd' /\ _pool_task hd' = _pool_task hd).
Proof.
  intros Hr Hstep. destruct a as [f a | t fault | |].
  - destruct (step_submit f a w) as [(n & _ & Hrun & _) | (tr & _ & Hs)];
      [congruence |].
    rewrite Hs in Hstep. injection Hstep as <- <-.
    cbn. split; [done |]. split; [done |]. split; [done |].
    intros h hd Hh. exists hd. split; [| done].
    rewrite lookup_insert_ne; [done |].
    intros <-. by rewrite fresh_lookup_None in Hh.
  - cbn [step] in Hstep. unfold pool_complete in Hstep. rewrite Hr in Hstep.
    assert (w' = w /\ hs = []) as [-> ->].
    { destruct (tasks w !! t) as [tk |]; [destruct (t_state tk) |];
        cbn in Hstep; by simplify_eq. }
    split; [done |]. split; [done |]. split; [done |].
    intros h hd Hh. by exists hd.
  - cbn [step] in Hstep.
    destruct (loop_run_once w) as [w1 |] eqn:Hc; [| done].
    injection Hstep as <- <-.
    destruct (loop_run_once_frame _ _ Hc) as (_ & Hrun & _ & _ & Htasks & Hhandles).
    split; [congruence |]. split; [done |]. split; [done |].
    intros h hd Hh. destruct (Hhandles h hd Hh) as (hd' & ? & ? & _). eauto.
  - cbn [step] in Hstep.
    destruct (WorkerPool.__exit__ w) as [[r w1] |] eqn:Hc; [| done].
    apply exit_frame in Hc as (_ & tr & ->).
    cbn in Hstep. injection Hstep as <- <-. cbn.
    split; [done |]. split; [done |]. split; [done |].
    intros h hd Hh. by exists hd.
Qed.

(** X6: once the pool has been terminated, every later [submit] raises
    instead of returning a handle, no task changes state any more, and
    [join] on a handle whose task was still pending waits for ever,
    whatever runs afterwards. *)
Theorem X6_terminated_pool_never_completes
    (acts : list action) (w w' : world) (hs : list (ref * Z)) :
  pool_running w = false ->
  exec acts w = Some (w', hs) ->
  hs = [] /\ tasks w' = tasks w /\
  (forall h hd t tk,
     handles w !! h = Some hd -> _pool_task hd = Some t ->
     tasks w !! t = Some tk -> t_state tk = TPending ->
     JobHandle.join h w' = Some Blocked).
Proof.
  revert w hs. induction acts as [| a acts IH]; intros w hs Hr; cbn [exec].
  - intros [= <- <-]. split; [done |]. split; [done |].
    intros h hd t tk Hh Ht Htk Hst. hunfold. by rewrite Hh, Ht, Htk, Hst.
  - destruct (step a w) as [[w1 hs1] |] eqn:Hstep; [| done].
    destruct (exec acts w1) as [[w2 hs2] |] eqn:Hexec; [| done].
    intros [= <- <-].
    destruct (step_terminated _ _ _ _ Hr Hstep) as (Hr1 & -> & Ht1 & Hh1).
    destruct (IH _ _ Hr1 Hexec) as (-> & Ht2 & Hjoin).
    split; [done |]. split; [by rewrite Ht2 |].
    intros h hd t tk Hh Ht Htk Hst.
    destruct (Hh1 h hd Hh) as (hd1 & Hhd1 & Hpt).
    eapply (Hjoin h hd1 t tk); [done | by rewrite Hpt | by rewrite Ht1 | done].
Qed.

(** ** A handle keeps the identity of its job *)

Section Identity.

Variables (hp : gmap positive Job) (hs : gmap positive handle)
          (fs : gmap positive future) (ts : gmap positive task)
          (rq : list closure).

Lemma same_job_refl (j : Job) : same_job j j.
Proof. by repeat split. Qed.

Lemma same_job_sym (j j' : Job) : same_job j j' -> same_job j' j.
Proof. intros (? & ? & ? & ?). by repeat split. Qed.

Lemma same_job_trans (j1 j2 j3 : Job) :
  same_job j1 j2 -> same_job j2 j3 -> same_job j1 j3.
Proof.
  intros (? & ? & ? & ?) (? & ? & ? & ?). repeat split; congruence.
Qed.

Lemma job_of_alloc (l : ref) (j : Job) (h : ref) :
  hp !! l = None -> inv_on hp hs fs ts rq ->
  job_of (<[l := j]> hp) hs h = job_of hp hs h.
Proof.
  intros Hfresh Hinv. unfold job_of.
  destruct (hs !! h) as [hd |] eqn:Hh; [| done].
  destruct (inv_handles _ _ _ _ _ Hinv h hd Hh) as [(j' & s & Hj & _) _].
  rewrite lookup_insert_ne; [done |]. congruence.
Qed.

Lemma job_of_other (h h' : ref) (hd : handle) :
  h <> h' -> job_of hp (<[h := hd]> hs) h' = job_of hp hs h'.
Proof. intros Hne. unfold job_of. by rewrite lookup_insert_ne. Qed.

Lemma ident_alloc (l : ref) (j : Job) :
  hp !! l = None -> inv_on hp hs fs ts rq ->
  ident_on hp hs ts rq -> ident_on (<[l := j]> hp) hs ts rq.
Proof.
  intros Hfresh Hinv [Ht Hr]. split.
  - intros t tk j0 Htk. rewrite job_of_alloc by done. by eapply Ht.
  - intros h jl jo j0 Hin Hjl. rewrite job_of_alloc by done.
    pose proof (inv_ready _ _ _ _ _ Hinv) as Hok.
    rewrite Forall_forall in Hok. destruct (Hok _ Hin) as (_ & (jo' & s & Hjo' & _) & _).
    rewrite lookup_insert_ne in Hjl by congruence. by eapply Hr.
Qed.

Lemma ident_new_handle (h : ref) (hd : handle) :
  hs !! h = None -> inv_on hp hs fs ts rq ->
  ident_on hp hs ts rq -> ident_on hp (<[h := hd]> hs) ts rq.
Proof.
  intros Hfresh Hinv [Ht Hr]. split.
  - intros t tk j Htk.
    destruct (inv_tasks _ _ _ _ _ Hinv t tk Htk) as (_ & _ & _ & [hd' Hhd']).
    rewrite job_of_other by congruence. by eapply Ht.
  - intros h' jl jo j Hin Hjl.
    pose proof (inv_ready _ _ _ _ _ Hinv) as Hok.
    rewrite Forall_forall in Hok. destruct (Hok _ Hin) as ([hd' Hhd'] & _).
    rewrite job_of_other by congruence. by eapply Hr.
Qed.

Lemma ident_task (t : ref) (tk : task) :
  (forall j, job_of hp hs (t_handle tk) = Some j -> same_job (t_arg tk) j) ->
  ident_on hp hs ts rq -> ident_on hp hs (<[t := tk]> ts) rq.
Proof.
  intros Hnew [Ht Hr]. split; [| done].
  intros t' tk' j. rewrite lookup_insert_Some.
  intros [[<- <-] | [Hne Hold]]; [by apply Hnew | by eapply Ht].
Qed.

Lemma ident_schedule (c : closure) :
  (forall h jl jo j, c = _set_result h jl ->
     hp !! jl = Some jo -> job_of hp hs h = Some j -> same_job jo j) ->
  ident_on hp hs ts rq -> ident_on hp hs ts (rq ++ [c]).
Proof.
  intros Hnew [Ht Hr]. split; [done |].
  intros h jl jo j [Hin | Hin%list_elem_of_singleton]%elem_of_app;
    [by eapply Hr | by eapply Hnew].
Qed.

Lemma ident_tail (c : closure) (rest : list closure) :
  ident_on hp hs ts (c :: rest) -> ident_on hp hs ts rest.
Proof.
  intros [Ht Hr]. split; [done |].
  intros h jl jo j Hin. eapply Hr. by right.
Qed.

Lemma ident_install (h jl : ref) (hd hd' : handle) (jo : Job) (rest : list closure) :
  hs !! h = Some hd -> _job hd' = jl -> hp !! jl = Some jo ->
  (exists j, hp !! _job hd = Some j) ->
  ident_on hp hs ts (_set_result h jl :: rest) ->
  ident_on hp (<[h := hd']> hs) ts rest.
Proof.
  intros Hh Hjob Hjo [j Hj] [Ht Hr].
  assert (Hold : job_of hp hs h = Some j) by (unfold job_of; by rewrite Hh).
  assert (Hsame : same_job jo j).
  { eapply (Hr h jl); [by left | done | done]. }
  split.
  - intros t tk j0 Htk. destruct (decide (h = t_handle tk)) as [Heq | Hne].
    + rewrite <- Heq. unfold job_of at 1.
      rewrite lookup_insert_eq, Hjob, Hjo. intros [= <-].
      eapply same_job_trans; [| by apply same_job_sym].
      eapply Ht; [exact Htk | by rewrite <- Heq].
    + rewrite job_of_other by done. by eapply Ht.
  - intros h' jl' jo' j0 Hin Hjl'. destruct (decide (h = h')) as [<- | Hne].
    + unfold job_of. rewrite lookup_insert_eq, Hjob, Hjo. intros [= <-].
      eapply same_job_trans; [| by apply same_job_sym].
      eapply (Hr h jl'); [by right | done | done].
    + rewrite job_of_other by done. eapply Hr; [by right | done].
Qed.

End Identity.

Lemma job_of_submitted_new (f : callable) (n : string) (a : list value) (w : world) :
  job_of (heap (submitted f n a w)) (handles (submitted f n a w))
         (fresh (dom (handles w))) = Some (submitted_job f a w).
Proof. unfold job_of. cbn. by rewrite !lookup_insert_eq. Qed.

Lemma job_of_grown (w : world) (hp' : gmap positive Job)
                   (hs' : gmap positive handle) (h : ref) (j : Job) :
  inv w ->
  (hp' = heap w \/ exists l j0, heap w !! l = None /\ hp' = <[l := j0]> (heap w)) ->
  (hs' = handles w \/
   exists h0 hd0, handles w !! h0 = None /\ hs' = <[h0 := hd0]> (handles w)) ->
  job_of (heap w) (handles w) h = Some j ->
  job_of hp' hs' h = Some j.
Proof.
  intros Hinv Hhp Hhs Hj.
  assert (Hhp' : job_of hp' (handles w) h = Some j).
  { destruct Hhp as [-> | (l & j0 & Hfresh & ->)]; [done |].
    by erewrite job_of_alloc. }
  destruct Hhs as [-> | (h0 & hd0 & Hfresh & ->)]; [done |].
  rewrite job_of_other; [done |].
  intros <-. unfold job_of in Hj. by rewrite Hfresh in Hj.
Qed.

Lemma step_ident (a : action) (w w' : world) (hs : list (ref * Z)) :
  inv w -> wired w -> ident w -> step a w = Some (w', hs) ->
  ident w' /\ jobs_kept w w' /\
  (forall h n, (h, n) ∈ hs ->
     exists j, job_of (heap w') (handles w') h = Some j /\ id j = n).
Proof.
  intros Hinv Hwired Hid Hstep.
  assert (Hgrow : forall hp' hs', 
            (hp' = heap w \/ exists l j0, heap w !! l = None /\ hp' = <[l := j0]> (heap w)) ->
            (hs' = handles w \/
             exists h0 hd0, handles w !! h0 = None /\ hs' = <[h0 := hd0]> (handles w)) ->
            forall h j, job_of (heap w) (handles w) h = Some j ->
              exists j', job_of hp' hs' h = Some j' /\ same_job j j').
  { intros hp' hs' Hhp Hhs h j Hj. exists j.
    split; [by eapply job_of_grown | apply same_job_refl]. }
  assert (Hstate : forall t tk st,
            tasks w !! t = Some tk ->
            ident_on (heap w) (handles w)
              (<[t := mkTask (t_arg tk) (t_handle tk) st]> (tasks w)) (ready w)).
  { intros t tk st Htk. apply ident_task; [| exact Hid].
    cbn. intros j Hj. by eapply (ident_tasks _ _ _ _ Hid). }
  destruct a as [f a | t fault | |].
  - assert (Hbase : forall pt,
              ident_on (<[fresh (dom (heap w)) := submitted_job f a w]> (heap w))
                (<[fresh (dom (handles w)) :=
                     mkHandle (fresh (dom (heap w))) pt
                              (Some (fresh (dom (futures w))))]> (handles w))
                (tasks w) (ready w)).
    { intros pt. eapply ident_new_handle;
        [apply fresh_lookup_None
        | apply inv_alloc; [apply fresh_lookup_None | exact Hinv] |].
      eapply ident_alloc; [apply fresh_lookup_None | exact Hinv | exact Hid]. }
    destruct (step_submit f a w) as [(n & Hn & Hr & Hs) | (tr & _ & Hs)];
      rewrite Hs in Hstep; injection Hstep as <- <-; (split; [| split]).
    + unfold ident, submitted. cbn. apply ident_task; [| apply Hbase].
      cbn. unfold job_of. rewrite !lookup_insert_eq. cbn.
      rewrite ?lookup_insert_eq. intros j [= <-]. apply same_job_refl.
    + unfold jobs_kept, submitted. cbn. apply Hgrow; right.
      * eexists _, _. split; [apply fresh_lookup_None | reflexivity].
      * eexists _, _. split; [apply fresh_lookup_None | reflexivity].
    + intros h n' [= -> ->]%list_elem_of_singleton.
      rewrite job_of_submitted_new. by eexists.
    + apply Hbase.
    + unfold jobs_kept, refused. cbn. apply Hgrow; right.
      * eexists _, _. split; [apply fresh_lookup_None | reflexivity].
      * eexists _, _. split; [apply fresh_lookup_None | reflexivity].
    + intros h n Hin. by apply not_elem_of_nil in Hin.
  - cbn [step] in Hstep.
    destruct (pool_complete_cases t fault w Hinv) as (w1 & Hc & Hcases).
    rewrite Hc in Hstep. injection Hstep as <- <-.
    split; [| split]; [| | intros h n Hin; by apply not_elem_of_nil in Hin].
    + destruct Hcases as [-> | (tk & Htk & Hst & Hcases)]; [exact Hid |].
      destruct Hcases as [(msg & _ & ->) | [(s & _ & Hs & ->) | [-> | ->]]].
      * unfold ident, faulted. cbn. apply ident_task; cbn.
        { intros j Hj. by eapply (ident_tasks _ _ _ _ Hid). }
        apply ident_schedule; [| exact Hid]. intros h jl jo j [=].
      * destruct (pool_completed_cases t tk s w Hs)
          as [(j' & -> & _ & _ & Hsame) | [-> | ->]].
        -- unfold ident, delivered. cbn. apply ident_task; cbn.
           { intros j. rewrite (job_of_alloc _ _ _ _ _ _ _ _ (fresh_lookup_None _) Hinv).
             intros Hj. by eapply (ident_tasks _ _ _ _ Hid). }
           apply ident_schedule.
           { intros h jl jo j [= <- <-]. rewrite lookup_insert_eq. intros [= <-].
             rewrite (job_of_alloc _ _ _ _ _ _ _ _ (fresh_lookup_None _) Hinv).
             intros Hj. eapply same_job_trans; [exact Hsame |].
             by eapply (ident_tasks _ _ _ _ Hid). }
           eapply ident_alloc; [apply fresh_lookup_None | exact Hinv | exact Hid].
        -- unfold ident, crashed. cbn. by apply Hstate.
        -- unfold ident. cbn. by apply Hstate.
      * unfold ident. cbn. by apply Hstate.
      * unfold ident. cbn. by apply Hstate.
    + destruct Hcases as [-> | (tk & Htk & Hst & Hcases)].
      { intros h j Hj. exists j. split; [done | apply same_job_refl]. }
      destruct Hcases as [(msg & _ & ->) | [(s & _ & Hs & ->) | [-> | ->]]].
      * unfold jobs_kept, faulted. cbn. apply Hgrow; by left.
      * destruct (pool_completed_cases t tk s w Hs)
          as [(j' & -> & _) | [-> | ->]].
        -- unfold jobs_kept, delivered. cbn. apply Hgrow; [right | by left].
           eexists _, _. split; [apply fresh_lookup_None | reflexivity].
        -- unfold jobs_kept. cbn. apply Hgrow; by left.
        -- unfold jobs_kept. cbn. apply Hgrow; by left.
      * unfold jobs_kept. cbn. apply Hgrow; by left.
      * unfold jobs_kept. cbn. apply Hgrow; by left.
  - cbn [step] in Hstep.
    pose proof (loop_run_once_cases w Hinv Hwired) as Hl.
    unfold ident in Hid.
    destruct (ready w) as [| [h jl | h e] rest] eqn:Hq.
    + rewrite Hl in Hstep. injection Hstep as <- <-.
      split; [| split]; [| | intros h n Hin; by apply not_elem_of_nil in Hin].
      * unfold ident. by rewrite Hq.
      * intros h j Hj. exists j. split; [done | apply same_job_refl].
    + destruct Hl as (hd & f & jo & n & s & Hhd & Hfut & Hjo & _ & _ & _ & Hl).
      rewrite Hl in Hstep. injection Hstep as <- <-.
      destruct (inv_handles _ _ _ _ _ Hinv h hd Hhd) as [(j & s' & Hj & _) _].
      split; [| split]; [| | intros h' n' Hin; by apply not_elem_of_nil in Hin].
      * unfold ident, resolved. cbn.
        eapply ident_install; [exact Hhd | reflexivity | exact Hjo | by eexists | exact Hid].
      * unfold jobs_kept, resolved. cbn.
        intros h' j0 Hj0. destruct (decide (h = h')) as [<- | Hne].
        -- exists jo. split.
           ++ unfold job_of. by rewrite lookup_insert_eq.
           ++ apply same_job_sym.
              eapply (ident_ready _ _ _ _ Hid h jl); [by left | done | done].
        -- exists j0. rewrite job_of_other by done.
           split; [done | apply same_job_refl].
    + destruct Hl as [_ Hl]. rewrite Hl in Hstep. injection Hstep as <- <-.
      split; [| split]; [| | intros h' n' Hin; by apply not_elem_of_nil in Hin].
      * unfold ident, dismissed. cbn. by eapply ident_tail.
      * intros h' j Hj. exists j. split; [done | apply same_job_refl].
  - cbn [step] in Hstep.
    destruct (WorkerPool.__exit__ w) as [[r w1] |] eqn:Hc; [| done].
    apply exit_frame in Hc as (_ & tr & ->).
    cbn in Hstep. injection Hstep as <- <-.
    split; [exact Hid |]. split.
    + intros h j Hj. exists j. split; [done | apply same_job_refl].
    + intros h n Hin. by apply not_elem_of_nil in Hin.
Qed.

Lemma ident_init (clk : nat -> datetime) : ident (WorkerPool.__init__ clk).
Proof.
  split; cbn.
  - intros t tk j. by rewrite lookup_empty.
  - intros h jl jo j Hin. by apply not_elem_of_nil in Hin.
Qed.

Lemma exec_ident (acts : list action) :
  forall w w' hs,
    inv w -> wired w -> ident w -> exec acts w = Some (w', hs) ->
    ident w' /\ jobs_kept w w' /\
    (forall h n, (h, n) ∈ hs ->
       exists j, job_of (heap w') (handles w') h = Some j /\ id j = n).
Proof.
  induction acts as [| a acts IH]; intros w w' hs Hinv Hwired Hid; cbn [exec].
  - intros [= <- <-]. split; [done |]. split.
    + intros h j Hj. exists j. split; [done | apply same_job_refl].
    + intros h n Hin. by apply not_elem_of_nil in Hin.
  - destruct (step a w) as [[w1 hs1] |] eqn:Hstep; [| done].
    destruct (exec acts w1) as [[w2 hs2] |] eqn:Hexec; [| done].
    intros [= <- <-].
    assert (Hinv1 : inv w1).
    { destruct (step_inv a w Hinv) as (w1' & hs1' & Hstep' & ? & _).
      rewrite Hstep in Hstep'. by injection Hstep' as <- <-. }
    pose proof (step_wired a w Hinv Hwired _ _ Hstep) as Hwired1.
    destruct (step_ident _ _ _ _ Hinv Hwired Hid Hstep) as (Hid1 & Hkept1 & Hnew1).
    destruct (IH _ _ _ Hinv1 Hwired1 Hid1 Hexec) as (Hid2 & Hkept2 & Hnew2).
    split; [done |]. split.
    + intros h j Hj. destruct (Hkept1 h j Hj) as (j1 & Hj1 & Hs1).
      destruct (Hkept2 h j1 Hj1) as (j2 & Hj2 & Hs2).
      exists j2. split; [done | by eapply same_job_trans].
    + intros h n [Hin | Hin]%elem_of_app; [| by apply Hnew2].
      destruct (Hnew1 h n Hin) as (j1 & Hj1 & Hn).
      destruct (Hkept2 h j1 Hj1) as (j2 & Hj2 & Hs2).
      exists j2. split; [done |]. destruct Hs2 as (Hid' & _). congruence.
Qed.

Lemma job_of_observed (w : world) (h : ref) (j : Job) :
  inv w -> job_of (heap w) (handles w) h = Some j ->
  JobHandle.job_id h w = Some (Ok (id j), w) /\
  exists s, stats j = Some s /\ JobHandle.stats h w = Some (Ok s, w).
Proof.
  intros Hinv. unfold job_of.
  destruct (handles w !! h) as [hd |] eqn:Hh; [| done]. intros Hj.
  destruct (inv_handles _ _ _ _ _ Hinv h hd Hh) as [(j' & s & Hj' & Hs) _].
  rewrite Hj in Hj'. injection Hj' as <-.
  split; [| exists s; split; [done |]]; hunfold; munfold; mrun; reflexivity.
Qed.

(** X7: along every run of a new pool, [job_id] of a handle returned by
    [submit] and [submitted_at] of its [stats] never change: they are the
    same at any two moments after the submission, whichever copy of the
    job the callbacks have installed in between. *)
Theorem X7_job_id_and_submitted_at_stable
    (clk : nat -> datetime) (acts1 acts2 : list action) :
  exists w1 hs1 w2 hs2,
    exec acts1 (WorkerPool.__init__ clk) = Some (w1, hs1) /\
    exec acts2 w1 = Some (w2, hs2) /\
    forall h n, (h, n) ∈ hs1 ->
      exists s1 s2,
        JobHandle.job_id h w1 = Some (Ok n, w1) /\
        JobHandle.job_id h w2 = Some (Ok n, w2) /\
        JobHandle.stats h w1 = Some (Ok s1, w1) /\
        JobHandle.stats h w2 = Some (Ok s2, w2) /\
        submitted_at s1 = submitted_at s2.
Proof.
  destruct (exec_inv acts1 _ (inv_init clk)) as (w1 & hs1 & Hexec1 & Hinv1 & _).
  destruct (exec_inv acts2 _ Hinv1) as (w2 & hs2 & Hexec2 & Hinv2 & _).
  exists w1, hs1, w2, hs2. split; [done |]. split; [done |].
  destruct (exec_wired _ _ (inv_init clk) (wired_init clk) _ _ Hexec1)
    as [_ Hwired1].
  destruct (exec_ident _ _ _ _ (inv_init clk) (wired_init clk) (ident_init clk) Hexec1)
    as (Hid1 & _ & Hnew1).
  destruct (exec_ident _ _ _ _ Hinv1 Hwired1 Hid1 Hexec2) as (_ & Hkept & _).
  intros h n Hin.
  destruct (Hnew1 h n Hin) as (j1 & Hj1 & <-).
  destruct (Hkept h j1 Hj1) as (j2 & Hj2 & (Hsid & _ & _ & Hsub)).
  destruct (job_of_observed _ _ _ Hinv1 Hj1) as (Hid_1 & s1 & Hs1 & Hst1).
  destruct (job_of_observed _ _ _ Hinv2 Hj2) as (Hid_2 & s2 & Hs2 & Hst2).
  exists s1, s2. rewrite Hsid at 2.
  repeat (split; [done |]).
  rewrite Hs1, Hs2 in Hsub. cbn in Hsub. congruence.
Qed.

(** ** A settled handle stays settled *)

Lemma loop_run_once_settled (w w' : world) (f : ref) (st : future) :
  loop_run_once w = Some w' ->
  futures w !! f = Some st -> st <> FPending ->
  futures w' !! f = Some st.
Proof.
  unfold loop_run_once. hunfold. munfold. intros H Hf Hst.
  crunch; cbn; try done;
    rewrite lookup_insert_ne; try done; intros <-; congruence.
Qed.

Lemma step_settled (a : action) (w w' : world) (hs : list (ref * Z))
                   (h : ref) (hd : handle) (f : ref) (st : future) :
  step a w = Some (w', hs) ->
  handles w !! h = Some hd -> _future hd = Some f ->
  futures w !! f = Some st -> st <> FPending ->
  (exists hd', handles w' !! h = Some hd' /\ _future hd' = Some f) /\
  futures w' !! f = Some st.
Proof.
  intros Hstep Hh Hfut Hf Hst.
  destruct a as [fn a | t fault | |]; [| cbn [step] in Hstep ..].
  - assert (Hw' : (exists n, w' = submitted fn n a w) \/
                   exists tr, w' = refused fn a tr w).
    { destruct (step_submit fn a w) as [(n & _ & _ & Hs) | (tr & _ & Hs)];
        rewrite Hs in Hstep; injection Hstep as <- <-; eauto. }
    assert (Hneh : fresh (dom (handles w)) <> h)
      by (intros <-; by rewrite fresh_lookup_None in Hh).
    assert (Hnef : fresh (dom (futures w)) <> f)
      by (intros <-; by rewrite fresh_lookup_None in Hf).
    destruct Hw' as [[n ->] | [tr ->]]; cbn; rewrite !lookup_insert_ne by done; eauto.
  - destruct (pool_complete t fault w) as [w1 |] eqn:Hc; [| done].
    injection Hstep as <- <-.
    destruct (pool_complete_frame _ _ _ _ Hc) as (_ & _ & -> & _ & _ & Hhandles).
    destruct (Hhandles h hd Hh) as (hd' & ? & _ & Hf').
    split; [| done]. exists hd'. split; [done | congruence].
  - destruct (loop_run_once w) as [w1 |] eqn:Hc; [| done].
    injection Hstep as <- <-. split.
    + destruct (loop_run_once_frame _ _ Hc) as (_ & _ & _ & _ & _ & Hhandles).
      destruct (Hhandles h hd Hh) as (hd' & ? & _ & Hf').
      exists hd'. split; [done | congruence].
    + by eapply loop_run_once_settled.
  - destruct (WorkerPool.__exit__ w) as [[r w1] |] eqn:Hc; [| done].
    apply exit_frame in Hc as (_ & tr & ->).
    cbn in Hstep. injection Hstep as <- <-. cbn. eauto.
Qed.

(** X8: what awaiting a handle has given once, it gives for ever: after a
    handle's future is resolved or rejected, no submission, completion,
    loop iteration or exit changes the outcome of awaiting the handle. *)
Theorem X8_awaited_outcome_is_final
    (acts : list action) (w w' : world) (hs : list (ref * Z))
    (h : ref) (r : res value) :
  exec acts w = Some (w', hs) ->
  AsyncJobHandle.__await__ h w = Some (Done r) ->
  AsyncJobHandle.__await__ h w' = Some (Done r).
Proof.
  intros Hexec Hawait.
  assert (Hsettled : exists hd f st,
            handles w !! h = Some hd /\ _future hd = Some f /\
            futures w !! f = Some st /\ st <> FPending).
  { hunfold. destruct (handles w !! h) as [hd |]; [| done].
    destruct (_future hd) as [f |] eqn:Hfut; [| done].
    destruct (futures w !! f) as [[| v | e] |] eqn:Hf; try done.
    - exists hd, f, (FResult v). by split_and!.
    - exists hd, f, (FException e). by split_and!. }
  destruct Hsettled as (hd & f & st & Hh & Hfut & Hf & Hst).
  assert (Hkeep : exists hd', handles w' !! h = Some hd' /\ _future hd' = Some f /\
                              futures w' !! f = Some st).
  { clear Hawait. revert w hs hd Hexec Hh Hfut Hf.
    induction acts as [| a acts IH]; intros w hs hd; cbn [exec].
    - intros [= <- <-]. eauto.
    - destruct (step a w) as [[w1 hs1] |] eqn:Hstep; [| done].
      destruct (exec acts w1) as [[w2 hs2] |] eqn:Hexec; [| done].
      intros [= <- <-] Hh Hfut Hf.
      destruct (step_settled _ _ _ _ _ _ _ _ Hstep Hh Hfut Hf Hst)
        as [(hd1 & Hh1 & Hfut1) Hf1].
      eapply IH; eauto. }
  destruct Hkeep as (hd' & Hh' & Hfut' & Hf').
  hunfold. rewrite Hh, Hfut, Hf in Hawait. by rewrite Hh', Hfut', Hf'.
Qed.


(** ** Instances *)

Lemma X1_submitter_jobs_never_written_witness :
  exists w2,
    exec [Complete 1%positive None; LoopRun] submitted_world = Some (w2, []) /\
    heap w2 !! 1%positive =
      Some (submitted_job add [VInt 2; VInt 3] (WorkerPool.__init__ steady_clock)).
Proof.
  assert (H : exists w2,
            exec [Complete 1%positive None; LoopRun] submitted_world = Some (w2, [])).
  { eexists. vm_compute. reflexivity. }
  destruct H as [w2 H]. exists w2. split; [exact H |].
  apply (X1_submitter_jobs_never_written _ _ _ _ 1%positive _ H). reflexivity.
Defined.

Lemma X2_submit_returns_pending_handle_witness :
  (exists h w1,
     WorkerPool.submit add [VInt 2; VInt 3] (WorkerPool.__init__ steady_clock)
       = Some (Ok h, w1) /\
     JobHandle.join h w1 = Some Blocked /\
     AsyncJobHandle.__await__ h w1 = Some Blocked) /\
  (exists w1,
     WorkerPool.submit partial_add [VInt 3] (WorkerPool.__init__ steady_clock)
       = Some (Err (PyExc AttributeError "object has no attribute '__name__'"), w1) /\
     tasks w1 = ∅ /\ pool_job_id w1 = 1).
Proof.
  split.
  - destruct (X2_submit_returns_pending_handle add [VInt 2; VInt 3]
                (WorkerPool.__init__ steady_clock) eq_refl)
      as (h & w1 & Hsub & Hjoin & Hawait & _).
    exists h, w1. split; [exact Hsub |]. split; [exact Hjoin | exact Hawait].
  - destruct (X2_submit_returns_pending_handle partial_add [VInt 3]
                (WorkerPool.__init__ steady_clock) eq_refl)
      as (w1 & Hsub & Htasks & _ & _ & Hid).
    exists w1. split; [exact Hsub |]. split; [exact Htasks | exact Hid].
Defined.

Lemma X3_on_success_installs_job_witness :
  exists w',
    JobHandle._on_success 1%positive 2%positive async_world = Some (Ok tt, w') /\
    handles w' !! 1%positive = Some (mkHandle 2%positive None (Some 1%positive)) /\
    trace w' = trace async_world ++ [Log_debug (LogFinished 1 "add" (total_seconds 1000))].
Proof.
  destruct (X3_on_success_installs_job async_world 1%positive 2%positive
              (mkHandle 1%positive None (Some 1%positive)) done_job eq_refl eq_refl)
    as (r & w' & Hrun & Hh & _ & _ & Hr).
  cbn in Hr. destruct Hr as [-> Htrace].
  exists w'. split; [exact Hrun |]. split; [exact Hh | exact Htrace].
Defined.

Lemma X4_stats_follow_the_loop_witness :
  exists h t w1 w2 w3,
    WorkerPool.submit add [VInt 2; VInt 3] (WorkerPool.__init__ steady_clock)
      = Some (Ok h, w1) /\
    pool_complete t None w1 = Some w2 /\
    JobHandle.stats h w2 = Some (Ok (mkJobStats 0 None None), w2) /\
    loop_run_once w2 = Some w3 /\
    JobHandle.stats h w3 = Some (Ok (mkJobStats 0 (Some 1000) (Some 2000)), w3).
Proof.
  destruct (X4_stats_follow_the_loop add "add" [VInt 2; VInt 3] (VInt 5)
              (WorkerPool.__init__ steady_clock)
              eq_refl eq_refl eq_refl eq_refl eq_refl)
    as (h & t & w1 & w2 & w3 & l & Hsub & Hc & _ & _ & Hs2 & Hl & Hs3).
  exists h, t, w1, w2, w3.
  split; [exact Hsub |]. split; [exact Hc |]. split; [exact Hs2 |].
  split; [exact Hl | exact Hs3].
Defined.

Lemma X5_pool_failure_reaches_join_only_witness :
  exists h t w1 w2 w3,
    WorkerPool.submit add [VInt 2; VInt 3] (WorkerPool.__init__ steady_clock)
      = Some (Ok h, w1) /\
    pool_complete t (Some "unpicklable") w1 = Some w2 /\
    loop_run_once w2 = Some w3 /\
    JobHandle.join h w3 = Some (Done (Err (PyExc MaybeEncodingError "unpicklable"))) /\
    AsyncJobHandle.__await__ h w3 = Some Blocked.
Proof.
  destruct (X5_pool_failure_reaches_join_only add "add" [VInt 2; VInt 3] "unpicklable"
              (WorkerPool.__init__ steady_clock) eq_refl eq_refl eq_refl eq_refl)
    as (h & t & w1 & w2 & w3 & Hsub & Hc & _ & Hl & Hjoin & Hawait & _).
  exists h, t, w1, w2, w3.
  split; [exact Hsub |]. split; [exact Hc |]. split; [exact Hl |].
  split; [exact Hjoin | exact Hawait].
Defined.

Lemma X6_terminated_pool_never_completes_witness :
  exists w',
    exec [Complete 1%positive None; Submit add []; LoopRun] terminated_world
      = Some (w', []) /\
    JobHandle.join 1%positive w' = Some Blocked.
Proof.
  assert (H : exists w',
            exec [Complete 1%positive None; Submit add []; LoopRun] terminated_world
              = Some (w', [])).
  { eexists. vm_compute. reflexivity. }
  destruct H as [w' H]. exists w'. split; [exact H |].
  destruct (X6_terminated_pool_never_completes _ terminated_world _ _ eq_refl H)
    as (_ & _ & Hjoin).
  eapply (Hjoin 1%positive _ 1%positive); reflexivity.
Defined.

Lemma X8_awaited_outcome_is_final_witness :
  AsyncJobHandle.__await__ 1%positive settled_world = Some (Done (Ok (VInt 5))) /\
  exists w',
    exec [Submit boom []; Complete 2%positive None; LoopRun; Exit] settled_world
      = Some (w', [(2%positive, 2)]) /\
    AsyncJobHandle.__await__ 1%positive w' = Some (Done (Ok (VInt 5))).
Proof.
  assert (Hawait : AsyncJobHandle.__await__ 1%positive settled_world
                   = Some (Done (Ok (VInt 5)))) by reflexivity.
  split; [exact Hawait |].
  assert (H : exists w',
            exec [Submit boom []; Complete 2%positive None; LoopRun; Exit] settled_world
              = Some (w', [(2%positive, 2)])).
  { eexists. vm_compute. reflexivity. }
  destruct H as [w' H]. exists w'. split; [exact H |].
  exact (X8_awaited_outcome_is_final _ _ _ _ _ _ H Hawait).
Defined.

(** ** The failure closure on a [JobFailedError] *)



(* ===================================================================== *)
(** * Properties of the service container                                 *)
(* ===================================================================== *)

(** ** Dictionaries *)

Lemma dict_get_set (k k' : string) (v : DI.dval) (d : DI.kwargs) :
  DI.dict_get k (DI.dict_set k' v d) =
    if decide (k = k') then Some v else DI.dict_get k d.
Proof.
  induction d as [| [k0 v0] d IH]; cbn.
  - destruct (decide (k = k')); done.
  - destruct (decide (k' = k0)) as [-> | Hne]; cbn.
    + destruct (decide (k = k0)); done.
    + destruct (decide (k = k0)) as [-> | Hne'].
      * by rewrite decide_False by done.
      * exact IH.
Qed.

Lemma dict_get_fold (k : string) (l acc : DI.kwargs) :
  DI.dict_get k (fold_left (fun d kv => DI.dict_set (fst kv) (snd kv) d) l acc) =
    match DI.dict_get k (rev l) with
    | Some v => Some v
    | None => DI.dict_get k acc
    end.
Proof.
  revert acc. induction l as [| [k0 v0] l IH]; intros acc; cbn; [done |].
  rewrite IH. clear IH.
  assert (Happ : forall l1,
            DI.dict_get k (l1 ++ [(k0, v0)]) =
              match DI.dict_get k l1 with
              | Some v => Some v
              | None => if decide (k = k0) then Some v0 else None
              end).
  { induction l1 as [| [k1 v1] l1 IH1]; cbn; [done |].
    destruct (decide (k = k1)); [done | exact IH1]. }
  rewrite Happ, dict_get_set.
  destruct (DI.dict_get k (rev l)); [done |].
  by destruct (decide (k = k0)).
Qed.

Lemma dict_get_None (k : string) (d : DI.kwargs) :
  DI.dict_get k d = None <-> k ∉ (fst <$> d).
Proof.
  induction d as [| [k0 v0] d IH]; cbn.
  - split; [intros _; apply not_elem_of_nil | done].
  - rewrite not_elem_of_cons. destruct (decide (k = k0)); [| tauto].
    split; [done | tauto].
Qed.

Lemma dict_get_rev (k : string) (d : DI.kwargs) :
  DI.is_dict d -> DI.dict_get k (rev d) = DI.dict_get k d.
Proof.
  unfold DI.is_dict. induction d as [| [k0 v0] d IH]; cbn; [done |].
  rewrite NoDup_cons. intros [Hnot Hnd]. specialize (IH Hnd).
  assert (Happ : forall l1,
            DI.dict_get k (l1 ++ [(k0, v0)]) =
              match DI.dict_get k l1 with
              | Some v => Some v
              | None => if decide (k = k0) then Some v0 else None
              end).
  { induction l1 as [| [k1 v1] l1 IH1]; cbn; [done |].
    destruct (decide (k = k1)); [done | exact IH1]. }
  rewrite Happ, IH. destruct (decide (k = k0)) as [-> | Hne].
  - apply dict_get_None in Hnot. by rewrite Hnot.
  - by destruct (DI.dict_get k d).
Qed.

Lemma dict_get_merge (k : string) (d1 d2 : DI.kwargs) :
  DI.is_dict d1 -> DI.is_dict d2 ->
  DI.dict_get k (DI.dict_merge d1 d2) =
    match DI.dict_get k d2 with
    | Some v => Some v
    | None => DI.dict_get k d1
    end.
Proof.
  intros H1 H2. unfold DI.dict_merge. rewrite dict_get_fold, rev_app_distr. cbn.
  assert (Happ : forall l1 l2,
            DI.dict_get k (l1 ++ l2) =
              match DI.dict_get k l1 with
              | Some v => Some v
              | None => DI.dict_get k l2
              end).
  { induction l1 as [| [k1 v1] l1 IH1]; intros l2; cbn; [done |].
    destruct (decide (k = k1)); [done | apply IH1]. }
  rewrite Happ, !dict_get_rev by done.
  by destruct (DI.dict_get k d2), (DI.dict_get k d1).
Qed.

Lemma plain_set (k : string) (v : DI.dval) (d : DI.kwargs) :
  DI.is_plain v = true -> DI.plain d -> DI.plain (DI.dict_set k v d).
Proof.
  intros Hv. unfold DI.plain. induction d as [| [k0 v0] d IH]; cbn.
  - intros _. by constructor.
  - rewrite Forall_cons. intros [H0 Hd].
    destruct (decide (k = k0)); constructor; auto.
Qed.

Lemma plain_merge (d1 d2 : DI.kwargs) :
  DI.plain d1 -> DI.plain d2 -> DI.plain (DI.dict_merge d1 d2).
Proof.
  intros H1 H2. unfold DI.dict_merge.
  assert (Hall : DI.plain (d1 ++ d2)) by (by apply Forall_app).
  assert (Hacc : DI.plain []) by constructor.
  revert Hall Hacc. generalize (d1 ++ d2) (@nil (string * DI.dval)).
  induction l as [| [k v] l IH]; intros acc Hl Hacc; cbn; [done |].
  apply Forall_cons in Hl as [Hv Hl]. apply IH; [done |]. by apply plain_set.
Qed.

Lemma resolve_items_plain (call : ref -> DI.M DI.dval) (items : DI.kwargs) (w : DI.store) :
  DI.plain items -> DI.resolve_items call items w = Some (DI.Ok items, w).
Proof.
  unfold DI.plain. induction items as [| [k v] items IH]; cbn; [done |].
  rewrite Forall_cons. intros [Hv Hitems].
  destruct v; try discriminate; unfold DI.bind; by rewrite IH.
Qed.

(** ** Calling services *)

Arguments DI.dict_merge : simpl never.

Ltac dunfold :=
  unfold DI.set_factory, DI._resolve_deps, DI.call_host, DI.getattr,
    DI.get_manager, DI.get_service, DI.put_service, DI.new_service,
    DI.modify, DI.bind, DI.ret, DI.raise, DI.no_result,
    DI.record, DI.with_services, DI.with_gens, DI.with_ctxs,
    DI.with_managers in *.

Ltac drun :=
  repeat first
    [ progress cbn
    | rewrite lookup_insert_eq
    | rewrite fresh_lookup_None
    | rewrite resolve_items_plain
        by (try apply plain_merge; first [done | by constructor])
    | match goal with
      | H : _ !! _ = _ |- _ => rewrite H
      | H : DI.body _ _ = _ |- _ => rewrite H
      end ].

(** X9: a [transient] whose dependencies are plain values calls its factory
    at every call, keeps nothing, and passes it the call-time dependencies
    overridden by those given at construction: for a name given both ways
    the factory receives the construction-time value. *)
Theorem X9_transient_calls_factory_with_merged_deps
    (n : nat) (w : DI.store) (s : ref) (f : DI.callable) (d deps : DI.kwargs)
    (v : DI.dval) :
  DI.services w !! s = Some (DI.transient (DI.FHost f) d) ->
  DI.plain d -> DI.plain deps -> DI.is_dict d -> DI.is_dict deps ->
  DI.body f (DI.dict_merge deps d) = DI.PVal v ->
  DI.call_service (S n) s deps w =
    Some (DI.Ok v, DI.record (DI.Called (DI.__name__ f) (DI.dict_merge deps d)) w) /\
  forall k,
    DI.dict_get k (DI.dict_merge deps d) =
      match DI.dict_get k d with
      | Some x => Some x
      | None => DI.dict_get k deps
      end.
Proof.
  intros Hs Hd Hdeps Hnd Hndeps Hbody.
  split; [| intros k; by apply dict_get_merge].
  cbn [DI.call_service]. dunfold. drun. reflexivity.
Qed.

(** X10: once a call of a [singleton] has returned a value other than
    [None], every later call returns that value, whatever dependencies it
    is given, without calling the factory, resolving a dependency or
    changing anything. *)
Theorem X10_singleton_returns_cached_instance
    (fuel fuel' : nat) (w w1 : DI.store) (s : ref)
    (f : DI.fact) (d : DI.kwargs) (inst v : DI.dval) (deps deps' : DI.kwargs) :
  DI.services w !! s = Some (DI.singleton f d inst) ->
  DI.call_service fuel s deps w = Some (DI.Ok v, w1) ->
  v <> DI.DNone ->
  DI.call_service (S fuel') s deps' w1 = Some (DI.Ok v, w1).
Proof.
  intros Hs Hcall Hv. destruct fuel as [| n]; [done |].
  cbn [DI.call_service] in Hcall. unfold DI.bind at 1 in Hcall.
  unfold DI.get_service in Hcall. rewrite Hs in Hcall.
  assert (Hcached : DI.services w1 !! s = Some (DI.singleton f d v)).
  { destruct inst; try (injection Hcall as <- <-; exact Hs).
    unfold DI.bind at 1 in Hcall.
    destruct (DI.bind _ _ w) as [[[v0 | e] w0] |]; [| done | done].
    dunfold. cbn in Hcall. injection Hcall as <- <-. cbn.
    by rewrite lookup_insert_eq. }
  cbn [DI.call_service]. dunfold. rewrite Hcached.
  by destruct v.
Qed.

(** X11: a [singleton] whose factory returns [None] keeps no instance: each
    call calls the factory again. *)
Theorem X11_singleton_does_not_cache_None
    (n : nat) (w : DI.store) (s : ref) (f : DI.callable) (d deps : DI.kwargs) :
  DI.services w !! s = Some (DI.singleton (DI.FHost f) d DI.DNone) ->
  DI.plain d -> DI.plain deps ->
  DI.body f (DI.dict_merge deps d) = DI.PVal DI.DNone ->
  exists w1,
    DI.call_service (S n) s deps w = Some (DI.Ok DI.DNone, w1) /\
    DI.services w1 !! s = Some (DI.singleton (DI.FHost f) d DI.DNone) /\
    DI.log w1 = DI.log w ++ [DI.Called (DI.__name__ f) (DI.dict_merge deps d)] /\
    DI.calls_of (DI.__name__ f) (DI.log w1) = S (DI.calls_of (DI.__name__ f) (DI.log w)).
Proof.
  intros Hs Hd Hdeps Hbody.
  cbn [DI.call_service]. dunfold. drun.
  eexists. split; [reflexivity |]. cbn. rewrite lookup_insert_eq.
  split; [done |]. split; [done |].
  unfold DI.calls_of. rewrite List.filter_app, length_app. cbn.
  rewrite bool_decide_eq_true_2 by done. cbn. lia.
Qed.

(** ** What a call leaves untouched *)

Lemma frame_refl (w : DI.store) : DI.frame w w.
Proof. split; [done |]. intros s x Hs. by destruct x. Qed.

Lemma frame_trans (w1 w2 w3 : DI.store) :
  DI.frame w1 w2 -> DI.frame w2 w3 -> DI.frame w1 w3.
Proof.
  intros [Hm1 Hs1] [Hm2 Hs2]. split; [congruence |].
  intros s x Hs. specialize (Hs1 s x Hs).
  destruct x; try done; by apply (Hs2 s _ Hs1).
Qed.

Lemma frame_same (w w' : DI.store) :
  DI.managers w' = DI.managers w -> DI.services w' = DI.services w -> DI.frame w w'.
Proof.
  intros Hm Hs. split; [done |]. intros s x Hx. rewrite Hs. by destruct x.
Qed.

Lemma frame_singleton (w : DI.store) (s : ref) (f : DI.fact) (d : DI.kwargs)
                      (i i' : DI.dval) :
  DI.services w !! s = Some (DI.singleton f d i) ->
  DI.frame w (DI.with_services (insert s (DI.singleton f d i')) w).
Proof.
  intros Hs. split; [done |]. intros s' x Hx. cbn.
  destruct (decide (s = s')) as [<- | Hne].
  - rewrite Hs in Hx. by injection Hx as <-.
  - rewrite lookup_insert_ne by done. by destruct x.
Qed.

Lemma call_host_frame (f : DI.callable) (kw : DI.kwargs) (w w' : DI.store)
                      (r : DI.res DI.dval) :
  DI.call_host f kw w = Some (r, w') -> DI.frame w w'.
Proof.
  dunfold. cbn. destruct (DI.body f kw); intros [= <- <-]; by apply frame_same.
Qed.

Lemma resolve_items_frame (call : ref -> DI.M DI.dval) (items : DI.kwargs) :
  (forall s w r w', call s w = Some (r, w') -> DI.frame w w') ->
  forall w r w', DI.resolve_items call items w = Some (r, w') -> DI.frame w w'.
Proof.
  intros Hcall. induction items as [| [k v] items IH]; intros w r w'; cbn.
  - intros [= <- <-]. apply frame_refl.
  - destruct v; unfold DI.bind;
      try (destruct (DI.resolve_items call items w) as [[[x | e] w0] |] eqn:Hr;
           [| | done]; intros [= <- <-]; by eapply IH).
    destruct (call s w) as [[[x | e] w0] |] eqn:Hc; [| | done].
    + destruct (DI.resolve_items call items w0) as [[[x' | e] w1] |] eqn:Hr;
        [| | done]; intros [= <- <-];
        (eapply frame_trans; [by eapply Hcall | by eapply IH]).
    + intros [= <- <-]. by eapply Hcall.
Qed.

Lemma call_service_frame (fuel : nat) :
  forall s deps w r w',
    DI.call_service fuel s deps w = Some (r, w') -> DI.frame w w'.
Proof.
  induction fuel as [| n IH]; intros s deps w r w'; [done |].
  assert (Hres : forall d0 deps0 w0 r0 w0',
            DI._resolve_deps (fun s0 => DI.call_service n s0 []) d0 deps0 w0
              = Some (r0, w0') -> DI.frame w0 w0').
  { intros d0 deps0 w0 r0 w0'. unfold DI._resolve_deps.
    apply resolve_items_frame. intros s0 w1 r1 w1'. apply IH. }
  assert (Hfact : forall f kw w0 r0 w0',
            match f with
            | DI.FHost h => DI.call_host h kw
            | DI.FSvc s0 => DI.call_service n s0 kw
            end w0 = Some (r0, w0') -> DI.frame w0 w0').
  { intros [h | s0] kw w0 r0 w0'; [apply call_host_frame | apply IH]. }
  cbn [DI.call_service]. unfold DI.bind at 1, DI.get_service.
  destruct (DI.services w !! s) as [svc |] eqn:Hs; [| done].
  destruct svc as [v | f d | f d inst | f | parent attr | f d | init d fct].
  - intros [= <- <-]. apply frame_refl.
  - unfold DI.bind.
    destruct (DI._resolve_deps _ d deps w) as [[[kw | e] w0] |] eqn:Hr; [| | done].
    + intros Hf. eapply frame_trans; [by eapply Hres | by eapply Hfact].
    + intros [= <- <-]. by eapply Hres.
  - assert (Hfill : forall r0 w0',
              DI.bind (DI.bind (DI._resolve_deps (fun s0 => DI.call_service n s0 []) d deps)
                         (fun kw => match f with
                                    | DI.FHost h => DI.call_host h kw
                                    | DI.FSvc s0 => DI.call_service n s0 kw
                                    end))
                      (fun v => DI.bind (DI.put_service s (DI.singleton f d v))
                                  (fun _ => DI.ret v)) w = Some (r0, w0') ->
              DI.frame w w0').
    { intros r0 w0'. unfold DI.bind at 1.
      destruct (DI.bind (DI._resolve_deps _ d deps) _ w) as [[[v | e] w1] |] eqn:Hcf;
        [| | done].
      - assert (Hf1 : DI.frame w w1).
        { unfold DI.bind in Hcf.
          destruct (DI._resolve_deps _ d deps w) as [[[kw | e] w2] |] eqn:Hr;
            [| | done].
          - eapply frame_trans; [by eapply Hres | by eapply Hfact].
          - discriminate. }
        dunfold. cbn. intros [= <- <-].
        split; [by destruct Hf1 |]. intros s' x Hx. cbn.
        destruct Hf1 as [_ Hf1]. specialize (Hf1 s' x Hx).
        destruct x; try done; (rewrite lookup_insert_ne; [done |]);
          intros <-; rewrite Hs in Hx; discriminate.
      - intros [= <- <-]. unfold DI.bind in Hcf.
        destruct (DI._resolve_deps _ d deps w) as [[[kw | e'] w2] |] eqn:Hr;
          [| | done].
        + eapply frame_trans; [by eapply Hres | by eapply Hfact].
        + injection Hcf as <- <-. by eapply Hres. }
    destruct inst; try (intros [= <- <-]; apply frame_refl). apply Hfill.
  - apply Hfact.
  - unfold DI.bind.
    destruct (DI.call_service n parent [] w) as [[[v | e] w0] |] eqn:Hp; [| | done].
    + intros Hg. eapply frame_trans; [by eapply IH |].
      unfold DI.getattr in Hg. dunfold.
      destruct v; try done. destruct (DI.dict_get attr attrs);
        injection Hg as <- <-; apply frame_refl.
    + intros [= <- <-]. by eapply IH.
  - unfold DI.bind.
    destruct (DI._resolve_deps _ d deps w) as [[[kw | e] w0] |] eqn:Hr; [| | done];
      intros [= <- <-]; by eapply Hres.
  - destruct fct as [v |]; [| intros [= <- <-]; apply frame_refl].
    unfold DI.bind.
    destruct (DI._resolve_deps _ d [] w) as [[[kw | e] w0] |] eqn:Hr; [| | done].
    + intros Hv. eapply frame_trans; [by eapply Hres | by eapply IH].
    + intros [= <- <-]. by eapply Hres.
Qed.

(** ** resource *)

Ltac dsetup :=
  unfold DI.setup, DI.dispose, DI.gen_next, DI.ctx_enter, DI.ctx_exit in *.

Lemma fresh_ne {A} (m : gmap positive A) (k : positive) (x : A) :
  m !! k = Some x -> fresh (dom m) <> k.
Proof. intros Hk Heq. rewrite <- Heq, fresh_lookup_None in Hk. discriminate. Qed.

(** X12: the life of a resource whose initializer is a generator that
    yields [v]. Before [setup] a call raises "resource not initialized";
    [setup] runs the generator to its first yield and a call then returns
    [v], whatever dependencies it is given; the disposer first makes the
    resource uninitialized again, then resumes the generator once and
    returns normally whether the generator ends ([StopIteration] is
    swallowed) or yields again. *)
Theorem X12_resource_generator_lifecycle
    (n fuel : nat) (w : DI.store) (r : ref) (init : DI.callable)
    (d deps : DI.kwargs) (v : DI.dval) (rest : list DI.seg) (exc : option DI.dexn) :
  DI.services w !! r = Some (DI.resource init d None) ->
  DI.plain d ->
  DI.body init (DI.dict_merge [] d) = DI.PGen (DI.SYield v :: rest) ->
  match rest with DI.SRaise _ :: _ => False | _ => True end ->
  DI.call_service (S n) r deps w =
    Some (DI.Err (DI.RuntimeError "resource not initialized"), w) /\
  exists g w1 w2,
    DI.setup fuel r w = Some (DI.Ok (DI.dispose_generator r g), w1) /\
    DI.initialized w1 r v /\
    DI.call_service (S (S n)) r deps w1 = Some (DI.Ok v, w1) /\
    DI.dispose (DI.dispose_generator r g) exc w1 = Some (DI.Ok tt, w2) /\
    DI.uninitialized w2 r /\
    DI.call_service (S n) r deps w2 =
      Some (DI.Err (DI.RuntimeError "resource not initialized"), w2) /\
    DI.log w2 = DI.log w ++ [DI.Called (DI.__name__ init) (DI.dict_merge [] d);
                             DI.Resumed g; DI.Resumed g].
Proof.
  intros Hr Hd Hbody Hrest.
  assert (Hne : fresh (dom (DI.services w)) <> r) by (by eapply fresh_ne).
  split; [cbn [DI.call_service]; dunfold; by rewrite Hr |].
  destruct rest as [| [v' | e'] rest']; [| | done];
    exists (fresh (dom (DI.gens w))); eexists; eexists;
    (split; [dsetup; dunfold; drun; rewrite lookup_insert_ne by done; drun; reflexivity |]);
    (split; [eexists _, _, _; cbn; rewrite lookup_insert_eq; split; [reflexivity |];
             rewrite lookup_insert_ne by done; by rewrite lookup_insert_eq |]);
    (split; [cbn [DI.call_service]; dunfold; drun;
             rewrite lookup_insert_ne by congruence; rewrite lookup_insert_eq;
             drun; reflexivity |]);
    (split; [dsetup; dunfold; drun; reflexivity |]);
    (split; [eexists _, _; cbn; by rewrite lookup_insert_eq |]);
    (split; [cbn [DI.call_service]; dunfold; drun; reflexivity |]);
    cbn; by rewrite <- !app_assoc.
Qed.

(** ** setup_resources *)

Lemma sound_initializer_fun (exc : option DI.dexn) (p : DI.produced) (v v' : DI.dval) :
  DI.sound_initializer exc p v -> DI.sound_initializer exc p v' -> v = v'.
Proof.
  destruct p as [x | [| [y | e] rest] | cm | e]; cbn; try done.
  - by intros [<- _] [<- _].
  - intros [H1 _] [H2 _]. congruence.
Qed.

Lemma ready_fun (exc : option DI.dexn) (w : DI.store) (r : ref) (v v' : DI.dval) :
  DI.ready exc w r v -> DI.ready exc w r v' -> v = v'.
Proof.
  intros (init & d & f & Hr & _ & Hs) (init' & d' & f' & Hr' & _ & Hs').
  rewrite Hr in Hr'. injection Hr' as <- <- <-. by eapply sound_initializer_fun.
Qed.

(** The services of a store after [resource.setup] has installed the
    instance of [r]. *)
Section SetUp.
Variables (w : DI.store) (r : ref) (init : DI.callable) (d : DI.kwargs)
          (f : option ref) (v : DI.dval).
Hypothesis Hr : DI.services w !! r = Some (DI.resource init d f).

Lemma setup_services_kept (x : ref) (y : DI.service) :
  DI.services w !! x = Some y -> x <> r ->
  <[r := DI.resource init d (Some (fresh (dom (DI.services w))))]>
    (<[fresh (dom (DI.services w)) := DI.value v]> (DI.services w)) !! x = Some y.
Proof.
  intros Hx Hne.
  rewrite lookup_insert_ne by done.
  rewrite lookup_insert_ne; [done |]. by eapply fresh_ne.
Qed.

Lemma setup_services_resource (x : ref) (init' : DI.callable) (d' : DI.kwargs)
                              (f' : option ref) :
  DI.services w !! x = Some (DI.resource init' d' f') ->
  exists f'',
    <[r := DI.resource init d (Some (fresh (dom (DI.services w))))]>
      (<[fresh (dom (DI.services w)) := DI.value v]> (DI.services w)) !! x
    = Some (DI.resource init' d' f'').
Proof.
  intros Hx. destruct (decide (x = r)) as [-> | Hne].
  - rewrite Hr in Hx. injection Hx as <- <- <-.
    eexists. by rewrite lookup_insert_eq.
  - eexists. by apply setup_services_kept.
Qed.

Lemma setup_services_initialized :
  <[r := DI.resource init d (Some (fresh (dom (DI.services w))))]>
    (<[fresh (dom (DI.services w)) := DI.value v]> (DI.services w)) !! r
  = Some (DI.resource init d (Some (fresh (dom (DI.services w))))) /\
  <[r := DI.resource init d (Some (fresh (dom (DI.services w))))]>
    (<[fresh (dom (DI.services w)) := DI.value v]> (DI.services w))
    !! fresh (dom (DI.services w))
  = Some (DI.value v).
Proof.
  rewrite lookup_insert_eq. split; [done |].
  rewrite lookup_insert_ne by (intros Heq; by eapply fresh_ne).
  by rewrite lookup_insert_eq.
Qed.

End SetUp.

Lemma setup_ready (exc : option DI.dexn) (fuel : nat) (w : DI.store) (r : ref)
                  (v : DI.dval) :
  DI.ready exc w r v ->
  exists d1 w1,
    DI.setup fuel r w = Some (DI.Ok d1, w1) /\
    DI.disposer_self d1 = r /\
    DI.armed exc w1 d1 /\
    DI.initialized w1 r v /\
    DI.managers w1 = DI.managers w /\
    (forall d0, DI.armed exc w d0 ->
       DI.armed exc w1 d0 /\ DI.initializer_of d0 <> DI.initializer_of d1) /\
    (forall r' v', DI.ready exc w r' v' -> DI.ready exc w1 r' v') /\
    (forall r' v', r' <> r -> DI.initialized w r' v' -> DI.initialized w1 r' v') /\
    (forall x i dd f0, DI.services w !! x = Some (DI.resource i dd f0) ->
       exists f1, DI.services w1 !! x = Some (DI.resource i dd f1)).
Proof.
  intros (init & d & f & Hr & Hd & Hs).
  assert (Hne : fresh (dom (DI.services w)) <> r) by (by eapply fresh_ne).
  assert (Hres : forall w1,
            DI.services w1 =
              <[r := DI.resource init d (Some (fresh (dom (DI.services w))))]>
                (<[fresh (dom (DI.services w)) := DI.value v]> (DI.services w)) ->
            DI.initialized w1 r v /\
            (forall x, DI.is_resource w x -> DI.is_resource w1 x) /\
            (forall r' v', DI.ready exc w r' v' -> DI.ready exc w1 r' v') /\
            (forall r' v', r' <> r -> DI.initialized w r' v' -> DI.initialized w1 r' v') /\
            (forall x i dd f0, DI.services w !! x = Some (DI.resource i dd f0) ->
               exists f1, DI.services w1 !! x = Some (DI.resource i dd f1))).
  { intros [sv g c m l] Hsv. cbn in Hsv. subst sv.
    unfold DI.initialized, DI.is_resource, DI.ready. cbn [DI.services].
    split; [| split; [| split; [| split]]];
      [| | | | intros x i dd f0 Hx; by eapply setup_services_resource].
    - eexists _, _, _. by eapply setup_services_initialized.
    - intros x (i & dd & f0 & Hx).
      destruct (setup_services_resource w r init d f v Hr x i dd f0 Hx) as [f1 H1].
      by eexists _, _, _.
    - intros r' v' (i & dd & f0 & Hx & Hdd & Hss).
      destruct (setup_services_resource w r init d f v Hr r' i dd f0 Hx) as [f1 H1].
      by eexists _, _, _.
    - intros r' v' Hr' (i & dd & f0 & Hx & Hf0).
      exists i, dd, f0. split.
      + by eapply setup_services_kept.
      + eapply setup_services_kept; [exact Hf0 |]. intros ->. rewrite Hr in Hf0. done. }
  unfold DI.sound_initializer in Hs.
  destruct (DI.body init (DI.dict_merge [] d)) as [x | [| [y | e] rest] | cm | e] eqn:Hbody;
    try done.
  - destruct Hs as [-> Hq].
    exists (DI.dispose_generator r (fresh (dom (DI.gens w)))). eexists.
    split; [dsetup; dunfold; drun; rewrite lookup_insert_ne by done; drun; reflexivity |].
    split; [done |].
    match goal with
    | |- DI.armed _ ?w1 _ /\ _ => destruct (Hres w1 eq_refl) as (Hi & Hisr & Hrd & Hkeep & Hsame)
    end.
    split; [| split; [exact Hi | split; [done | split;
      [| split; [exact Hrd | split; [exact Hkeep | exact Hsame]]]]]].
    + split; [apply Hisr; by eexists _, _, _ |].
      exists rest. cbn. by rewrite lookup_insert_eq.
    + intros d0 [Hself Hst]. split; [split; [by apply Hisr |] |].
      * destruct d0 as [s0 g0 | s0 c0]; [| exact Hst].
        destruct Hst as (rest0 & Hg0 & Hq0). exists rest0. split; [| done]. cbn.
        rewrite !lookup_insert_ne; [done | |]; by eapply fresh_ne.
      * destruct d0 as [s0 g0 | s0 c0]; [| done].
        destruct Hst as (rest0 & Hg0 & Hq0). cbn. intros [= ->].
        by rewrite fresh_lookup_None in Hg0.
  - destruct Hs as [Hen (x & Hex)].
    exists (DI.dispose_context r (fresh (dom (DI.ctxs w)))). eexists.
    split; [dsetup; dunfold; drun; rewrite Hen; drun;
            rewrite lookup_insert_ne by done; drun; reflexivity |].
    split; [done |].
    match goal with
    | |- DI.armed _ ?w1 _ /\ _ => destruct (Hres w1 eq_refl) as (Hi & Hisr & Hrd & Hkeep & Hsame)
    end.
    split; [| split; [exact Hi | split; [done | split;
      [| split; [exact Hrd | split; [exact Hkeep | exact Hsame]]]]]].
    + split; [apply Hisr; by eexists _, _, _ |].
      exists cm, x. cbn. by rewrite lookup_insert_eq.
    + intros d0 [Hself Hst]. split; [split; [by apply Hisr |] |].
      * destruct d0 as [s0 g0 | s0 c0]; [exact Hst |].
        destruct Hst as (cm0 & x0 & Hc0 & Hx0). exists cm0, x0. split; [| done]. cbn.
        rewrite lookup_insert_ne; [done |]. by eapply fresh_ne.
      * destruct d0 as [s0 g0 | s0 c0]; [done |].
        destruct Hst as (cm0 & x0 & Hc0 & Hx0). cbn. intros [= ->].
        by rewrite fresh_lookup_None in Hc0.
Qed.

Lemma dispose_armed (exc : option DI.dexn) (w : DI.store) (d : DI.disposer) :
  DI.armed exc w d ->
  exists w1,
    DI.dispose d exc w = Some (DI.Ok tt, w1) /\
    DI.uninitialized w1 (DI.disposer_self d) /\
    DI.managers w1 = DI.managers w /\
    DI.log w1 = DI.log w ++ [DI.disposal_event exc d] /\
    (forall d0, DI.armed exc w d0 -> DI.initializer_of d0 <> DI.initializer_of d ->
       DI.armed exc w1 d0) /\
    (forall r, DI.uninitialized w r -> DI.uninitialized w1 r).
Proof.
  intros [(init & dd & f & Hself) Hst].
  assert (Hres : forall w1,
            DI.services w1 =
              <[DI.disposer_self d := DI.resource init dd None]> (DI.services w) ->
            DI.uninitialized w1 (DI.disposer_self d) /\
            (forall x, DI.is_resource w x -> DI.is_resource w1 x) /\
            (forall r, DI.uninitialized w r -> DI.uninitialized w1 r)).
  { intros [sv g c m l] Hsv. cbn in Hsv. subst sv.
    unfold DI.uninitialized, DI.is_resource. cbn [DI.services].
    split; [| split].
    - eexists _, _. by rewrite lookup_insert_eq.
    - intros x (i & d0 & f0 & Hx).
      destruct (decide (x = DI.disposer_self d)) as [-> | Hne].
      + eexists _, _, _. by rewrite lookup_insert_eq.
      + eexists _, _, _. by rewrite lookup_insert_ne.
    - intros x (i & d0 & Hx).
      destruct (decide (x = DI.disposer_self d)) as [-> | Hne].
      + eexists _, _. by rewrite lookup_insert_eq.
      + eexists _, _. by rewrite lookup_insert_ne. }
  destruct d as [r g | r c]; cbn in Hself.
  - destruct Hst as (rest & Hg & Hq).
    assert (Hrun : exists st,
              DI.dispose (DI.dispose_generator r g) exc w =
                Some (DI.Ok tt,
                      DI.record (DI.Resumed g)
                        (DI.with_gens (insert g st)
                           (DI.with_services (insert r (DI.resource init dd None)) w)))).
    { destruct rest as [| [y | e] rest']; [| | done]; eexists;
        dsetup; dunfold; drun; reflexivity. }
    destruct Hrun as [st Hrun]. eexists. split; [exact Hrun |].
    match goal with
    | |- DI.uninitialized ?w1 _ /\ _ => destruct (Hres w1 eq_refl) as (Hu & Hisr & Hkeep)
    end.
    split; [exact Hu |]. split; [done |]. split; [done |]. split; [| exact Hkeep].
    intros d0 [Hself0 Hst0] Hne. split; [by apply Hisr |].
    destruct d0 as [s0 g0 | s0 c0]; [| exact Hst0].
    destruct Hst0 as (rest0 & Hg0 & Hq0). exists rest0. split; [| done]. cbn.
    rewrite lookup_insert_ne; [done |]. intros ->. by apply Hne.
  - destruct Hst as (cm & x & Hc & Hx).
    eexists. split; [dsetup; dunfold; drun; rewrite Hx; reflexivity |].
    match goal with
    | |- DI.uninitialized ?w1 _ /\ _ => destruct (Hres w1 eq_refl) as (Hu & Hisr & Hkeep)
    end.
    split; [exact Hu |]. split; [done |]. split; [done |]. split; [| exact Hkeep].
    intros d0 [Hself0 Hst0] Hne. split; [by apply Hisr | exact Hst0].
Qed.

Lemma exit_loop_armed (exc : option DI.dexn) (ds : list DI.disposer) :
  forall w,
    Forall (DI.armed exc w) ds -> NoDup (DI.initializer_of <$> ds) ->
    exists w',
      DI.exit_loop ds exc w = Some (DI.Ok tt, w') /\
      DI.managers w' = DI.managers w /\
      DI.log w' = DI.log w ++ (DI.disposal_event exc <$> ds) /\
      (forall d, d ∈ ds -> DI.uninitialized w' (DI.disposer_self d)) /\
      (forall r, DI.uninitialized w r -> DI.uninitialized w' r).
Proof.
  induction ds as [| d ds IH]; intros w Harmed Hnd.
  - exists w. cbn. rewrite app_nil_r. split; [done |]. split; [done |].
    split; [done |]. split; [| done]. intros d Hd. by apply elem_of_nil in Hd.
  - apply Forall_cons in Harmed as [Hd Hds]. cbn in Hnd.
    apply NoDup_cons in Hnd as [Hnotin Hnd].
    destruct (dispose_armed exc w d Hd) as (w1 & Hrun & Hu & Hm & Hlog & Hkeep & Hun).
    destruct (IH w1) as (w' & Hrun' & Hm' & Hlog' & Hu' & Hun'); [| done |].
    { rewrite Forall_forall in Hds |- *. intros d0 Hd0. apply Hkeep; [by apply Hds |].
      intros Heq. apply Hnotin. rewrite <- Heq. by apply list_elem_of_fmap_2. }
    exists w'. cbn [DI.exit_loop]. unfold DI.bind. rewrite Hrun.
    split; [exact Hrun' |]. split; [congruence |].
    split; [rewrite Hlog', Hlog; cbn; by rewrite <- app_assoc |].
    split; [| intros r Hr; by apply Hun', Hun].
    intros d0 Hd0. apply elem_of_cons in Hd0 as [-> | Hd0]; [by apply Hun' | by apply Hu'].
Qed.

Lemma enter_loop_ready (exc : option DI.dexn) (fuel : nat) (m : ref) (all : list ref)
                       (rs : list ref) :
  forall w ds0,
    DI.managers w !! m = Some (DI.mkManager all ds0) ->
    Forall (fun r => exists v, DI.ready exc w r v) rs ->
    Forall (DI.armed exc w) ds0 -> NoDup (DI.initializer_of <$> ds0) ->
    exists ds w',
      DI.enter_loop fuel m rs w = Some (DI.Ok tt, w') /\
      DI.managers w' !! m = Some (DI.mkManager all (ds0 ++ ds)) /\
      DI.disposer_self <$> ds = rs /\
      Forall (DI.armed exc w') (ds0 ++ ds) /\
      NoDup (DI.initializer_of <$> (ds0 ++ ds)) /\
      (forall r v, DI.ready exc w r v -> DI.ready exc w' r v) /\
      (forall r v, r ∈ rs -> DI.ready exc w r v -> DI.initialized w' r v) /\
      (forall r v, DI.ready exc w r v -> DI.initialized w r v -> DI.initialized w' r v) /\
      (forall x i dd f0, DI.services w !! x = Some (DI.resource i dd f0) ->
         exists f1, DI.services w' !! x = Some (DI.resource i dd f1)).
Proof.
  induction rs as [| r rs IH]; intros w ds0 Hm Hready Harmed Hnd.
  - exists [], w. rewrite app_nil_r. cbn.
    split; [done |]. split; [done |]. split; [done |]. split; [done |].
    split; [done |]. split; [done |].
    split; [intros r v Hr; by apply elem_of_nil in Hr |].
    split; [done |]. intros x i dd f0 Hx. by exists f0.
  - apply Forall_cons in Hready as [[v Hv] Hrs].
    destruct (setup_ready exc fuel w r v Hv)
      as (d1 & w1 & Hrun & Hself & Harmed1 & Hinit & Hm1 & Hkeep & Hrd & Hini & Hsame).
    set (w2 := DI.with_managers (insert m (DI.mkManager all (ds0 ++ [d1]))) w1).
    destruct (IH w2 (ds0 ++ [d1]))
      as (ds & w' & Hrun' & Hm' & Hself' & Harmed' & Hnd' & Hrd' & Hin' & Hini' & Hsame').
    { cbn. by rewrite lookup_insert_eq. }
    { rewrite Forall_forall in Hrs |- *. intros r0 Hr0.
      destruct (Hrs r0 Hr0) as [v0 Hv0]. exists v0. by apply (Hrd r0 v0). }
    { apply Forall_app. split.
      - rewrite Forall_forall in Harmed |- *. intros d0 Hd0.
        by apply (Hkeep d0), Harmed.
      - by constructor. }
    { rewrite fmap_app. cbn. apply NoDup_app. split; [done |]. split.
      - intros k Hk Hk1. apply list_elem_of_singleton in Hk1 as ->.
        apply list_elem_of_fmap in Hk as (d0 & Heq & Hd0).
        rewrite Forall_forall in Harmed.
        by destruct (Hkeep d0 (Harmed d0 Hd0)) as [_ Hne].
      - apply NoDup_singleton. }
    assert (Hstep : forall r0 v0, DI.ready exc w r0 v0 -> DI.initialized w r0 v0 \/ r0 = r ->
                      DI.initialized w2 r0 v0).
    { intros r0 v0 Hr0 Hcase. destruct (decide (r0 = r)) as [-> | Hne].
      - by rewrite (ready_fun exc w r v0 v Hr0 Hv).
      - destruct Hcase as [Hi | ->]; [| done]. by apply (Hini r0 v0). }
    exists (d1 :: ds), w'. cbn [DI.enter_loop]. unfold DI.bind at 1. rewrite Hrun.
    unfold DI.bind at 1, DI.get_manager. rewrite Hm1, Hm. cbn [DI._resources DI._disposers].
    split; [exact Hrun' |].
    split; [by rewrite <- app_assoc in Hm' |].
    split; [cbn; by rewrite Hself, Hself' |].
    split; [by rewrite <- app_assoc in Harmed' |].
    split; [by rewrite <- app_assoc in Hnd' |].
    split; [intros r0 v0 Hr0; by apply Hrd', (Hrd r0 v0) |].
    split.
    + intros r0 v0 Hr0 Hv0. apply elem_of_cons in Hr0 as [-> | Hr0].
      * apply Hini'; [by apply (Hrd r v0) |]. apply Hstep; [done | by right].
      * apply Hin'; [done |]. by apply (Hrd r0 v0).
    + split.
      * intros r0 v0 Hr0 Hi0. apply Hini'; [by apply (Hrd r0 v0) |].
        apply Hstep; [done | by left].
      * intros x i dd f0 Hx. destruct (Hsame x i dd f0 Hx) as [f1 Hx1].
        by apply (Hsame' x i dd f1).
Qed.

Lemma enter_loop_app (fuel : nat) (m : ref) (rs1 rs2 : list ref) :
  forall w,
    DI.enter_loop fuel m (rs1 ++ rs2) w =
      match DI.enter_loop fuel m rs1 w with
      | Some (DI.Ok _, w') => DI.enter_loop fuel m rs2 w'
      | Some (DI.Err e, w') => Some (DI.Err e, w')
      | None => None
      end.
Proof.
  induction rs1 as [| r rs1 IH]; intros w; [done |].
  cbn [app DI.enter_loop]. unfold DI.bind, DI.get_manager, DI.modify.
  destruct (DI.setup fuel r w) as [[[d | e] w1] |]; [| done | done].
  destruct (DI.managers w1 !! m); [apply IH | done].
Qed.

(** X13: [setup_resources] over resources with sound initializers. Entering sets
    every resource up, in the order given, and records one disposer for each;
    inside the block each resource holds the instance its initializer
    produced; leaving calls the disposers in reverse order, returns [None]
    (the exception of the block is not suppressed), leaves every resource
    uninitialized, and keeps the disposers it has called. *)
Theorem X13_setup_resources_round_trip
    (fuel : nat) (w : DI.store) (rs : list ref) (exc : option DI.dexn) :
  Forall (fun r => exists v, DI.ready exc w r v) rs ->
  exists m w0 w1 w2 ds,
    DI.setup_resources rs w = Some (DI.Ok m, w0) /\
    DI.__enter__ fuel m w0 = Some (DI.Ok tt, w1) /\
    DI.managers w1 !! m = Some (DI.mkManager rs ds) /\
    DI.disposer_self <$> ds = rs /\
    (forall r v, r ∈ rs -> DI.ready exc w r v -> DI.initialized w1 r v) /\
    DI.__exit__ m exc w1 = Some (DI.Ok DI.DNone, w2) /\
    (forall r, r ∈ rs -> DI.uninitialized w2 r) /\
    DI.log w2 = DI.log w1 ++ (DI.disposal_event exc <$> rev ds) /\
    DI.managers w2 !! m = Some (DI.mkManager rs ds).
Proof.
  intros Hready.
  set (m := fresh (dom (DI.managers w))).
  set (w0 := DI.with_managers (insert m (DI.mkManager rs [])) w).
  destruct (enter_loop_ready exc fuel m rs rs w0 [])
    as (ds & w1 & Hrun & Hm & Hself & Harmed & Hnd & Hrd & Hin & _ & _).
  { cbn. by rewrite lookup_insert_eq. }
  { exact Hready. }
  { constructor. }
  { constructor. }
  cbn [app] in Hm, Harmed, Hnd.
  destruct (exit_loop_armed exc (rev ds) w1) as (w2 & Hrun2 & Hm2 & Hlog2 & Hun & _).
  { by apply Forall_rev. }
  { by rewrite <- Permutation_rev. }
  exists m, w0, w1, w2, ds.
  split; [done |].
  split; [unfold DI.__enter__, DI.bind, DI.get_manager; cbn;
          by rewrite lookup_insert_eq |].
  split; [done |]. split; [done |].
  split; [intros r v Hr Hv; by apply Hin |].
  split; [unfold DI.__exit__, DI.bind, DI.get_manager; rewrite Hm; cbn;
          by rewrite Hrun2 |].
  split; [| split; [done | by rewrite Hm2]].
  intros r Hr. rewrite <- Hself in Hr.
  apply list_elem_of_fmap in Hr as (d & -> & Hd). apply Hun.
  by rewrite <- Permutation_rev.
Qed.

(** X14: when the initializer of one of the resources raises, [__enter__]
    raises that exception and sets up no later resource; the resources
    before it stay set up and their disposers stay recorded in the
    [setup_resources] object, which has called none of them. *)
Theorem X14_enter_failure_keeps_earlier_resources_set_up
    (fuel : nat) (w : DI.store) (rs1 rs2 : list ref) (r : ref)
    (init : DI.callable) (d : DI.kwargs) (f : option ref) (e : DI.dexn)
    (exc : option DI.dexn) :
  Forall (fun r' => exists v, DI.ready exc w r' v) rs1 ->
  DI.services w !! r = Some (DI.resource init d f) ->
  DI.plain d ->
  DI.body init (DI.dict_merge [] d) = DI.PRaise e ->
  exists m w0 w1 ds,
    DI.setup_resources (rs1 ++ r :: rs2) w = Some (DI.Ok m, w0) /\
    DI.__enter__ fuel m w0 = Some (DI.Err e, w1) /\
    DI.managers w1 !! m = Some (DI.mkManager (rs1 ++ r :: rs2) ds) /\
    DI.disposer_self <$> ds = rs1 /\
    (forall r' v, r' ∈ rs1 -> DI.ready exc w r' v -> DI.initialized w1 r' v).
Proof.
  intros Hready Hr Hd Hbody.
  set (m := fresh (dom (DI.managers w))).
  set (w0 := DI.with_managers (insert m (DI.mkManager (rs1 ++ r :: rs2) [])) w).
  destruct (enter_loop_ready exc fuel m (rs1 ++ r :: rs2) rs1 w0 [])
    as (ds & w1 & Hrun & Hm & Hself & _ & _ & _ & Hin & _ & Hsame).
  { cbn. by rewrite lookup_insert_eq. }
  { exact Hready. }
  { constructor. }
  { constructor. }
  cbn [app] in Hm.
  destruct (Hsame r init d f Hr) as [f1 Hr1].
  exists m, w0, (DI.record (DI.Called (DI.__name__ init) (DI.dict_merge [] d)) w1), ds.
  split; [done |].
  split.
  { unfold DI.__enter__, DI.bind at 1, DI.get_manager. cbn.
    rewrite lookup_insert_eq. cbn. rewrite enter_loop_app, Hrun.
    cbn [DI.enter_loop]. dsetup. dunfold. drun. reflexivity. }
  split; [done |]. split; [done |].
  intros r' v Hr' Hv. by apply Hin.
Qed.

(** ** What calls and failed set-ups leave untouched *)

Lemma frame_resources (w w' : DI.store) :
  DI.frame w w' ->
  DI.managers w' = DI.managers w /\
  (forall x init d f, DI.services w !! x = Some (DI.resource init d f) ->
     DI.services w' !! x = Some (DI.resource init d f)) /\
  (forall x v, DI.initialized w x v -> DI.initialized w' x v).
Proof.
  intros [Hm Hs]. split; [done |]. split.
  - intros x init d f Hx. exact (Hs x _ Hx).
  - intros x v (init & d & f & Hx & Hf). exists init, d, f.
    split; [exact (Hs x _ Hx) | exact (Hs f _ Hf)].
Qed.

(** X15: a call of a service, whatever its class and its outcome, never
    sets up or disposes a resource and never changes a [setup_resources]
    object: every resource keeps its initializer, its dependencies and its
    state, and a resource that is set up keeps its instance. *)
Theorem X15_calls_leave_resources_alone
    (fuel : nat) (s : ref) (deps : DI.kwargs) (w w' : DI.store) (r : DI.res DI.dval) :
  DI.call_service fuel s deps w = Some (r, w') ->
  DI.managers w' = DI.managers w /\
  (forall x init d f, DI.services w !! x = Some (DI.resource init d f) ->
     DI.services w' !! x = Some (DI.resource init d f)) /\
  (forall x v, DI.initialized w x v -> DI.initialized w' x v).
Proof.
  intros Hcall. apply frame_resources. by eapply call_service_frame.
Qed.

(** X16: a [setup] that raises has changed no resource, its own included: a
    resource whose set-up fails stays as it was, uninitialized or holding
    the instance of an earlier set-up. *)
Theorem X16_failed_setup_changes_no_resource
    (fuel : nat) (r : ref) (w w' : DI.store) (e : DI.dexn) :
  DI.setup fuel r w = Some (DI.Err e, w') ->
  DI.managers w' = DI.managers w /\
  (forall x init d f, DI.services w !! x = Some (DI.resource init d f) ->
     DI.services w' !! x = Some (DI.resource init d f)) /\
  (forall x v, DI.initialized w x v -> DI.initialized w' x v).
Proof.
  intros Hrun. apply frame_resources.
  unfold DI.setup, DI.bind at 1, DI.get_service in Hrun.
  destruct (DI.services w !! r) as [[v | | | | | | init d f] |] eqn:Hr; try done.
  unfold DI.bind at 1 in Hrun.
  destruct (DI._resolve_deps _ d [] w) as [[[kw | e0] w0] |] eqn:Hres; [| | done].
  2: { injection Hrun as <- <-. unfold DI._resolve_deps in Hres.
       eapply resolve_items_frame; [| exact Hres].
       intros s0 w1 r1 w1'. apply call_service_frame. }
  assert (Hf0 : DI.frame w w0).
  { unfold DI._resolve_deps in Hres. eapply resolve_items_frame; [| exact Hres].
    intros s0 w1 r1 w1'. apply call_service_frame. }
  unfold DI.bind at 1 in Hrun.
  destruct (DI.call_host init kw w0) as [[[i | e0] w1] |] eqn:Hhost; [| | done].
  2: { injection Hrun as <- <-. eapply frame_trans; [done | by eapply call_host_frame]. }
  assert (Hf1 : DI.frame w w1).
  { eapply frame_trans; [done | by eapply call_host_frame]. }
  assert (Hnew : forall (instance : DI.dval) (dsp : DI.disposer) (w2 : DI.store),
            DI.bind (DI.new_service (DI.value instance))
              (fun v => DI.bind (DI.set_factory r (Some v)) (fun _ => DI.ret dsp)) w2
              = Some (DI.Err e, w') -> False).
  { intros instance dsp w2. dunfold. cbn.
    match goal with
    | |- context [?m !! r] => destruct (m !! r) as [[] |]; cbn; done
    end. }
  destruct i; try (cbn in Hrun; injection Hrun as <- <-; exact Hf1).
  - unfold DI.bind at 1 in Hrun. unfold DI.gen_next at 1 in Hrun.
    destruct (DI.gens w1 !! g) as [[[| [y | e1] rest] |] |]; try done;
      try (by apply Hnew in Hrun);
      injection Hrun as <- <-; (eapply frame_trans; [exact Hf1 |]);
      by apply frame_same.
  - unfold DI.bind at 1 in Hrun. unfold DI.ctx_enter at 1 in Hrun.
    destruct (DI.ctxs w1 !! c) as [cm |]; [| done].
    destruct (DI.on_enter cm); [by apply Hnew in Hrun |].
    injection Hrun as <- <-. eapply frame_trans; [exact Hf1 |]. by apply frame_same.
Qed.

(** ** config *)

Lemma bind_ret_r {A} (m : DI.M A) (w : DI.store) : DI.bind m DI.ret w = m w.
Proof. unfold DI.bind, DI.ret. by destruct (m w) as [[[a | e] w'] |]. Qed.

Lemma bind_assoc {A B C} (m : DI.M A) (k : A -> DI.M B) (k' : B -> DI.M C)
                 (w : DI.store) :
  DI.bind (DI.bind m k) k' w = DI.bind m (fun a => DI.bind (k a) k') w.
Proof. unfold DI.bind. by destruct (m w) as [[[a | e] w'] |]. Qed.

Lemma bind_ext {A B} (m : DI.M A) (k k' : A -> DI.M B) (w : DI.store) :
  (forall a w', k a w' = k' a w') -> DI.bind m k w = DI.bind m k' w.
Proof. intros Hk. unfold DI.bind. by destruct (m w) as [[[a | e] w'] |]. Qed.

Lemma attr_path_app (v : DI.dval) (p1 p2 : list string) (w : DI.store) :
  DI.attr_path v (p1 ++ p2) w =
    DI.bind (DI.attr_path v p1) (fun x => DI.attr_path x p2) w.
Proof.
  revert v w. induction p1 as [| a p1 IH]; intros v w; [done |].
  cbn [app DI.attr_path]. rewrite bind_assoc. by apply bind_ext.
Qed.

Lemma is_path_call (w : DI.store) (root : ref) (n : nat) (rpath : list string) :
  forall a s deps,
    DI.is_path w root (a :: rpath) s ->
    DI.call_service (S (length rpath) + n) s deps w =
      DI.bind (DI.call_service n root []) (fun v => DI.attr_path v (rev (a :: rpath))) w.
Proof.
  induction rpath as [| b rpath IH]; intros a s deps (parent & Hs & Hp).
  - cbn in Hp. subst parent. cbn [length Nat.add DI.call_service rev app DI.attr_path].
    unfold DI.bind at 1, DI.get_service. rewrite Hs.
    apply bind_ext. intros v w'. by rewrite bind_ret_r.
  - change (S (length (b :: rpath)) + n)%nat with (S (S (length rpath) + n)).
    cbn [DI.call_service]. unfold DI.bind at 1, DI.get_service. rewrite Hs.
    unfold DI.bind at 1. rewrite (IH b parent [] Hp).
    change (rev (a :: b :: rpath)) with (rev (b :: rpath) ++ [a]).
    fold (DI.bind (DI.bind (DI.call_service n root [])
                     (fun v => DI.attr_path v (rev (b :: rpath))))
                  (fun v => DI.getattr v a) w).
    rewrite bind_assoc. apply bind_ext. intros v w'.
    rewrite attr_path_app. apply bind_ext. intros x w''.
    cbn [DI.attr_path]. by rewrite bind_ret_r.
Qed.

Lemma getattrs_is_path (path : list string) :
  forall (w : DI.store) (root s0 : ref) (rpath : list string),
    DI.is_path w root rpath s0 ->
    exists s w',
      DI.getattrs s0 path w = Some (DI.Ok s, w') /\
      DI.is_path w' root (rev path ++ rpath) s /\
      DI.managers w' = DI.managers w /\ DI.log w' = DI.log w /\
      (forall x y, DI.services w !! x = Some y -> DI.services w' !! x = Some y).
Proof.
  induction path as [| a path IH]; intros w root s0 rpath Hp.
  - exists s0, w. by cbn.
  - set (s1 := fresh (dom (DI.services w))).
    set (w1 := DI.with_services (insert s1 (DI._subconfig s0 a)) w).
    assert (Hkeep : forall x y, DI.services w !! x = Some y -> DI.services w1 !! x = Some y).
    { intros x y Hx. cbn. rewrite lookup_insert_ne; [done |]. by eapply fresh_ne. }
    assert (Hmono : forall rp s, DI.is_path w root rp s -> DI.is_path w1 root rp s).
    { induction rp as [| b rp IHrp]; intros s; [done |].
      intros (parent & Hs & Hpar). exists parent. split; [by apply Hkeep | by apply IHrp]. }
    destruct (IH w1 root s1 (a :: rpath)) as (s & w' & Hrun & Hpath & Hm & Hl & Hsv).
    { exists s0. split; [cbn; by rewrite lookup_insert_eq | by apply Hmono]. }
    exists s, w'. cbn [DI.getattrs]. unfold DI.bind, DI.__getattr__, DI.new_service.
    split; [exact Hrun |].
    split; [cbn [rev]; by rewrite <- app_assoc |].
    split; [done |]. split; [done |].
    intros x y Hx. by apply Hsv, Hkeep.
Qed.

(** X17: the service [root.a1...an] made by [__getattr__] is called like
    [root().a1...an]: a call, whatever dependencies it is given, calls the
    root once, with no arguments, then reads the attributes from the first
    to the last, and stops at the first failure. Making it changes no
    service that exists. *)
Theorem X17_subconfig_reads_attribute_path
    (w : DI.store) (root : ref) (a : string) (path : list string) :
  exists s w',
    DI.getattrs root (a :: path) w = Some (DI.Ok s, w') /\
    (forall x y, DI.services w !! x = Some y -> DI.services w' !! x = Some y) /\
    forall n deps,
      DI.call_service (S (length path) + n) s deps w' =
        DI.bind (DI.call_service n root []) (fun v => DI.attr_path v (a :: path)) w'.
Proof.
  destruct (getattrs_is_path (a :: path) w root root []) as (s & w' & Hrun & Hp & _ & _ & Hsv);
    [done |].
  exists s, w'. split; [exact Hrun |]. split; [exact Hsv |].
  intros n deps. rewrite app_nil_r in Hp.
  destruct (rev (a :: path)) as [| b rp] eqn:Hrev.
  { apply (f_equal (@length string)) in Hrev. rewrite length_rev in Hrev. done. }
  assert (Hlen : length rp = length path).
  { apply (f_equal (@length string)) in Hrev. rewrite length_rev in Hrev.
    cbn in Hrev. lia. }
  rewrite <- Hlen, (is_path_call w' root n rp b s deps Hp).
  by rewrite <- Hrev, rev_involutive.
Qed.

(** X18: a [config] over a settings class instantiates the class at its
    first call, with no arguments, and never again: every later call
    returns the same settings object and changes nothing. *)
Theorem X18_config_instantiates_settings_once
    (n : nat) (w : DI.store) (h : DI.callable) (v : DI.dval) (deps : DI.kwargs) :
  DI.is_settings_class h = true ->
  DI.body h [] = DI.PVal v ->
  v <> DI.DNone ->
  exists cfg w1 w2,
    DI.config__init__ (DI.FHost h) w = Some (DI.Ok cfg, w1) /\
    DI.call_service (3 + n) cfg deps w1 = Some (DI.Ok v, w2) /\
    DI.log w2 = DI.log w ++ [DI.Called (DI.__name__ h) []] /\
    forall n' deps', DI.call_service (3 + n') cfg deps' w2 = Some (DI.Ok v, w2).
Proof.
  intros Hcls Hbody Hv.
  set (s := fresh (dom (DI.services w))).
  set (sv1 := <[s := DI.singleton (DI.FHost h) [] DI.DNone]> (DI.services w)).
  set (cfg := fresh (dom sv1)).
  assert (Hne : cfg <> s).
  { apply (fresh_ne sv1 s (DI.singleton (DI.FHost h) [] DI.DNone)).
    unfold sv1. by rewrite lookup_insert_eq. }
  exists cfg. eexists. eexists.
  split; [unfold DI.config__init__; rewrite Hcls; dunfold; cbn; reflexivity |].
  split.
  { cbn [Nat.add DI.call_service]. dunfold. cbn. rewrite lookup_insert_eq. cbn.
    fold s. fold sv1. fold cfg.
    rewrite (lookup_insert_ne _ cfg s) by done. unfold sv1 at 1.
    rewrite lookup_insert_eq. cbn.
    change (DI.dict_merge [] []) with (@nil (string * DI.dval)).
    cbn. rewrite Hbody. reflexivity. }
  split; [done |].
  intros n' deps'. cbn [Nat.add DI.call_service]. dunfold. cbn.
  fold s. fold sv1. fold cfg.
  rewrite (lookup_insert_ne _ s cfg) by done. rewrite lookup_insert_eq. cbn.
  rewrite lookup_insert_eq. by destruct v.
Qed.

(** ** Dependencies that are services *)

Lemma dict_set_fresh (k : string) (v : DI.dval) (d : DI.kwargs) :
  k ∉ (fst <$> d) -> DI.dict_set k v d = d ++ [(k, v)].
Proof.
  induction d as [| [k0 v0] d IH]; cbn; [done |].
  rewrite not_elem_of_cons. intros [Hne Hd].
  rewrite decide_False by done. by rewrite IH.
Qed.

Lemma dict_fold_fresh (l : DI.kwargs) :
  forall acc,
    NoDup (fst <$> (acc ++ l)) ->
    fold_left (fun d kv => DI.dict_set (fst kv) (snd kv) d) l acc = acc ++ l.
Proof.
  induction l as [| [k v] l IH]; intros acc Hnd; cbn.
  - by rewrite app_nil_r.
  - rewrite dict_set_fresh.
    + rewrite IH; rewrite <- app_assoc; done.
    + rewrite fmap_app in Hnd. apply NoDup_app in Hnd as (_ & Hdisj & _).
      intros Hk. apply (Hdisj k Hk). cbn. apply list_elem_of_here.
Qed.

Lemma dict_merge_nil_l (d : DI.kwargs) : DI.is_dict d -> DI.dict_merge [] d = d.
Proof. intros Hd. unfold DI.dict_merge. cbn. by apply (dict_fold_fresh d []). Qed.

Lemma resolve_items_service (call : ref -> DI.M DI.dval) (d1 d2 : DI.kwargs)
                            (k : string) (s : ref) (w : DI.store) :
  DI.plain d1 -> DI.plain d2 ->
  DI.resolve_items call (d1 ++ (k, DI.DSvc s) :: d2) w =
    match call s w with
    | Some (DI.Ok v, w1) => Some (DI.Ok (d1 ++ (k, v) :: d2), w1)
    | Some (DI.Err e, w1) => Some (DI.Err e, w1)
    | None => None
    end.
Proof.
  intros H1 H2. induction H1 as [| [k0 v0] d1 Hv0 Hd1 IH]; cbn.
  - unfold DI.bind. destruct (call s w) as [[[v | e] w1] |]; [| done | done].
    by rewrite resolve_items_plain.
  - cbn in Hv0. destruct v0; try discriminate; unfold DI.bind; rewrite IH;
      by destruct (call s w) as [[[v | e] w1] |].
Qed.

(** X24: a factory is given, for a dependency that is a service, what a call
    of that service with no arguments returns, in place of the service;
    the other dependencies are passed as they are and in their order. When
    the dependency raises, the call raises the same exception and the
    factory is not called. *)
Theorem X24_service_dependency_is_called_and_injected
    (n : nat) (w : DI.store) (s dep : ref) (f : DI.callable)
    (d1 d2 : DI.kwargs) (k : string) :
  DI.services w !! s = Some (DI.transient (DI.FHost f) (d1 ++ (k, DI.DSvc dep) :: d2)) ->
  DI.is_dict (d1 ++ (k, DI.DSvc dep) :: d2) ->
  DI.plain d1 -> DI.plain d2 ->
  DI.call_service (S n) s [] w =
    match DI.call_service n dep [] w with
    | Some (DI.Ok v, w1) => DI.call_host f (d1 ++ (k, v) :: d2) w1
    | Some (DI.Err e, w1) => Some (DI.Err e, w1)
    | None => None
    end.
Proof.
  intros Hs Hd H1 H2. cbn [DI.call_service].
  unfold DI.bind at 1, DI.get_service. rewrite Hs.
  unfold DI.bind, DI._resolve_deps. rewrite dict_merge_nil_l by done.
  rewrite resolve_items_service by done.
  by destruct (DI.call_service n dep [] w) as [[[v | e] w1] |].
Qed.

(* ===================================================================== *)
(** * Properties of debounce                                              *)
(* ===================================================================== *)

Lemma run_due_length (now' : Z) (ts : list Debounce.timer) :
  length (Debounce.run_due now' ts).1 = length ts.
Proof.
  induction ts as [| tm ts IH]; [done |]. cbn.
  destruct (Debounce.run_due now' ts) as [ts' cs]. cbn in IH.
  destruct (negb (Debounce.finished tm) && (Debounce.deadline tm <=? now')); cbn; by rewrite IH.
Qed.

Lemma run_due_lookup (now' : Z) (ts : list Debounce.timer) (i : nat) (tm' : Debounce.timer) :
  (Debounce.run_due now' ts).1 !! i = Some tm' ->
  exists tm,
    ts !! i = Some tm /\
    Debounce.deadline tm' = Debounce.deadline tm /\
    Debounce.timer_args tm' = Debounce.timer_args tm /\
    (Debounce.finished tm' = false ->
       Debounce.finished tm = false /\ now' < Debounce.deadline tm).
Proof.
  revert i. induction ts as [| tm ts IH]; intros i; [done |]. cbn.
  destruct (Debounce.run_due now' ts) as [ts' cs]. cbn in IH.
  destruct (negb (Debounce.finished tm) && (Debounce.deadline tm <=? now')) eqn:Hdue.
  - destruct i as [| i]; cbn.
    + intros [= <-]. exists tm. by cbn.
    + apply IH.
  - destruct i as [| i]; cbn.
    + intros [= <-]. exists tm. split; [done |]. split; [done |]. split; [done |].
      intros Hf. split; [done |]. rewrite Hf in Hdue. cbn in Hdue. lia.
    + apply IH.
Qed.



Lemma alter_finished_lookup (ts : list Debounce.timer) (j i : nat) (tm : Debounce.timer) :
  alter Debounce.set_finished j ts !! i = Some tm ->
  Debounce.finished tm = false ->
  i <> j /\ ts !! i = Some tm.
Proof.
  intros Hi Hf. destruct (decide (i = j)) as [-> | Hne].
  - rewrite list_lookup_alter, decide_True in Hi by done.
    destruct (ts !! j) as [tm0 |]; [| done]. cbn in Hi. injection Hi as <-. done.
  - split; [done |]. by rewrite list_lookup_alter, decide_False in Hi.
Qed.

(** After a call of the decorated function every timer but the new one is
    finished; the new one is unfinished exactly when it sleeps, and has
    called the function otherwise. *)
Lemma debounced_single (wait : Z) (a : Debounce.call_args) (st : Debounce.state) :
  Debounce.single st ->
  Debounce.single (Debounce.debounced wait a st) /\
  Debounce.pending_until (Debounce.debounced wait a st) (Debounce.now st + wait) /\
  Debounce.calls (Debounce.debounced wait a st) =
    (if Debounce.sleeps wait then Debounce.calls st else Debounce.calls st ++ [a]) /\
  Debounce.now (Debounce.debounced wait a st) = Debounce.now st /\
  (exists ts, Debounce.timers (Debounce.debounced wait a st)
              = ts ++ [Debounce.mkTimer (Debounce.now st + wait) a
                         (negb (Debounce.sleeps wait))] /\
              Forall (fun tm => Debounce.finished tm = true) ts).
Proof.
  intros Hs.
  assert (Hold : forall i tm,
            Debounce.timers (match Debounce.t st with
                             | Some j => Debounce.cancel j st
                             | None => st
                             end) !! i = Some tm ->
            Debounce.finished tm = true).
  { intros i tm Hi. destruct (Debounce.finished tm) eqn:Hf; [done |].
    destruct (Debounce.t st) as [j |] eqn:Ht.
    - cbn in Hi. destruct (alter_finished_lookup _ _ _ _ Hi Hf) as [Hne Hi'].
      specialize (Hs i tm Hi' Hf). congruence.
    - specialize (Hs i tm Hi Hf). congruence. }
  assert (Hnow : Debounce.now (match Debounce.t st with
                               | Some j => Debounce.cancel j st
                               | None => st
                               end) = Debounce.now st)
    by (by destruct (Debounce.t st)).
  assert (Hcalls : Debounce.calls (match Debounce.t st with
                                   | Some j => Debounce.cancel j st
                                   | None => st
                                   end) = Debounce.calls st)
    by (by destruct (Debounce.t st)).
  unfold Debounce.debounced, Debounce.single, Debounce.pending_until.
  cbn [Debounce.timers Debounce.t Debounce.calls Debounce.now]. rewrite Hnow, Hcalls.
  split; [| split; [| split; [done | split; [done |]]]].
  - intros i tm Hi Hf. apply lookup_app_Some in Hi as [Hi | [Hlen Hi]].
    + apply Hold in Hi. congruence.
    + f_equal. apply list_lookup_singleton_Some in Hi as [Hi _]. lia.
  - intros i tm Hi Hf. apply lookup_app_Some in Hi as [Hi | [Hlen Hi]].
    + apply Hold in Hi. congruence.
    + apply list_lookup_singleton_Some in Hi as [_ <-]. done.
  - eexists. split; [reflexivity |]. apply Forall_lookup. exact Hold.
Qed.

Lemma tick_single (dt : N) (st : Debounce.state) :
  Debounce.single st -> Debounce.single (Debounce.tick dt st).
Proof.
  intros Hs i tm'. unfold Debounce.tick.
  pose proof (run_due_lookup (Debounce.now st + Z.of_N dt) (Debounce.timers st) i tm') as Hl.
  destruct (Debounce.run_due _ (Debounce.timers st)) as [ts cs]. cbn in *.
  intros Hi Hf. destruct (Hl Hi) as (tm & Htm & _ & _ & Hlive).
  destruct (Hlive Hf) as [Hf' _]. by apply (Hs i tm).
Qed.

Lemma exec_single (wait : Z) (evs : list Debounce.event) :
  forall st, Debounce.single st -> Debounce.single (Debounce.exec wait evs st).
Proof.
  induction evs as [| e evs IH]; intros st Hs; [done |].
  cbn. apply IH. destruct e as [a | dt]; cbn.
  - by apply debounced_single.
  - by apply tick_single.
Qed.

Lemma init_single : Debounce.single Debounce.init.
Proof. intros i tm Hi. done. Qed.



(** X19: at any moment at most one timer started by the decorated function
    can still call the wrapped function, and it is the one the variable [t]
    of the closure names. *)
Theorem X19_debounce_one_pending_timer
    (wait : Z) (evs : list Debounce.event) (i j : nat) (tmi tmj : Debounce.timer) :
  Debounce.timers (Debounce.exec wait evs Debounce.init) !! i = Some tmi ->
  Debounce.timers (Debounce.exec wait evs Debounce.init) !! j = Some tmj ->
  Debounce.finished tmi = false ->
  Debounce.finished tmj = false ->
  i = j /\ Debounce.t (Debounce.exec wait evs Debounce.init) = Some i.
Proof.
  intros Hi Hj Hfi Hfj.
  pose proof (exec_single wait evs Debounce.init init_single) as Hs.
  pose proof (Hs i tmi Hi Hfi) as Hti. pose proof (Hs j tmj Hj Hfj) as Htj.
  split; [congruence | done].
Qed.


Lemma alter_finished_args (i : nat) (ts : list Debounce.timer) :
  Debounce.timer_args <$> alter Debounce.set_finished i ts = Debounce.timer_args <$> ts.
Proof.
  revert i. induction ts as [| tm ts IH]; intros i; [done |].
  destruct i as [| i]; cbn; [done |]. f_equal. apply IH.
Qed.

Lemma run_due_finished (now' : Z) (ts l : list Debounce.timer) :
  Forall (fun tm => Debounce.finished tm = true) ts ->
  Debounce.run_due now' (ts ++ l) =
    (ts ++ (Debounce.run_due now' l).1, (Debounce.run_due now' l).2).
Proof.
  induction 1 as [| tm ts Hf Hts IH]; cbn.
  - by destruct (Debounce.run_due now' l).
  - rewrite IH, Hf. done.
Qed.

Lemma step_ordered (wait : Z) (e : Debounce.event) (st : Debounce.state)
                   (reqs : list Debounce.call_args) :
  Debounce.ordered st reqs ->
  Debounce.ordered (Debounce.step wait st e) (reqs ++ Debounce.requests [e]).
Proof.
  intros (Hargs & ts & l & Hts & Hfin & Hsub & Hl). destruct e as [a | dt].
  - assert (Hst1 : exists ts1,
              Debounce.timers (match Debounce.t st with
                               | Some j => Debounce.cancel j st
                               | None => st
                               end) = ts1 /\
              Forall (fun tm => Debounce.finished tm = true) ts1 /\
              Debounce.timer_args <$> ts1 = reqs /\
              Debounce.calls (match Debounce.t st with
                              | Some j => Debounce.cancel j st
                              | None => st
                              end) = Debounce.calls st).
    { eexists. split; [reflexivity |].
      destruct l as [| tm [| tm' l']]; [| | done].
      - rewrite app_nil_r in Hts.
        destruct (Debounce.t st) as [j |]; cbn; rewrite Hts.
        + split; [| split; [by rewrite alter_finished_args, <- Hts | done]].
          apply Forall_lookup. intros k x Hk.
          rewrite list_lookup_alter in Hk. rewrite Forall_lookup in Hfin.
          destruct (decide (k = j)) as [Heq | Hne]; [subst k |].
          * rewrite decide_True in Hk by done.
            destruct (ts !! j); [| done]. by injection Hk as <-.
          * rewrite decide_False in Hk by done. by apply (Hfin k).
        + split; [done |]. split; [by rewrite <- Hts | done].
      - destruct Hl as [Hf Ht]. rewrite Ht. cbn. rewrite Hts.
        split; [| split; [by rewrite alter_finished_args, <- Hts | done]].
        replace (length ts) with (length ts + 0)%nat by lia.
        rewrite alter_app_r. cbn. apply Forall_app. split; [done |].
        by constructor. }
    destruct Hst1 as (ts1 & Hts1 & Hfin1 & Hargs1 & Hcalls1).
    assert (Hsub1 : sublist (Debounce.calls st) (Debounce.timer_args <$> ts1)).
    { rewrite Hargs1, <- Hargs, Hts, fmap_app. by apply sublist_inserts_r. }
    split.
    + cbn. rewrite Hts1, fmap_app, Hargs1. done.
    + destruct (Debounce.sleeps wait) eqn:Hw.
      * exists ts1, [Debounce.mkTimer (Debounce.now
                        (match Debounce.t st with
                         | Some j => Debounce.cancel j st
                         | None => st
                         end) + wait) a false].
        cbn. rewrite Hts1, Hcalls1, Hw. done.
      * exists (ts1 ++ [Debounce.mkTimer (Debounce.now
                          (match Debounce.t st with
                           | Some j => Debounce.cancel j st
                           | None => st
                           end) + wait) a true]), [].
        cbn. rewrite Hts1, Hcalls1, Hw, app_nil_r. cbn.
        split; [done |].
        split; [apply Forall_app; split; [done | by constructor] |].
        split; [| done]. rewrite fmap_app. by apply sublist_app.
  - cbn [Debounce.step Debounce.requests flat_map]. rewrite app_nil_r.
    unfold Debounce.ordered, Debounce.tick. rewrite Hts, run_due_finished by done.
    cbn [Debounce.timers Debounce.calls Debounce.t].
    destruct l as [| tm [| tm' l']]; [| | done].
    + cbn. rewrite !app_nil_r. rewrite app_nil_r in Hts.
      split; [by rewrite <- Hts |].
      exists ts, []. by rewrite app_nil_r.
    + destruct Hl as [Hf Ht]. cbn. rewrite Hf. cbn.
      destruct (Debounce.deadline tm <=? Debounce.now st + Z.of_N dt); cbn.
      * split; [by rewrite <- Hargs, Hts, !fmap_app |].
        exists (ts ++ [Debounce.set_finished tm]), []. rewrite app_nil_r.
        split; [done |]. split; [apply Forall_app; split; [done | by constructor] |].
        split; [| done]. rewrite fmap_app. by apply sublist_app.
      * rewrite app_nil_r. split; [by rewrite <- Hts |].
        exists ts, [tm]. done.
Qed.

Lemma exec_ordered (wait : Z) (evs : list Debounce.event) :
  forall st reqs,
    Debounce.ordered st reqs ->
    Debounce.ordered (Debounce.exec wait evs st) (reqs ++ Debounce.requests evs).
Proof.
  induction evs as [| e evs IH]; intros st reqs Ho.
  - cbn. by rewrite app_nil_r.
  - cbn [Debounce.exec fold_left].
    assert (Hreq : Debounce.requests (e :: evs)
                   = Debounce.requests [e] ++ Debounce.requests evs)
      by (by destruct e).
    rewrite Hreq, app_assoc. apply IH. by apply step_ordered.
Qed.

(** X21: the wrapped function is only ever called with the arguments of
    calls of the decorated function, in the order those calls were made and
    at most once for each of them. *)
Theorem X21_debounce_calls_follow_requests
    (wait : Z) (evs : list Debounce.event) :
  sublist (Debounce.calls (Debounce.exec wait evs Debounce.init))
          (Debounce.requests evs).
Proof.
  destruct (exec_ordered wait evs Debounce.init []) as (Hargs & ts & l & Hts & _ & Hsub & _).
  { split; [done |]. exists [], []. split; [done |]. split; [done |]. split; [| done].
    apply sublist_nil. }
  cbn [app] in Hargs. rewrite <- Hargs, Hts, fmap_app. by apply sublist_inserts_r.
Qed.

(* ===================================================================== *)
(** * Properties of setup_logging                                         *)
(* ===================================================================== *)

Lemma logging_get_set (k k' : string) (v : Logging.conf) (d : list (string * Logging.conf)) :
  Logging.get k (Logging.set k' v d) =
    if decide (k = k') then Some v else Logging.get k d.
Proof.
  induction d as [| [k0 v0] d IH]; cbn.
  - destruct (decide (k = k')); done.
  - destruct (decide (k' = k0)) as [-> | Hne]; cbn.
    + destruct (decide (k = k0)); done.
    + destruct (decide (k = k0)) as [-> | Hne'].
      * by rewrite decide_False by done.
      * exact IH.
Qed.

Lemma logging_get_None (k : string) (d : list (string * Logging.conf)) :
  k ∉ (fst <$> d) -> Logging.get k d = None.
Proof.
  induction d as [| [k0 v0] d IH]; cbn; [done |].
  rewrite not_elem_of_cons. intros [Hne Hd]. rewrite decide_False by done. by apply IH.
Qed.

Lemma get_add_loggers (name : string) (l : list (string * Logging.conf)) :
  NoDup (fst <$> l) ->
  forall acc,
    Logging.get name (fold_left Logging.add_logger l acc) =
      match Logging.get name l with
      | Some (Logging.CStr level) =>
          Some (Logging.CDict [("level", Logging.CStr level)])
      | Some (Logging.CDict d) => Some (Logging.CDict d)
      | _ => Logging.get name acc
      end.
Proof.
  induction l as [| [k v] l IH]; intros Hnd acc; [done |].
  cbn in Hnd. apply NoDup_cons in Hnd as [Hnot Hnd].
  cbn [fold_left Logging.get]. rewrite (IH Hnd).
  destruct (decide (name = k)) as [-> | Hne].
  - rewrite (logging_get_None k l Hnot). unfold Logging.add_logger. cbn.
    destruct v; try done; by rewrite logging_get_set, decide_True.
  - destruct (Logging.get name l) as [[] |]; try done;
      unfold Logging.add_logger; cbn; destruct v; try done;
      by rewrite logging_get_set, decide_False.
Qed.

Lemma logger_of_setup (log_file name : string)
                      (loggers : option (list (string * Logging.conf))) :
  Logging.logger_of (Logging.setup_logging log_file loggers) name =
    Logging.get name (match loggers with
                      | Some l => fold_left Logging.add_logger l Logging.root_only
                      | None => Logging.root_only
                      end).
Proof. reflexivity. Qed.

(** X22: how [setup_logging] configures each logger. A name given with a
    level string gets that level and nothing else; a name given with a dict
    gets that dict; a name given with a value of another type is ignored
    without an error; any other name is configured only if it is the root
    logger, which then writes to the file at level DEBUG. *)
Theorem X22_setup_logging_logger_entries
    (log_file name : string) (loggers : list (string * Logging.conf)) :
  NoDup (fst <$> loggers) ->
  Logging.logger_of (Logging.setup_logging log_file (Some loggers)) name =
    match Logging.get name loggers with
    | Some (Logging.CStr level) =>
        Some (Logging.CDict [("level", Logging.CStr level)])
    | Some (Logging.CDict d) => Some (Logging.CDict d)
    | _ => Logging.logger_of (Logging.setup_logging log_file None) name
    end.
Proof.
  intros Hnd. rewrite !logger_of_setup. by apply get_add_loggers.
Qed.

(** X23: giving the root logger a level string replaces its whole
    configuration, handlers included: the root logger, which writes to the
    file when it is left alone, is then configured with a level and no
    handler. *)
Theorem X23_root_level_drops_file_handler
    (log_file level : string) (loggers : list (string * Logging.conf)) :
  NoDup (fst <$> loggers) ->
  Logging.get Logging.root loggers = Some (Logging.CStr level) ->
  (exists c,
     Logging.logger_of (Logging.setup_logging log_file (Some loggers)) Logging.root
       = Some c /\
     Logging.handlers_of c = None) /\
  (exists c0,
     Logging.logger_of (Logging.setup_logging log_file None) Logging.root = Some c0 /\
     Logging.handlers_of c0 = Some (Logging.CList [Logging.CStr "file"])).
Proof.
  intros Hnd Hroot. split.
  - eexists. rewrite logger_of_setup, (get_add_loggers Logging.root loggers Hnd), Hroot.
    done.
  - eexists. split; reflexivity.
Qed.

(* ===================================================================== *)
(** * Instances of the further properties                                 *)
(* ===================================================================== *)

Lemma X9_transient_calls_factory_with_merged_deps_witness :
  DI.call_service 1 1%positive DI.sample_deps DI.sample_store =
    Some (DI.Ok (DI.DObj [("host", DI.DStr "a"); ("port", DI.DInt 5432)]),
          DI.record (DI.Called "connect" [("host", DI.DStr "a"); ("port", DI.DInt 5432)])
            DI.sample_store) /\
  DI.dict_get "host" (DI.dict_merge DI.sample_deps [("host", DI.DStr "a")])
    = Some (DI.DStr "a").
Proof.
  destruct (X9_transient_calls_factory_with_merged_deps 0 DI.sample_store 1%positive
              DI.connect [("host", DI.DStr "a")] DI.sample_deps
              (DI.DObj [("host", DI.DStr "a"); ("port", DI.DInt 5432)]))
    as [Hcall Hget].
  - reflexivity.
  - repeat constructor.
  - repeat constructor.
  - apply (bool_decide_unpack _). reflexivity.
  - apply (bool_decide_unpack _). reflexivity.
  - reflexivity.
  - split; [exact Hcall | exact (Hget "host"%string)].
Defined.

Lemma X10_singleton_returns_cached_instance_witness :
  exists w1,
    DI.call_service 1 2%positive DI.sample_deps DI.sample_store
      = Some (DI.Ok (DI.DObj DI.sample_deps), w1) /\
    DI.call_service 1 2%positive [] w1 = Some (DI.Ok (DI.DObj DI.sample_deps), w1).
Proof.
  assert (H : exists w1,
            DI.call_service 1 2%positive DI.sample_deps DI.sample_store
              = Some (DI.Ok (DI.DObj DI.sample_deps), w1)).
  { eexists. vm_compute. reflexivity. }
  destruct H as [w1 H]. exists w1. split; [exact H |].
  apply (X10_singleton_returns_cached_instance 1 0 DI.sample_store w1 2%positive
           (DI.FHost DI.connect) [] DI.DNone (DI.DObj DI.sample_deps) DI.sample_deps []).
  - reflexivity.
  - exact H.
  - discriminate.
Defined.

Lemma X11_singleton_does_not_cache_None_witness :
  exists w1,
    DI.call_service 1 3%positive DI.sample_deps DI.sample_store
      = Some (DI.Ok DI.DNone, w1) /\
    DI.services w1 !! 3%positive
      = Some (DI.singleton (DI.FHost DI.nothing) [] DI.DNone) /\
    DI.calls_of "nothing" (DI.log w1) = 1%nat.
Proof.
  destruct (X11_singleton_does_not_cache_None 0 DI.sample_store 3%positive DI.nothing
              [] DI.sample_deps) as (w1 & Hcall & Hsvc & _ & Hcalls).
  - reflexivity.
  - constructor.
  - repeat constructor.
  - reflexivity.
  - exists w1. split; [exact Hcall |]. split; [exact Hsvc | exact Hcalls].
Defined.

Lemma X12_resource_generator_lifecycle_witness :
  DI.call_service 1 4%positive DI.sample_deps DI.sample_store
    = Some (DI.Err (DI.RuntimeError "resource not initialized"), DI.sample_store) /\
  exists g w1 w2,
    DI.setup 0 4%positive DI.sample_store
      = Some (DI.Ok (DI.dispose_generator 4%positive g), w1) /\
    DI.call_service 2 4%positive DI.sample_deps w1 = Some (DI.Ok (DI.DStr "db"), w1) /\
    DI.dispose (DI.dispose_generator 4%positive g) None w1 = Some (DI.Ok tt, w2) /\
    DI.uninitialized w2 4%positive.
Proof.
  destruct (X12_resource_generator_lifecycle 0 0 DI.sample_store 4%positive DI.open_db
              [] DI.sample_deps (DI.DStr "db") [] None)
    as (Hbefore & g & w1 & w2 & Hsetup & _ & Hcall & Hdispose & Hun & _).
  - reflexivity.
  - constructor.
  - reflexivity.
  - exact I.
  - split; [exact Hbefore |]. exists g, w1, w2. done.
Defined.

Lemma sample_ready :
  Forall (fun r => exists v, DI.ready None DI.sample_store r v) [4%positive; 5%positive].
Proof.
  constructor; [| constructor; [| constructor]].
  - exists (DI.DStr "db"), DI.open_db, [], None.
    split; [reflexivity |]. split; [constructor |]. by split.
  - exists (DI.DStr "lock"), DI.open_lock, [], None.
    split; [reflexivity |]. split; [constructor |]. split; [reflexivity | by eexists].
Qed.

Lemma X13_setup_resources_round_trip_witness :
  exists m w0 w1 w2,
    DI.setup_resources [4%positive; 5%positive] DI.sample_store = Some (DI.Ok m, w0) /\
    DI.__enter__ 0 m w0 = Some (DI.Ok tt, w1) /\
    DI.__exit__ m None w1 = Some (DI.Ok DI.DNone, w2) /\
    DI.uninitialized w2 4%positive /\ DI.uninitialized w2 5%positive.
Proof.
  destruct (X13_setup_resources_round_trip 0 DI.sample_store [4%positive; 5%positive] None
              sample_ready)
    as (m & w0 & w1 & w2 & ds & Hnew & Henter & _ & _ & _ & Hexit & Hun & _).
  exists m, w0, w1, w2. split; [exact Hnew |]. split; [exact Henter |].
  split; [exact Hexit |]. split; apply Hun; set_solver.
Defined.

Lemma X14_enter_failure_keeps_earlier_resources_set_up_witness :
  exists m w0 w1 ds,
    DI.setup_resources [4%positive; 6%positive; 5%positive] DI.sample_store
      = Some (DI.Ok m, w0) /\
    DI.__enter__ 0 m w0 = Some (DI.Err (DI.UserError "down"), w1) /\
    DI.managers w1 !! m
      = Some (DI.mkManager [4%positive; 6%positive; 5%positive] ds) /\
    DI.disposer_self <$> ds = [4%positive].
Proof.
  destruct (X14_enter_failure_keeps_earlier_resources_set_up 0 DI.sample_store
              [4%positive] [5%positive] 6%positive DI.broken [] None
              (DI.UserError "down") None)
    as (m & w0 & w1 & ds & Hnew & Henter & Hm & Hds & _).
  - constructor; [| constructor].
    exists (DI.DStr "db"), DI.open_db, [], None.
    split; [reflexivity |]. split; [constructor |]. by split.
  - reflexivity.
  - constructor.
  - reflexivity.
  - exists m, w0, w1, ds. done.
Defined.

Lemma X15_calls_leave_resources_alone_witness :
  exists w',
    DI.call_service 1 2%positive DI.sample_deps DI.sample_store
      = Some (DI.Ok (DI.DObj DI.sample_deps), w') /\
    DI.managers w' = DI.managers DI.sample_store /\
    DI.services w' !! 4%positive = Some (DI.resource DI.open_db [] None).
Proof.
  assert (H : exists w',
            DI.call_service 1 2%positive DI.sample_deps DI.sample_store
              = Some (DI.Ok (DI.DObj DI.sample_deps), w')).
  { eexists. vm_compute. reflexivity. }
  destruct H as [w' H]. exists w'. split; [exact H |].
  destruct (X15_calls_leave_resources_alone _ _ _ _ _ _ H) as (Hm & Hres & _).
  split; [exact Hm |]. apply Hres. reflexivity.
Defined.

Lemma X16_failed_setup_changes_no_resource_witness :
  exists w',
    DI.setup 0 6%positive DI.sample_store = Some (DI.Err (DI.UserError "down"), w') /\
    DI.managers w' = DI.managers DI.sample_store /\
    DI.services w' !! 6%positive = Some (DI.resource DI.broken [] None).
Proof.
  assert (H : exists w',
            DI.setup 0 6%positive DI.sample_store
              = Some (DI.Err (DI.UserError "down"), w')).
  { eexists. vm_compute. reflexivity. }
  destruct H as [w' H]. exists w'. split; [exact H |].
  destruct (X16_failed_setup_changes_no_resource _ _ _ _ _ H) as (Hm & Hres & _).
  split; [exact Hm |]. apply Hres. reflexivity.
Defined.

Lemma X18_config_instantiates_settings_once_witness :
  exists cfg w1 w2,
    DI.config__init__ (DI.FHost DI.Settings) DI.sample_store = Some (DI.Ok cfg, w1) /\
    DI.call_service 3 cfg DI.sample_deps w1
      = Some (DI.Ok (DI.DObj [("db", DI.DObj [("url", DI.DStr "sqlite")])]), w2) /\
    DI.calls_of "Settings" (DI.log w2) = 1%nat /\
    DI.call_service 3 cfg [] w2
      = Some (DI.Ok (DI.DObj [("db", DI.DObj [("url", DI.DStr "sqlite")])]), w2).
Proof.
  destruct (X18_config_instantiates_settings_once 0 DI.sample_store DI.Settings
              (DI.DObj [("db", DI.DObj [("url", DI.DStr "sqlite")])]) DI.sample_deps)
    as (cfg & w1 & w2 & Hnew & Hcall & Hlog & Hagain).
  - reflexivity.
  - reflexivity.
  - discriminate.
  - exists cfg, w1, w2. split; [exact Hnew |]. split; [exact Hcall |].
    split; [by rewrite Hlog | exact (Hagain 0%nat [])].
Defined.

Lemma X24_service_dependency_is_called_and_injected_witness :
  DI.call_service 2 7%positive [] DI.wired_store =
    Some (DI.Ok (DI.DObj [("name", DI.DStr "app");
                          ("db", DI.DObj [("host", DI.DStr "a")])]),
          DI.record (DI.Called "connect"
                       [("name", DI.DStr "app");
                        ("db", DI.DObj [("host", DI.DStr "a")])])
            (DI.record (DI.Called "connect" [("host", DI.DStr "a")]) DI.wired_store)).
Proof.
  rewrite (X24_service_dependency_is_called_and_injected 1 DI.wired_store 7%positive
             1%positive DI.connect [("name", DI.DStr "app")] [] "db").
  - reflexivity.
  - reflexivity.
  - apply (bool_decide_unpack _). reflexivity.
  - repeat constructor.
  - constructor.
Defined.

Lemma X19_debounce_one_pending_timer_witness :
  Debounce.t (Debounce.exec 10
                [Debounce.Call (Debounce.args_of 1); Debounce.Tick 3;
                 Debounce.Call (Debounce.args_of 2)] Debounce.init)
    = Some 1%nat.
Proof.
  apply (X19_debounce_one_pending_timer 10
           [Debounce.Call (Debounce.args_of 1); Debounce.Tick 3;
            Debounce.Call (Debounce.args_of 2)]
           1 1 (Debounce.mkTimer 13 (Debounce.args_of 2) false)
           (Debounce.mkTimer 13 (Debounce.args_of 2) false)); reflexivity.
Defined.


Lemma X22_setup_logging_logger_entries_witness :
  Logging.logger_of (Logging.setup_logging "app.log" (Some Logging.sample_loggers)) "db"
    = Some (Logging.CDict [("level", Logging.CStr "INFO")]) /\
  Logging.logger_of (Logging.setup_logging "app.log" (Some Logging.sample_loggers)) "web"
    = None.
Proof.
  assert (Hnd : NoDup (fst <$> Logging.sample_loggers))
    by (apply (bool_decide_unpack _); reflexivity).
  split.
  - exact (X22_setup_logging_logger_entries "app.log" "db" Logging.sample_loggers Hnd).
  - exact (X22_setup_logging_logger_entries "app.log" "web" Logging.sample_loggers Hnd).
Defined.

Lemma X23_root_level_drops_file_handler_witness :
  exists c,
    Logging.logger_of (Logging.setup_logging "app.log" (Some Logging.sample_loggers))
      Logging.root = Some c /\
    Logging.handlers_of c = None.
Proof.
  destruct (X23_root_level_drops_file_handler "app.log" "WARNING"
              Logging.sample_loggers) as [Hroot _].
  - apply (bool_decide_unpack _). reflexivity.
  - reflexivity.
  - exact Hroot.
Defined.
